(** * CodeMachine-CLI: process runner, stream normalizers and permission retry

    A shallow embedding of the TypeScript sources

    - [infra/process/spawn.ts]                      ([spawnProcess])
    - [infra/engines/providers/kimi/execution/runner.ts]
                                                    ([runKimiPrint], [runKimiWire])
    - [infra/engines/providers/kimi/index.ts]       ([emitTelemetrySnapshot])
    - [infra/engines/providers/opencode/execution/runner.ts]
                                                    ([runOpenCode])
    - [runtime/permissions/opencode-policy.ts]      ([buildOpenCodePermissionUpdate])
    - [runtime/permissions/mediator.ts], [retry.ts] ([runWithPermissionMediator])

    Conventions.  JavaScript strings are modelled as [string] (sequences of
    8-bit characters): for ASCII text this is the JavaScript string itself,
    other bytes are carried through unchanged.  JSON values are a tree type
    whose objects are association lists in insertion order.  Callbacks
    ([onData], [onErrorData], [onUsageSnapshot], writes to the child's stdin)
    are recorded, in order, in a trace of effects.  Event-driven code
    ([spawnProcess]) is a transition function on an explicit state, run over
    the list of events that the runtime delivers. *)

From Stdlib Require Import ZArith Ascii String List Bool Lia DecimalString DecimalPos
  DecimalFacts.
From stdpp Require Import gmap strings list.
Import ListNotations.

(** ** JavaScript string primitives *)

Module JS.

Definition LF : ascii := "010"%char.
Definition CR : ascii := "013"%char.
Definition ESC : ascii := "027"%char.

Definition nl : string := String LF "".

(** White space removed by [String.prototype.trim] (ASCII part). *)
Definition is_space (c : ascii) : bool :=
  match c with
  | "009" | "010" | "011" | "012" | "013" | " " => true
  | _ => false
  end%char.

Fixpoint trimStart (s : string) : string :=
  match s with
  | String c r => if is_space c then trimStart r else s
  | "" => ""
  end.

(** [trimEnd] keeps a character when it is not a space or when something
    that is kept follows it. *)
Fixpoint trimEnd (s : string) : string :=
  match s with
  | "" => ""
  | String c r =>
      match trimEnd r with
      | "" => if is_space c then "" else String c ""
      | r' => String c r'
      end
  end.

Definition trim (s : string) : string := trimEnd (trimStart s).

(** Truthiness of a string: non-empty. *)
Definition truthy (s : string) : bool :=
  match s with "" => false | _ => true end.

(** [s.split(sep)] for a one-character separator: always at least one piece. *)
Fixpoint split (sep : ascii) (s : string) : list string :=
  match s with
  | "" => [""]
  | String c r =>
      if Ascii.eqb c sep then "" :: split sep r
      else match split sep r with
           | p :: ps => String c p :: ps
           | [] => [String c ""]
           end
  end.

(** [lines.pop() ?? ''] returns the last piece and the pieces before it. *)
Fixpoint pop (l : list string) : list string * string :=
  match l with
  | [] => ([], "")
  | [x] => ([], x)
  | x :: r => let '(i, z) := pop r in (x :: i, z)
  end.

Definition startsWith (s p : string) : bool := String.prefix p s.

Fixpoint endsWithChar (s : string) (c : ascii) : bool :=
  match s with
  | "" => false
  | String d "" => Ascii.eqb d c
  | String _ r => endsWithChar r c
  end.

(** [s.slice(n)] and [s.slice(0, n)] for [0 <= n]. *)
Fixpoint sliceFrom (n : nat) (s : string) : string :=
  match n, s with
  | O, _ => s
  | S k, String _ r => sliceFrom k r
  | S _, "" => ""
  end.

Fixpoint sliceTo (n : nat) (s : string) : string :=
  match n, s with
  | O, _ => ""
  | S k, String c r => String c (sliceTo k r)
  | S _, "" => ""
  end.

(** [s.includes(p)] *)
Fixpoint includes (s p : string) : bool :=
  String.prefix p s ||
  match s with
  | "" => false
  | String _ r => includes r p
  end.

(** [parts.join(sep)] *)
Definition join (sep : string) (l : list string) : string := String.concat sep l.

(** [s.endsWith('\n') ? s : s + '\n'] *)
Definition ensureNewline (s : string) : string :=
  if endsWithChar s LF then s else s +:+ nl.

(** Number of (possibly overlapping) occurrences of [p] in [s]. *)
Fixpoint occurrences (p s : string) : nat :=
  (if String.prefix p s then 1 else 0)%nat +
  match s with
  | "" => 0%nat
  | String _ r => occurrences p r
  end.

End JS.

(** ** JSON values *)

(** Numbers are exact decimals [mant * 10 ^ expo], kept normalised
    ([expo <= 0], no trailing zero in a fraction).  They agree with the
    doubles of JavaScript on integers below 2^53 and on short decimal
    fractions, which is all the streams of the agents carry (token counts,
    identifiers). *)
Record number := Num { mant : Z; expo : Z }.

Definition int (z : Z) : number := Num z 0.

#[warnings="-register-all"]
Inductive json :=
| JNull
| JBool (b : bool)
| JNum (n : number)
| JStr (s : string)
| JArr (items : list json)
| JObj (fields : list (string * json)).

(** A JavaScript value read out of a JSON tree: [None] is [undefined]. *)
Abbreviation jsval := (option json).

Module Obj.
(** Objects keep their keys in insertion order; writing an existing key
    replaces the value in place (the order JavaScript uses for keys that
    are not array indices). *)
Definition t := list (string * json).

Fixpoint get (k : string) (o : t) : jsval :=
  match o with
  | [] => None
  | (k', v) :: r => if String.eqb k k' then Some v else get k r
  end.

Fixpoint set (k : string) (v : json) (o : t) : t :=
  match o with
  | [] => [(k, v)]
  | (k', v') :: r =>
      if String.eqb k k' then (k, v) :: r else (k', v') :: set k v r
  end.

(** [o[k] = v] with a computed key, on an object that inherits from
    [Object.prototype].  The name [__proto__] is the accessor of the prototype
    unless the object has an own property of that name ([JSON.parse] and a
    spread make one of a [__proto__] member): the setter changes no own
    property, and ignores a value that is neither an object nor [null].
    Every other key is written as [set] does. *)
Definition has (k : string) (o : t) : bool :=
  match get k o with Some _ => true | None => false end.

Definition assign (k : string) (v : json) (o : t) : t :=
  if String.eqb k "__proto__" && negb (has k o) then o else set k v o.

(** [{ ...a, ...b }] *)
Definition spread (a b : t) : t :=
  fold_left (fun acc kv => set (fst kv) (snd kv) acc) b a.

Definition keys (o : t) : list string := map fst o.
End Obj.

(** ** [JSON.parse] and [JSON.stringify]

    The two functions of the JavaScript runtime that the sources call on
    every line, written out as a recursive-descent parser (ECMA-404 grammar)
    and a printer. *)

Module Json.

(** The double quote, and a JSON text written with apostrophes in the place
    of its double quotes. *)
Definition dq : string := String "034" "".

Fixpoint lit (s : string) : string :=
  match s with
  | "" => ""
  | String c r => String (if Ascii.eqb c "'" then "034"%char else c) (lit r)
  end.

Definition is_ws (c : ascii) : bool :=
  match c with
  | " " | "009" | "010" | "013" => true
  | _ => false
  end%char.

Fixpoint skip_ws (s : string) : string :=
  match s with
  | String c r => if is_ws c then skip_ws r else s
  | "" => ""
  end.

Definition digit (c : ascii) : option Z :=
  let n := Z.of_N (N_of_ascii c) in
  if (48 <=? n)%Z && (n <=? 57)%Z then Some (n - 48)%Z else None.

Definition hexdigit (c : ascii) : option Z :=
  let n := Z.of_N (N_of_ascii c) in
  if (48 <=? n)%Z && (n <=? 57)%Z then Some (n - 48)%Z
  else if (65 <=? n)%Z && (n <=? 70)%Z then Some (n - 55)%Z
  else if (97 <=? n)%Z && (n <=? 102)%Z then Some (n - 87)%Z
  else None.

(** Reads a (possibly empty) run of digits, accumulating the value and
    counting the digits. *)
Fixpoint take_digits (s : string) (acc : Z) (count : nat) : Z * nat * string :=
  match s with
  | String c r =>
      match digit c with
      | Some d => take_digits r (acc * 10 + d)%Z (S count)
      | None => (acc, count, s)
      end
  | "" => (acc, count, s)
  end.

(** Drops the trailing zeros of a fraction: [m * 10^-k]. *)
Fixpoint strip_zeros (k : nat) (m : Z) : number :=
  match k with
  | O => Num m 0
  | S k' => if (m mod 10 =? 0)%Z then strip_zeros k' (m / 10)%Z
            else Num m (- Z.of_nat k)
  end.

Definition normalise (m e : Z) : number :=
  if (m =? 0)%Z then Num 0 0
  else if (0 <=? e)%Z then Num (m * 10 ^ e)%Z 0
  else strip_zeros (Z.to_nat (- e)) m.

Definition parse_number (s : string) : option (number * string) :=
  let '(neg, s1) :=
    match s with String "-" r => (true, r) | _ => (false, s) end in
  match s1 with
  | String c r =>
      d ← digit c;
      let '(ip, _, s2) :=
        if (d =? 0)%Z then (0%Z, 1%nat, r) else take_digits r d 1 in
      '(m, fd, s3) ←
        match s2 with
        | String "." r2 =>
            let '(m, k, r3) := take_digits r2 ip 0 in
            match k with O => None | _ => Some (m, k, r3) end
        | _ => Some (ip, 0%nat, s2)
        end;
      '(ex, s4) ←
        match s3 with
        | String c3 r3 =>
            if Ascii.eqb c3 "e" || Ascii.eqb c3 "E" then
              let '(eneg, r4) :=
                match r3 with
                | String "-" r4 => (true, r4)
                | String "+" r4 => (false, r4)
                | _ => (false, r3)
                end in
              let '(ev, k, r5) := take_digits r4 0 0 in
              match k with
              | O => None
              | _ => Some (if eneg then (- ev)%Z else ev, r5)
              end
            else Some (0%Z, s3)
        | "" => Some (0%Z, s3)
        end;
      Some (normalise (if neg then - m else m)%Z (ex - Z.of_nat fd)%Z, s4)
  | "" => None
  end.

Definition byte (n : Z) : ascii := ascii_of_N (Z.to_N (n mod 256)).

(** UTF-8 bytes of a code unit given as [\uXXXX]. *)
Definition utf8 (n : Z) : string :=
  if (n <? 128)%Z then String (byte n) ""
  else if (n <? 2048)%Z then
    String (byte (192 + n / 64)) (String (byte (128 + n mod 64)) "")
  else
    String (byte (224 + n / 4096))
      (String (byte (128 + (n / 64) mod 64)) (String (byte (128 + n mod 64)) "")).

(** The characters of a string literal after its opening quote. *)
Fixpoint parse_string_body (s : string) : option (string * string) :=
  match s with
  | "" => None
  | String c r =>
      if Ascii.eqb c "034" then Some ("", r)
      else if Ascii.eqb c "\" then
        match r with
        | String e r' =>
            let simple (x : ascii) :=
              '(str, rest) ← parse_string_body r'; Some (String x str, rest) in
            match e with
            | "034"%char => simple "034"%char
            | "\"%char => simple "\"%char
            | "/"%char => simple "/"%char
            | "b"%char => simple "008"%char
            | "f"%char => simple "012"%char
            | "n"%char => simple "010"%char
            | "r"%char => simple "013"%char
            | "t"%char => simple "009"%char
            | "u"%char =>
                match r' with
                | String h1 (String h2 (String h3 (String h4 r''))) =>
                    a ← hexdigit h1; b ← hexdigit h2;
                    c' ← hexdigit h3; d ← hexdigit h4;
                    '(str, rest) ← parse_string_body r'';
                    Some (utf8 (((a * 16 + b) * 16 + c') * 16 + d)%Z +:+ str, rest)
                | _ => None
                end
            | _ => None
            end
        | "" => None
        end
      else if (N_of_ascii c <? 32)%N then None
      else '(str, rest) ← parse_string_body r; Some (String c str, rest)
  end.

Fixpoint parse_value (fuel : nat) (s : string) : option (json * string) :=
  match fuel with
  | O => None
  | S f =>
      match skip_ws s with
      | String "{" r =>
          match skip_ws r with
          | String "}" r' => Some (JObj [], r')
          | r' => parse_members f r' []
          end
      | String "[" r =>
          match skip_ws r with
          | String "]" r' => Some (JArr [], r')
          | r' => parse_elements f r' []
          end
      | String "034" r =>
          '(str, r') ← parse_string_body r; Some (JStr str, r')
      | String "t" (String "r" (String "u" (String "e" r))) =>
          Some (JBool true, r)
      | String "f" (String "a" (String "l" (String "s" (String "e" r)))) =>
          Some (JBool false, r)
      | String "n" (String "u" (String "l" (String "l" r))) =>
          Some (JNull, r)
      | s' => '(n, r) ← parse_number s'; Some (JNum n, r)
      end
  end
with parse_elements (fuel : nat) (s : string) (acc : list json)
  : option (json * string) :=
  match fuel with
  | O => None
  | S f =>
      '(v, r) ← parse_value f s;
      match skip_ws r with
      | String "," r' => parse_elements f r' (acc ++ [v])
      | String "]" r' => Some (JArr (acc ++ [v]), r')
      | _ => None
      end
  end
with parse_members (fuel : nat) (s : string) (acc : Obj.t)
  : option (json * string) :=
  match fuel with
  | O => None
  | S f =>
      match skip_ws s with
      | String "034" r =>
          '(k, r1) ← parse_string_body r;
          match skip_ws r1 with
          | String ":" r2 =>
              '(v, r3) ← parse_value f r2;
              match skip_ws r3 with
              | String "," r4 => parse_members f r4 (Obj.set k v acc)
              | String "}" r4 => Some (JObj (Obj.set k v acc), r4)
              | _ => None
              end
          | _ => None
          end
      | _ => None
      end
  end.

(** [JSON.parse(text)]: [None] stands for the [SyntaxError] it throws. *)
Definition parse (text : string) : option json :=
  '(v, r) ← parse_value (S (String.length text)) text;
  match skip_ws r with
  | "" => Some v
  | _ => None
  end.

Definition hex (n : Z) : ascii :=
  if (n <? 10)%Z then byte (48 + n) else byte (87 + n).

Definition escape_char (c : ascii) : string :=
  match c with
  | "034"%char => String "\" dq
  | "\"%char => "\\"
  | "008"%char => "\b"
  | "012"%char => "\f"
  | "010"%char => "\n"
  | "013"%char => "\r"
  | "009"%char => "\t"
  | _ =>
      let n := Z.of_N (N_of_ascii c) in
      if (n <? 32)%Z then
        "\u00" +:+ String (hex (n / 16)) (String (hex (n mod 16)) "")
      else String c ""
  end.

Fixpoint escape (s : string) : string :=
  match s with
  | "" => ""
  | String c r => escape_char c +:+ escape r
  end.

Definition quote (s : string) : string := dq +:+ escape s +:+ dq.

Definition nat_to_string (n : nat) : string :=
  NilZero.string_of_uint (Nat.to_uint n).

Fixpoint zeros (n : nat) : string :=
  match n with O => "" | S k => String "0" (zeros k) end.

(** [String(n)] for the numbers of the model. *)
Definition number_to_string (n : number) : string :=
  let sign := if (mant n <? 0)%Z then "-" else "" in
  let ds := NilZero.string_of_uint (N.to_uint (Z.abs_N (mant n))) in
  let k := Z.to_nat (- expo n) in
  match k with
  | O => sign +:+ ds
  | _ =>
      let padded := zeros (S k - String.length ds) +:+ ds in
      let cut := (String.length padded - k)%nat in
      sign +:+ JS.sliceTo cut padded +:+ "." +:+ JS.sliceFrom cut padded
  end.

(** [JSON.stringify(value)] *)
Fixpoint stringify (v : json) : string :=
  match v with
  | JNull => "null"
  | JBool true => "true"
  | JBool false => "false"
  | JNum n => number_to_string n
  | JStr s => quote s
  | JArr items => "[" +:+ JS.join "," (List.map stringify items) +:+ "]"
  | JObj fields =>
      "{" +:+ JS.join ","
               (List.map (fun kv => let '(k, x) := kv in
                                    quote k +:+ ":" +:+ stringify x) fields)
          +:+ "}"
  end.

End Json.


(** ** Regular-expression rewrites of the runners

    Each rewrite is the [String.prototype.replace] call of the source with
    its regular expression unfolded into a scanner. *)

Module Text.
Import JS.

(** [s.replace(/\r\n/g, '\n')] *)
Fixpoint crlfToLf (s : string) : string :=
  match s with
  | "" => ""
  | String c r =>
      match r with
      | String d r' =>
          if Ascii.eqb c CR && Ascii.eqb d LF then String LF (crlfToLf r')
          else String c (crlfToLf r)
      | "" => String c ""
      end
  end.

(** [s.replace(/\r/g, '\n')] *)
Fixpoint crToLf (s : string) : string :=
  match s with
  | "" => ""
  | String c r => String (if Ascii.eqb c CR then LF else c) (crToLf r)
  end.

Definition in_range (lo hi : N) (c : ascii) : bool :=
  (lo <=? N_of_ascii c)%N && (N_of_ascii c <=? hi)%N.

(** The classes [[0-9;?]], [[ -/]] and [[@-~]] of [ANSI_ESCAPE_SEQUENCE]. *)
Definition is_param (c : ascii) : bool :=
  in_range 48 57 c || Ascii.eqb c ";" || Ascii.eqb c "?".
Definition is_inter (c : ascii) : bool := in_range 32 47 c.
Definition is_final (c : ascii) : bool := in_range 64 126 c.

Fixpoint span (p : ascii -> bool) (s : string) : nat * string :=
  match s with
  | String c r =>
      if p c then let '(n, rest) := span p r in (S n, rest) else (O, s)
  | "" => (O, "")
  end.

(** Length of a match of [\[[0-9;?]*[ -/]*[@-~]] at the head of [r] (the
    text after an ESC).  The three classes are disjoint, so the greedy
    match is the only one. *)
Definition csiLength (r : string) : option nat :=
  match r with
  | String "[" r1 =>
      let '(np, r2) := span is_param r1 in
      let '(ni, r3) := span is_inter r2 in
      match r3 with
      | String f _ => if is_final f then Some (S (np + ni + 1)) else None
      | "" => None
      end
  | _ => None
  end.

(** [s.replace(ANSI_ESCAPE_SEQUENCE, '')]; [skip] characters of a match
    are still to be dropped. *)
Fixpoint stripAnsiFrom (skip : nat) (s : string) : string :=
  match s with
  | "" => ""
  | String c r =>
      match skip with
      | S k => stripAnsiFrom k r
      | O =>
          if Ascii.eqb c ESC then
            match csiLength r with
            | Some n => stripAnsiFrom n r
            | None => String c (stripAnsiFrom O r)
            end
          else String c (stripAnsiFrom O r)
      end
  end.

Definition stripAnsi (s : string) : string := stripAnsiFrom O s.

(** The rewrite "carriage returns that cause line overwrites" of
    [normalizeChunk] (multi-line pattern: line start, any run without line
    terminator, a carriage return, then a captured run without CR or LF,
    which replaces the match): on a line, the text up to the first
    carriage return is overwritten by the text that follows it.
    [overwritePre acc] scans from a line start with [acc] read so far;
    [overwriteGroup empty] copies the captured group. *)
Fixpoint overwritePre (acc s : string) : string :=
  match s with
  | "" => acc
  | String c r =>
      if Ascii.eqb c CR then overwriteGroup true r
      else if Ascii.eqb c LF then acc +:+ String LF (overwritePre "" r)
      else overwritePre (acc +:+ String c "") r
  end
with overwriteGroup (empty : bool) (s : string) : string :=
  match s with
  | "" => ""
  | String c r =>
      if Ascii.eqb c CR then
        if empty then overwriteGroup true r else String CR (overwritePre "" r)
      else if Ascii.eqb c LF then String LF (overwritePre "" r)
      else String c (overwriteGroup false r)
  end.

Definition overwriteCarriageReturns (s : string) : string := overwritePre "" s.

(** [s.replace(/\n{3,}/g, '\n\n')]; [run] line feeds precede [s]. *)
Fixpoint collapseFrom (run : nat) (s : string) : string :=
  match s with
  | "" => ""
  | String c r =>
      if Ascii.eqb c LF then
        if (run <? 2)%nat then String LF (collapseFrom (S run) r)
        else collapseFrom (S run) r
      else String c (collapseFrom O r)
  end.

Definition collapseNewlines (s : string) : string := collapseFrom O s.

(** [s.split(/(\n{2,})/)]: texts at the even places, the separating runs
    of two or more line feeds at the odd places. *)
Fixpoint lfRun (s : string) : nat * string :=
  match s with
  | String c r =>
      if Ascii.eqb c LF then let '(n, rest) := lfRun r in (S n, rest)
      else (O, s)
  | "" => (O, "")
  end.

Fixpoint repeatLf (n : nat) : string :=
  match n with O => "" | S k => String LF (repeatLf k) end.

(** [skip] line feeds of the current separator are still to be passed. *)
Fixpoint splitParagraphsFrom (skip : nat) (s : string) : list string :=
  match s with
  | "" => [""]
  | String c r =>
      match skip with
      | S k => splitParagraphsFrom k r
      | O =>
          let cons_char :=
            match splitParagraphsFrom O r with
            | p :: ps => String c p :: ps
            | [] => [String c ""]
            end in
          if Ascii.eqb c LF then
            let '(n, _) := lfRun r in
            match n with
            | O => cons_char
            | _ => "" :: repeatLf (S n) :: splitParagraphsFrom n r
            end
          else cons_char
      end
  end.

Definition splitParagraphs (s : string) : list string := splitParagraphsFrom O s.

(** [PARAGRAPH_SEPARATOR_PATTERN.test(s)] with [/\n{2,}/] *)
Definition hasParagraphSeparator (s : string) : bool :=
  includes s (String LF (String LF "")).

End Text.

(** ** Reading JavaScript values *)

Module Val.

(** [!!v] *)
Definition truthy (v : jsval) : bool :=
  match v with
  | None | Some JNull => false
  | Some (JBool b) => b
  | Some (JNum n) => negb (mant n =? 0)%Z
  | Some (JStr s) => JS.truthy s
  | Some (JArr _) | Some (JObj _) => true
  end.

(** [v === undefined || v === null] *)
Definition nullish (v : jsval) : bool :=
  match v with
  | None | Some JNull => true
  | _ => false
  end.

(** [a ?? b] *)
Definition coalesce (a b : jsval) : jsval := if nullish a then b else a.

(** [v[k]] for a value that is neither [null] nor [undefined], and a key
    [k] that is neither an array index nor the name of a built-in
    property (the sources only read fixed field names). *)
Definition field (k : string) (v : json) : jsval :=
  match v with
  | JObj o => Obj.get k o
  | _ => None
  end.

(** [v?.[k]] *)
Definition field_opt (k : string) (v : jsval) : jsval :=
  match v with
  | None | Some JNull => None
  | Some x => field k x
  end.

Definition asString (v : jsval) : option string :=
  match v with Some (JStr s) => Some s | _ => None end.

Definition asNumber (v : jsval) : option number :=
  match v with Some (JNum n) => Some n | _ => None end.

Definition asArray (v : jsval) : option (list json) :=
  match v with Some (JArr l) => Some l | _ => None end.

(** [value && typeof value === 'object' ? value : undefined] of the Kimi
    runner.  The conditional has the whole conjunction as its test: a
    falsy [value] ([null] included, whose [typeof] is ['object']) gives
    [undefined], and arrays count as objects. *)
Definition asObject (v : jsval) : jsval :=
  if truthy v then
    match v with
    | Some (JObj _) | Some (JArr _) => v
    | _ => None
    end
  else None.

(** [String(v)], the text of a value inside a template literal. *)
Fixpoint toString (v : json) : string :=
  match v with
  | JNull => "null"
  | JBool true => "true"
  | JBool false => "false"
  | JNum n => Json.number_to_string n
  | JStr s => s
  | JArr items =>
      JS.join ","
        (List.map (fun x => match x with JNull => "" | _ => toString x end) items)
  | JObj _ => "[object Object]"
  end.

Definition text (v : jsval) : string :=
  match v with
  | Some x => toString x
  | None => "undefined"
  end.

(** [a ?? b] on the results of [asString] and [asNumber]. *)
Definition orElse {A} (a b : option A) : option A :=
  match a with Some _ => a | None => b end.

End Val.

Infix "??" := Val.orElse (at level 61, left associativity).

(** ** The Kimi runner ([kimi/execution/runner.ts]) *)

Record KimiUsageSnapshot := {
  tokensIn : option number;
  tokensOut : option number;
  cached : option number;
}.

(** What a runner does to the outside, in order. *)
Inductive effect :=
| OnData (chunk : string)
| OnErrorData (chunk : string)
| OnUsageSnapshot (snapshot : KimiUsageSnapshot)
| StdinWrite (data : string).

Definition isData (e : effect) : bool :=
  match e with OnData _ => true | _ => false end.
Definition isUsage (e : effect) : bool :=
  match e with OnUsageSnapshot _ => true | _ => false end.
Definition isStdinWrite (e : effect) : bool :=
  match e with StdinWrite _ => true | _ => false end.

Inductive commandStatus := Started | Success | Error.

Section Kimi.
Import JS Val.

(** The formatters of [shared/formatters/outputMarkers.ts]. *)
Variable formatCommand : string -> commandStatus -> string.
Variable formatResult : string -> bool -> string.
Variable formatStatus : string -> string.
Variable formatThinking : string -> string.

Definition normalizeChunk (chunk : string) (plainLogs : bool) : string :=
  let result := Text.crToLf (Text.crlfToLf chunk) in
  if plainLogs then Text.stripAnsi result else result.

(** The loop over [partsCandidate]: text and thinking fragments. *)
Fixpoint collectParts (parts : list json) (textParts thinkingParts : list string)
  : list string * list string :=
  match parts with
  | [] => (textParts, thinkingParts)
  | part :: rest =>
      if negb (truthy (Some part)) then collectParts rest textParts thinkingParts
      else
        match part with
        | JStr s => collectParts rest (textParts ++ [s]) thinkingParts
        | fragment =>
            let type := asString (field "type" fragment) in
            let text := asString (field "text" fragment) in
            match type, text with
            | Some ty, Some tx =>
                if String.eqb ty "text" && JS.truthy tx
                then collectParts rest (textParts ++ [tx]) thinkingParts
                else if String.eqb ty "thinking" && JS.truthy tx
                then collectParts rest textParts (thinkingParts ++ [tx])
                else collectParts rest textParts thinkingParts
            | _, _ => collectParts rest textParts thinkingParts
            end
        end
  end.

Definition emitAssistantContent (payload : jsval) : list effect :=
  if negb (truthy payload) then [] else
  match payload with
  | None => []
  | Some p =>
      let partsCandidate :=
        asArray (field "parts" p) ?? asArray (field "content" p) in
      match partsCandidate with
      | Some parts =>
          let '(textParts, thinkingParts) := collectParts parts [] [] in
          (match thinkingParts with
           | [] => []
           | _ => [OnData (formatThinking (join "" thinkingParts) +:+ nl)]
           end) ++
          (match textParts with
           | [] => []
           | _ => [OnData (ensureNewline (join "" textParts))]
           end)
      | None =>
          match asString (field "text" p) with
          | Some text =>
              if JS.truthy text then [OnData (ensureNewline text)] else []
          | None => []
          end
      end
  end.

Definition itemText (item : json) : string :=
  match item with
  | JStr s => s
  | _ => Json.stringify item
  end.

Definition preview200 (content : string) : string :=
  let trimmed := trim content in
  if (200 <? String.length trimmed)%nat then sliceTo 200 trimmed +:+ "..."
  else trimmed.

Definition emitToolMessage (payload : jsval) : list effect :=
  let present := truthy payload in
  let toolName :=
    match (if present
           then asString (field_opt "name" payload)
                  ?? asString (field_opt "tool_name" payload)
           else None) with
    | Some name => name
    | None => "tool"
    end in
  let isError :=
    (present &&
     match asString (field_opt "status" payload) with
     | Some st => String.eqb st "error"
     | None => false
     end)
    || match field_opt "is_error" payload with
       | Some (JBool true) => true
       | _ => false
       end in
  let content :=
    if present then
      match asArray (field_opt "content" payload) with
      | Some contentArray => join nl (List.map itemText contentArray)
      | None =>
          match asString (field_opt "content" payload)
                  ?? asString (field_opt "output" payload)
                  ?? asString (field_opt "text" payload) with
          | Some c => c
          | None => ""
          end
      end
    else "" in
  let preview := preview200 content in
  let message := formatCommand toolName (if isError then Error else Success) in
  let message :=
    if JS.truthy preview then message +:+ nl +:+ formatResult preview isError
    else message in
  [OnData (message +:+ nl)].

Definition emitUsageSnapshot (payload : jsval) : list effect :=
  if negb (truthy payload) then [] else
  let rawTokens :=
    coalesce (coalesce (coalesce (field_opt "token_count" payload)
                                 (field_opt "usage" payload))
                       (field_opt "context_usage" payload))
             (field_opt "tokens" payload) in
  match rawTokens with
  | None => []
  | Some (JNum n) =>
      [OnUsageSnapshot {| tokensIn := Some n; tokensOut := None; cached := None |}]
  | Some _ =>
      let tokens := asObject rawTokens in
      if negb (truthy tokens) then [] else
      let tokensIn :=
        asNumber (field_opt "total" tokens) ?? asNumber (field_opt "input" tokens)
          ?? asNumber (field_opt "prompt" tokens)
          ?? asNumber (field_opt "request" tokens) in
      let tokensOut :=
        asNumber (field_opt "output" tokens)
          ?? asNumber (field_opt "completion" tokens)
          ?? asNumber (field_opt "response" tokens) in
      let cached :=
        asNumber (field_opt "cached" tokens) ?? asNumber (field_opt "cache" tokens)
          ?? asNumber (field_opt "cached_input" tokens) in
      [OnUsageSnapshot
         {| tokensIn := tokensIn; tokensOut := tokensOut; cached := cached |}]
  end.

Definition emitCheckpoint (payload : jsval) : list effect :=
  let id :=
    if truthy payload
    then asString (field_opt "id" payload)
           ?? asString (field_opt "checkpoint_id" payload)
    else None in
  let label :=
    match id with
    | Some i => if JS.truthy i then "Checkpoint " +:+ i else "Checkpoint reached"
    | None => "Checkpoint reached"
    end in
  [OnData (formatStatus label +:+ nl)].

(** One iteration of the loop of [onStdout] in [runKimiPrint].  Reading
    [json.role] throws on [null]; the [catch] forwards the raw line. *)
Definition printLine (rawLine : string) : list effect :=
  let line := trim rawLine in
  if negb (JS.truthy line) then [] else
  match Json.parse line with
  | None | Some JNull => [OnData (ensureNewline rawLine)]
  | Some json =>
      match asString (field "role" json) with
      | Some role =>
          if String.eqb role "assistant" then emitAssistantContent (Some json)
          else if String.eqb role "tool" then emitToolMessage (Some json)
          else if String.eqb role "_usage" then emitUsageSnapshot (Some json)
          else if String.eqb role "_checkpoint" then emitCheckpoint (Some json)
          else []
      | None => []
      end
  end.

(** [onStdout] of [runKimiPrint] *)
Definition printOnStdout (plainLogs : bool) (chunk : string) : list effect :=
  let normalized := normalizeChunk chunk plainLogs in
  let lines := split LF normalized in
  flat_map printLine lines.

(** The effects of a run whose child delivers [chunks] on stdout. *)
Definition runKimiPrint (plainLogs : bool) (chunks : list string) : list effect :=
  flat_map (printOnStdout plainLogs) chunks.

(** *** Wire mode *)

(** The part of a [ChildProcess] that the wire runner looks at. *)
Record ChildStdin := {
  hasStdin : bool;        (* [child.stdin] is not null *)
  stdinDestroyed : bool;  (* [child.stdin.destroyed] *)
}.

Record WireState := {
  buffer : string;
  toolNames : gmap string string;
  child : option ChildStdin;
}.

Definition stdinWritable (c : option ChildStdin) : bool :=
  match c with
  | Some ch => hasStdin ch && negb (stdinDestroyed ch)
  | None => false
  end.

Definition markers : list string :=
  ["[GRAY]"; "[GREEN]"; "[RED]"; "[ORANGE]"; "[CYAN]"].

Definition applyPrefix (text : string) (prefix : option string) : string :=
  match prefix with
  | None => text
  | Some p =>
      if negb (JS.truthy p) then text else
      match List.find (fun m => startsWith text m) markers with
      | Some m => m +:+ p +:+ ": " +:+ sliceFrom (String.length m) text
      | None => p +:+ ": " +:+ text
      end
  end.

Definition isErrorEvent (event : json) : bool :=
  match asString (field "status" event) with
  | Some st => String.eqb st "error"
  | None => false
  end
  || match field "is_error" event with
     | Some (JBool true) => true
     | _ => false
     end.

Definition trimmed (v : jsval) : option string := trim <$> asString v.

(** [handleWireEvent]; the recursion of [subagent_event] goes into a
    field of the event, [fuel] bounds its depth. *)
Fixpoint handleWireEvent (fuel : nat) (eventInput : jsval)
    (names : gmap string string) (prefix : option string)
  : gmap string string * list effect :=
  match fuel with
  | O => (names, [])
  | S fuel' =>
  if negb (truthy eventInput) then (names, []) else
  match eventInput with
  | None => (names, [])
  | Some event =>
  match asString (field "type" event) with
  | None => (names, [])
  | Some type =>
  if negb (JS.truthy type) then (names, [])
  else if String.eqb type "content_part" then
    match asString (field "text" event) ?? asString (field "content" event) with
    | Some (String _ _ as text) =>
        (names, [OnData (applyPrefix (ensureNewline text) prefix)])
    | _ =>
        let contentType :=
          default "content" (asString (field "content_type" event)) in
        let shown := coalesce (asObject (field "data" event)) (Some event) in
        let preview :=
          sliceTo 120 (match shown with Some x => Json.stringify x | None => "" end) in
        (names,
         [OnData (applyPrefix
                    (formatStatus ("Kimi emitted " +:+ contentType +:+ ": " +:+ preview)
                       +:+ nl) prefix)])
    end
  else if String.eqb type "tool_call" then
    let toolName :=
      default "tool"
        (asString (field "name" event) ?? asString (field "tool_name" event)) in
    let names' :=
      match asString (field "id" event) with
      | Some (String _ _ as id) => <[id := toolName]> names
      | _ => names
      end in
    (names', [OnData (applyPrefix (formatCommand toolName Started +:+ nl) prefix)])
  else if String.eqb type "tool_call_part" then
    let id := asString (field "id" event) in
    let toolName :=
      default "tool"
        (asString (field "name" event) ?? asString (field "tool_name" event)
           ?? match id with
              | Some (String _ _ as i) => names !! i
              | _ => None
              end) in
    let preview :=
      match asString (field "preview" event) with
      | Some pv => pv
      | None =>
          sliceTo 120
            (match coalesce (asObject (field "input" event)) (Some (JObj [])) with
             | Some x => Json.stringify x
             | None => ""
             end)
      end in
    let chunk :=
      formatCommand toolName Started
        +:+ (if JS.truthy preview then nl +:+ formatResult preview false else "")
        +:+ nl in
    (names, [OnData (applyPrefix chunk prefix)])
  else if String.eqb type "tool_result" then
    let id := asString (field "id" event) in
    let toolName :=
      match id with
      | Some "" => ""
      | Some i =>
          default "tool" ((names !! i) ?? asString (field "name" event))
      | None => default "tool" (asString (field "name" event))
      end in
    let isError := isErrorEvent event in
    let preview :=
      default
        (if truthy (asObject (field "output" event)) then
           sliceTo 200
             (match field "output" event with
              | Some x => Json.stringify x
              | None => ""
              end)
         else "")
        (trimmed (field "output" event) ?? trimmed (field "text" event)
           ?? trimmed (field "content" event)) in
    let message := formatCommand toolName (if isError then Error else Success) in
    let message :=
      if JS.truthy preview then message +:+ nl +:+ formatResult preview isError
      else message in
    let names' :=
      match id with
      | Some (String _ _ as i) => delete i names
      | _ => names
      end in
    (names', [OnData (applyPrefix (message +:+ nl) prefix)])
  else if String.eqb type "status_update" then
    let status :=
      match asString (field "message" event) with
      | Some (String _ _ as message) =>
          [OnData (applyPrefix (formatStatus message +:+ nl) prefix)]
      | _ => []
      end in
    (names,
     status ++
     emitUsageSnapshot (coalesce (asObject (field "context_usage" event))
                                 (asObject (field "usage" event))))
  else if String.eqb type "step_begin" then
    (names, [OnData (applyPrefix (formatStatus "Kimi started a new step" +:+ nl) prefix)])
  else if String.eqb type "step_interrupted" then
    (names,
     [OnData (applyPrefix (formatStatus "Kimi interrupted the current step" +:+ nl)
                prefix)])
  else if String.eqb type "compaction_begin" then
    (names,
     [OnData (applyPrefix (formatStatus "Kimi is compacting the transcript" +:+ nl)
                prefix)])
  else if String.eqb type "compaction_end" then
    (names, [OnData (applyPrefix (formatStatus "Kimi finished compaction" +:+ nl) prefix)])
  else if String.eqb type "subagent_event" then
    let taskId :=
      asString (field "task_tool_call_id" event)
        ?? (Json.number_to_string <$> asNumber (field "task_tool_call_id" event)) in
    let prefixLabel :=
      match taskId with
      | Some (String _ _ as t) => "Subagent " +:+ t
      | _ => "Subagent"
      end in
    let nested := asObject (field "event" event) in
    if truthy nested then handleWireEvent fuel' nested names (Some prefixLabel)
    else (names, [])
  else (names, [])
  end end end.

(** Nesting depth of a value, the fuel [handleWireEvent] is run with. *)
Fixpoint depth (v : json) : nat :=
  match v with
  | JArr items => S (list_max (List.map depth items))
  | JObj fields => S (list_max (List.map (fun kv => let '(_, x) := kv in depth x) fields))
  | _ => 1
  end.

Definition handleEvent (eventInput : jsval) (names : gmap string string)
    (prefix : option string) : gmap string string * list effect :=
  handleWireEvent (match eventInput with Some e => depth e | None => 1 end)
    eventInput names prefix.

Definition approvalResponse (id : string) : json :=
  JObj [("jsonrpc", JStr "2.0");
        ("id", JStr id);
        ("result", JObj [("approved", JBool true); ("action", JStr "approve")])].

Definition autoApproveRequest (id : string) (params : jsval)
    (ch : option ChildStdin) : list effect :=
  if negb (stdinWritable ch) then [] else
  let fromRequest :=
    let request := asObject (field_opt "request" params) in
    default "Kimi approval"
      (if truthy request
       then asString (field_opt "title" request)
              ?? asString (field_opt "message" request)
       else None) in
  let title :=
    if truthy params then
      default fromRequest
        (asString (field_opt "title" params) ?? asString (field_opt "message" params))
    else
      match params with
      | None | Some JNull => fromRequest
      | Some falsy => toString falsy
      end in
  [OnData (formatStatus ("Auto-approved: " +:+ title) +:+ nl);
   StdinWrite (Json.stringify (approvalResponse id) +:+ nl)].

(** [runRequestId] is [`run-${Date.now()}`]. *)
Variable runRequestId : string.

Definition sendJsonRpc (payload : json) (ch : option ChildStdin) : list effect :=
  if negb (stdinWritable ch) then []
  else [StdinWrite (Json.stringify payload +:+ nl)].

Definition errorLine (message : string) : effect :=
  OnErrorData (formatCommand "Kimi Error" Error +:+ nl
                 +:+ formatResult message true +:+ nl).

(** The own enumerable properties that an object spread copies. *)
Fixpoint indexed (i : nat) (items : list json) : Obj.t :=
  match items with
  | [] => []
  | x :: r => (Json.nat_to_string i, x) :: indexed (S i) r
  end.

Definition entries (v : jsval) : Obj.t :=
  match v with
  | Some (JObj o) => o
  | Some (JArr l) => indexed 0 l
  | _ => []
  end.

(** [processLine] of [runKimiWire] *)
Definition wireLine (line : string) (st : WireState) : WireState * list effect :=
  if negb (JS.truthy line) then (st, []) else
  match Json.parse line with
  | None | Some JNull => (st, [OnErrorData (ensureNewline line)])
  | Some json =>
      let method := asString (field "method" json) in
      let id := asString (field "id" json) in
      let params := asObject (field "params" json) in
      let error := asObject (field "error" json) in
      let with_names r :=
        ({| buffer := buffer st; toolNames := fst r; child := child st |}, snd r) in
      if bool_decide (method = Some "event") && truthy params then
        with_names (handleEvent (asObject (field_opt "event" params)) (toolNames st) None)
      else if bool_decide (method = Some "request")
              && match id with Some i => JS.truthy i | None => false end then
        (st, autoApproveRequest (default "" id) params (child st))
      else if bool_decide (id = Some runRequestId) && truthy error then
        (st, [errorLine (default "Unknown wire error"
                           (asString (field_opt "message" error)))])
      else if bool_decide (method = Some "status_update") then
        let spreadParams := entries (coalesce params (Some (JObj []))) in
        let event := JObj (Obj.spread [("type", JStr "status_update")] spreadParams) in
        with_names (handleEvent (Some event) (toolNames st) None)
      else if truthy error then
        (st, [errorLine (default "Unknown error" (asString (field_opt "message" error)))])
      else (st, [])
  end.

(** The [while] loop of [onStdout]: [pending] is the text of the buffer
    before its first line feed still to come. *)
Fixpoint drainLines (pending s : string) (st : WireState)
  : WireState * list effect :=
  match s with
  | "" => ({| buffer := pending; toolNames := toolNames st; child := child st |}, [])
  | String c r =>
      if Ascii.eqb c LF then
        let '(st1, out1) := wireLine (trim pending) st in
        let '(st2, out2) := drainLines "" r st1 in
        (st2, out1 ++ out2)
      else drainLines (pending +:+ String c "") r st
  end.

(** [onStdout] of [runKimiWire] *)
Definition wireOnStdout (plainLogs : bool) (chunk : string) (st : WireState)
  : WireState * list effect :=
  let normalized := normalizeChunk chunk plainLogs in
  drainLines "" (buffer st +:+ normalized) st.

(** What happens during a wire run: the timer set in [onSpawn] fires and
    sends the [run] request, or the child writes to stdout. *)
Inductive wireEvent :=
| RunTimer (prompt workingDir : string)
| Stdout (chunk : string).

Definition runRequest (prompt workingDir : string) : json :=
  JObj [("jsonrpc", JStr "2.0");
        ("id", JStr runRequestId);
        ("method", JStr "run");
        ("params", JObj [("input", JStr prompt); ("work_dir", JStr workingDir)])].

Definition wireStep (plainLogs : bool) (ev : wireEvent) (st : WireState)
  : WireState * list effect :=
  match ev with
  | RunTimer prompt workingDir => (st, sendJsonRpc (runRequest prompt workingDir) (child st))
  | Stdout chunk => wireOnStdout plainLogs chunk st
  end.

Fixpoint wireRun (plainLogs : bool) (evs : list wireEvent) (st : WireState)
  : WireState * list effect :=
  match evs with
  | [] => (st, [])
  | ev :: rest =>
      let '(st1, out1) := wireStep plainLogs ev st in
      let '(st2, out2) := wireRun plainLogs rest st1 in
      (st2, out1 ++ out2)
  end.

(** After the child has closed: what is left in the buffer is processed. *)
Definition wireFlush (st : WireState) : WireState * list effect :=
  if (0 <? String.length (trim (buffer st)))%nat then
    let '(st1, out) := wireLine (trim (buffer st)) st in
    ({| buffer := ""; toolNames := toolNames st1; child := child st1 |}, out)
  else (st, []).

(** [runKimiWire]: the state set up before the spawn, the events of the
    run, then the flush. *)
Definition runKimiWire (plainLogs : bool) (ch : ChildStdin) (evs : list wireEvent)
  : list effect :=
  let st0 := {| buffer := ""; toolNames := ∅; child := Some ch |} in
  let '(st1, out1) := wireRun plainLogs evs st0 in
  out1 ++ snd (wireFlush st1).

End Kimi.

(** *** [emitTelemetrySnapshot] of [kimi/index.ts]: what [runKimi] hands to
    [onTelemetry] for a snapshot of the runner. *)

Record KimiTelemetry := {
  kTokensIn : number;
  kTokensOut : number;
  kCached : option number;
}.

Definition emitTelemetrySnapshot (snapshot : KimiUsageSnapshot) : list KimiTelemetry :=
  match tokensIn snapshot, tokensOut snapshot with
  | None, None => []
  | i, o =>
      [{| kTokensIn := default (int 0) i; kTokensOut := default (int 0) o;
          kCached := cached snapshot |}]
  end.

(** The telemetry of a run: [onUsageSnapshot] is
    [snapshot => emitTelemetrySnapshot(snapshot, onTelemetry, ...)]. *)
Definition telemetryOf (trace : list effect) : list KimiTelemetry :=
  flat_map (fun e => match e with
                     | OnUsageSnapshot s => emitTelemetrySnapshot s
                     | _ => []
                     end) trace.

(** ** Permission requests ([infra/engines/errors.ts]) *)

Abbreviation Env := (gmap string string).

(** The optional fields are typed [string], [string | string[]] and
    [Record<string, unknown>], but are filled from parsed JSON without a
    check, and the policy builder tests their run-time types: they are kept
    as JavaScript values. *)
Record PermissionRequestContext := {
  engine : string;
  id : jsval;
  title : jsval;
  capability : jsval;
  pattern : jsval;
  path : jsval;
  metadata : jsval;
  raw : jsval;
}.

Record PermissionRequiredError := {
  message : string;
  request : PermissionRequestContext;
}.

(** ** The OpenCode policy builder ([runtime/permissions/opencode-policy.ts]) *)

Module Policy.
Import Val.

Record PermissionPolicyUpdate := {
  envDelta : Env;
  summary : string;
}.

Definition parsePolicy (raw : option string) : Obj.t :=
  match raw with
  | None | Some "" => []
  | Some text =>
      match Json.parse text with
      | Some (JObj fields) => fields
      | _ => []
      end
  end.

Definition ensureObject (value : jsval) : Obj.t :=
  match value with
  | Some (JObj fields) => fields
  | _ => []
  end.

Definition normalizeCapability (request : PermissionRequestContext) : option string :=
  match capability request with
  | Some (JStr (String _ _ as c)) => Some c
  | _ =>
      let metadata := coalesce (metadata request) (Some (JObj [])) in
      let metaCapability :=
        if truthy metadata then field_opt "type" metadata else None in
      asString metaCapability
  end.

Definition nonEmptyStrings (items : list json) : list string :=
  omap (fun value =>
          match value with
          | JStr (String _ _ as s) => Some s
          | _ => None
          end) items.

Definition normalizePatterns (pattern metadata : jsval) : list string :=
  match pattern with
  | Some (JArr items) => nonEmptyStrings items
  | Some (JStr (String _ _ as p)) => [p]
  | _ =>
      let metaPattern :=
        if truthy metadata then field_opt "pattern" metadata else None in
      match metaPattern with
      | Some (JArr items) => nonEmptyStrings items
      | Some (JStr (String _ _ as p)) => [p]
      | _ => ["*"]
      end
  end.

(** The loop [for (const entry of patterns) bashPolicy[entry || '*'] = 'allow'] *)
Definition allowPatterns (patterns : list string) (bashPolicy : Obj.t) : Obj.t :=
  fold_left
    (fun acc entry =>
       Obj.assign (if JS.truthy entry then entry else "*") (JStr "allow") acc)
    patterns bashPolicy.

Section WithProcessEnv.
(** [process.env] *)
Variable processEnv : Env.

Definition existingPolicy (currentEnv : option Env) : option string :=
  (currentEnv ≫= (.!! "OPENCODE_PERMISSION")) ?? (processEnv !! "OPENCODE_PERMISSION").

(** The policy object that [buildOpenCodePermissionUpdate] serialises,
    with its summary. *)
Definition updatedPolicy (request : PermissionRequestContext)
    (currentEnv : option Env) : option (Obj.t * string) :=
  match normalizeCapability request with
  | None | Some "" => None
  | Some capability =>
      let policy := parsePolicy (existingPolicy currentEnv) in
      if String.eqb capability "bash" then
        let bashPolicy := ensureObject (Obj.get "bash" policy) in
        let patterns := normalizePatterns (pattern request) (metadata request) in
        let bashPolicy := allowPatterns patterns bashPolicy in
        Some (Obj.set "bash" (JObj bashPolicy) policy,
              "Allowed bash " +:+ JS.join ", " patterns)
      else
        Some (Obj.assign capability (JStr "allow") policy,
              "Allowed capability " +:+ capability)
  end.

Definition buildOpenCodePermissionUpdate (request : PermissionRequestContext)
    (currentEnv : option Env) : option PermissionPolicyUpdate :=
  '(policy, summary) ← updatedPolicy request currentEnv;
  Some {| envDelta := {[ "OPENCODE_PERMISSION" := Json.stringify (JObj policy) ]};
          summary := summary |}.
End WithProcessEnv.

End Policy.

(** ** The permission mediator ([runtime/permissions/mediator.ts]) *)

Inductive PermissionDecisionScope := Once | Always.
Inductive PermissionOutcome := Allow | Reject.

Record PermissionDecision := {
  outcome : PermissionOutcome;
  scope : PermissionDecisionScope;
  decisionEnvDelta : option Env;
  note : option string;
}.

Record PermissionMediatorOptions := {
  optEngine : string;
  optWorkingDir : string;
  currentEnv : option Env;
}.

(** What an operation or the mediator can throw. *)
Inductive exn :=
| PermissionRequired (e : PermissionRequiredError)
| OtherError (msg : string).

(** The two methods of a mediator that the retry loop calls; [M] is the
    state the mediator keeps between calls. *)
Record Mediator (M : Type) := {
  getSessionEnv : string -> M -> option Env;
  handle : PermissionRequiredError -> PermissionMediatorOptions -> M
           -> (PermissionDecision + exn) * M;
}.
Arguments getSessionEnv {M}.
Arguments handle {M}.

Module PermissionMediator.
Import Val.

(** The answers of [selectFromMenu]; [Dismissed] is a falsy result. *)
Inductive choice := ChooseOnce | ChooseAlways | ChooseReject | Dismissed.

Record state := {
  sessionEnv : gmap string Env;
  isTTY : bool;                             (* [process.stdout.isTTY] *)
  menu : list choice;                       (* the answers still to come *)
}.

Definition getSessionEnv (engine : string) (st : state) : option Env :=
  sessionEnv st !! engine.

Definition updateSessionEnv (engine : string) (delta : option Env) (st : state) : state :=
  match delta with
  | None => st
  | Some d =>
      if bool_decide (d = ∅) then st
      else
        let existing := default ∅ (sessionEnv st !! engine) in
        {| sessionEnv := <[engine := d ∪ existing]> (sessionEnv st);
           isTTY := isTTY st; menu := menu st |}
  end.

Definition describeRequest (request : PermissionRequestContext) : string :=
  let scope :=
    match pattern request with
    | Some (JArr items) =>
        Some (JStr (JS.join ", "
                      (List.map (fun x => match x with JNull => "" | _ => toString x end)
                         items)))
    | other => other
    end in
  let path :=
    coalesce (path request)
      (if truthy (metadata request) then
         match field_opt "path" (metadata request) with
         | Some (JStr p) => Some (JStr p)
         | _ => None
         end
       else None) in
  let capability := coalesce (capability request) (Some (JStr "operation")) in
  if truthy path then text capability +:+ " on " +:+ text path
  else if truthy scope then text capability +:+ " (" +:+ text scope +:+ ")"
  else if truthy (title request) then text (title request)
  else text capability.

Section WithAdapters.
Variable processEnv : Env.

(** [policyAdapters]: only [opencode] has a policy builder. *)
Definition buildPolicy (engine : string) (request : PermissionRequestContext)
    (env : option Env) : option Policy.PermissionPolicyUpdate :=
  if String.eqb engine "opencode"
  then Policy.buildOpenCodePermissionUpdate processEnv request env
  else None.

Definition handle (error : PermissionRequiredError)
    (options : PermissionMediatorOptions) (st : state)
  : (PermissionDecision + exn) * state :=
  let engine := optEngine options in
  match buildPolicy engine (request error) (currentEnv options) with
  | None =>
      (inr (OtherError
              ("Permission request for " +:+ engine
                 +:+ " cannot be auto-resolved. Please configure the engine manually or update your policy.")),
       st)
  | Some adapterResult =>
      if negb (isTTY st) then
        (inr (OtherError
                ("Permission required: " +:+ describeRequest (request error)
                   +:+ ". Re-run in an interactive terminal or preconfigure OPENCODE_PERMISSION.")),
         st)
      else
        let answer := match menu st with c :: _ => c | [] => Dismissed end in
        let st := {| sessionEnv := sessionEnv st; isTTY := isTTY st;
                     menu := tail (menu st) |} in
        match answer with
        | Dismissed | ChooseReject =>
            (inl {| outcome := Reject; scope := Once;
                    decisionEnvDelta := None; note := None |}, st)
        | ChooseAlways =>
            (inl {| outcome := Allow; scope := Always;
                    decisionEnvDelta := Some (Policy.envDelta adapterResult);
                    note := Some (Policy.summary adapterResult) |},
             updateSessionEnv engine (Some (Policy.envDelta adapterResult)) st)
        | ChooseOnce =>
            (inl {| outcome := Allow; scope := Once;
                    decisionEnvDelta := Some (Policy.envDelta adapterResult);
                    note := Some (Policy.summary adapterResult) |}, st)
        end
  end.

(** The class [PermissionMediator] as a mediator. *)
Definition instance : Mediator state :=
  Build_Mediator state getSessionEnv handle.
End WithAdapters.

End PermissionMediator.

(** ** The retry loop ([runtime/permissions/retry.ts]) *)

Module Retry.

Definition mergeEnv (base delta : option Env) : option Env :=
  match delta with
  | None => base
  | Some d => if bool_decide (d = ∅) then base else Some (d ∪ default ∅ base)
  end.

Record PermissionRetryContext (M : Type) := {
  ctxEngine : string;
  ctxWorkingDir : string;
  baseEnv : option Env;
  mediator : Mediator M;
  maxRetries : option Z;
}.
Arguments ctxEngine {M}.
Arguments ctxWorkingDir {M}.
Arguments baseEnv {M}.
Arguments mediator {M}.
Arguments maxRetries {M}.

Section Loop.
Context {T M : Type}.

(** [formatStatus] of [shared/formatters/outputMarkers.ts] *)
Variable formatStatus : string -> string.

(** The wrapped operation: what its [n]-th call (from 0) does when it is
    given an environment. *)
Variable runOperation : nat -> option Env -> T + exn.

(** What the loop has done so far. *)
Record world := {
  calls : list (option Env);     (* the environments [runOperation] was called with *)
  mstate : M;                    (* the state of the mediator *)
  stdout : list string;          (* [process.stdout.write] *)
}.

Inductive result :=
| Returned (value : T)
| Thrown (error : exn).

Variable context : PermissionRetryContext M.

Definition maxAttempts : Z := default 3%Z (maxRetries context).

(** One pass through the body of [while (true)]; [None] when the loop
    goes round again, with the variables for the next pass. *)
Definition pass (attempts : Z) (baseEnv attemptEnv : option Env) (w : world)
  : (result + (Z * option Env * option Env)) * world :=
  let w1 := {| calls := calls w ++ [attemptEnv]; mstate := mstate w;
               stdout := stdout w |} in
  match runOperation (length (calls w)) attemptEnv with
  | inl value => (inl (Returned value), w1)
  | inr (OtherError msg) => (inl (Thrown (OtherError msg)), w1)
  | inr (PermissionRequired error) =>
      if (maxAttempts <=? attempts)%Z then
        (inl (Thrown (PermissionRequired error)), w1)
      else
        let attempts := (attempts + 1)%Z in
        let mediatorOptions :=
          {| optEngine := ctxEngine context;
             optWorkingDir := ctxWorkingDir context;
             currentEnv := attemptEnv |} in
        match handle (mediator context) error mediatorOptions (mstate w1) with
        | (inr thrown, m) =>
            (inl (Thrown thrown),
             {| calls := calls w1; mstate := m; stdout := stdout w1 |})
        | (inl decision, m) =>
            let w2 := {| calls := calls w1; mstate := m; stdout := stdout w1 |} in
            match outcome decision with
            | Reject =>
                (inl (Thrown (OtherError
                                ("Permission request rejected: " +:+ message error))),
                 w2)
            | Allow =>
                let '(baseEnv, attemptEnv) :=
                  match scope decision with
                  | Always =>
                      let b := mergeEnv baseEnv (decisionEnvDelta decision) in (b, b)
                  | Once => (baseEnv, mergeEnv baseEnv (decisionEnvDelta decision))
                  end in
                let w3 :=
                  match note decision with
                  | Some (String _ _ as n) =>
                      {| calls := calls w2; mstate := mstate w2;
                         stdout := stdout w2
                                     ++ [formatStatus (n +:+ " â€“ retrying run")
                                           +:+ JS.nl] |}
                  | _ => w2
                  end in
                (inr (attempts, baseEnv, attemptEnv), w3)
            end
        end
  end.

(** The loop, run for at most [fuel] passes. *)
Fixpoint loop (fuel : nat) (attempts : Z) (baseEnv attemptEnv : option Env)
    (w : world) : option result * world :=
  match fuel with
  | O => (None, w)
  | S fuel' =>
      match pass attempts baseEnv attemptEnv w with
      | (inl r, w') => (Some r, w')
      | (inr (attempts', baseEnv', attemptEnv'), w') =>
          loop fuel' attempts' baseEnv' attemptEnv' w'
      end
  end.

(** [runWithPermissionMediator]: a pass either ends the loop or raises
    [attempts], which ends it once it reaches [maxAttempts], so
    [maxAttempts + 1] passes are all there can be. *)
Definition runWithPermissionMediator (m0 : M) : option result * world :=
  let sessionEnv := getSessionEnv (mediator context) (ctxEngine context) m0 in
  let baseEnv := mergeEnv (baseEnv context) sessionEnv in
  let attemptEnv := baseEnv in
  loop (S (Z.to_nat maxAttempts)) 0 baseEnv attemptEnv
    {| calls := []; mstate := m0; stdout := [] |}.
End Loop.

End Retry.

(** ** The process runner ([infra/process/spawn.ts])

    [spawnProcess] registers callbacks and returns a promise; everything
    else happens when the runtime calls one of the callbacks.  The model is
    the state those callbacks share and one transition per callback. *)

Module Spawn.

Inductive signal := SIGTERM | SIGKILL.

Record Error := {
  name : string;
  errMessage : string;
  code : option string;
}.

Record SpawnResult := {
  exitCode : Z;
  stdout : string;
  stderr : string;
}.

Inductive settlement :=
| Resolve (value : SpawnResult)
| Reject (error : Error).

Definition isReject (s : settlement) : bool :=
  match s with Reject _ => true | Resolve _ => false end.

Inductive stdio := Pipe | Inherit.

(** The options that the callbacks depend on. *)
Record SpawnOptions := {
  hasSignal : bool;             (* [signal] is given *)
  stdioMode : stdio;
  timeout : option Z;           (* milliseconds *)
  stdinInput : option string;
  keepStdinOpen : bool;
}.

Record Stdin := {
  destroyed : bool;             (* [child.stdin.destroyed] *)
  ended : bool;                 (* [end] was called *)
  written : list string;        (* the data written *)
}.

(** The [ChildProcess]: [kill] delivers a signal, and sets [killed], only
    while the process has not exited. *)
Record Child := {
  alive : bool;
  killed : bool;
  signals : list signal;
  stdin : option Stdin;
}.

Definition kill (sig : signal) (c : Child) : Child :=
  if alive c
  then {| alive := alive c; killed := true; signals := signals c ++ [sig];
          stdin := stdin c |}
  else c.

Definition setStdin (f : Stdin -> Stdin) (c : Child) : Child :=
  {| alive := alive c; killed := killed c; signals := signals c;
     stdin := f <$> stdin c |}.

Definition stdinWrite (data : string) (s : Stdin) : Stdin :=
  {| destroyed := destroyed s; ended := ended s; written := written s ++ [data] |}.

Definition stdinEnd (s : Stdin) : Stdin :=
  {| destroyed := destroyed s; ended := true; written := written s |}.

Definition closeChildStdin (c : Child) : Child :=
  setStdin (fun s => if destroyed s then s else stdinEnd s) c.

(** The variables of the promise executor. *)
Record state := {
  settled : bool;
  promise : list settlement;    (* the calls that reached [resolve] and [reject] *)
  child : Child;
  timerPending : bool;          (* the timeout timer is set and has not fired *)
  timedOut : bool;
  timeoutError : option Error;
  killTimers : nat;             (* one-second escalation timers still to fire *)
  abortListener : bool;
  errorListener : bool;
  closeListener : bool;
  stdoutChunks : list string;
  stderrChunks : list string;
  sinkStdout : list string;     (* the calls of [onStdout] *)
  sinkStderr : list string;     (* the calls of [onStderr] *)
}.

(** A child handle, and the state of the module with one process in view. *)
Abbreviation handle := positive.

Record world := {
  activeProcesses : gset handle;
  proc : state;
}.

Definition update (f : state -> state) (w : world) : world :=
  {| activeProcesses := activeProcesses w; proc := f (proc w) |}.

Definition resolveOnce (value : SpawnResult) (s : state) : state :=
  if settled s then s
  else {| settled := true; promise := promise s ++ [Resolve value];
          child := child s; timerPending := timerPending s; timedOut := timedOut s;
          timeoutError := timeoutError s; killTimers := killTimers s;
          abortListener := abortListener s; errorListener := errorListener s;
          closeListener := closeListener s; stdoutChunks := stdoutChunks s;
          stderrChunks := stderrChunks s; sinkStdout := sinkStdout s;
          sinkStderr := sinkStderr s |}.

Definition rejectOnce (error : Error) (s : state) : state :=
  if settled s then s
  else {| settled := true; promise := promise s ++ [Reject error];
          child := child s; timerPending := timerPending s; timedOut := timedOut s;
          timeoutError := timeoutError s; killTimers := killTimers s;
          abortListener := abortListener s; errorListener := errorListener s;
          closeListener := closeListener s; stdoutChunks := stdoutChunks s;
          stderrChunks := stderrChunks s; sinkStdout := sinkStdout s;
          sinkStderr := sinkStderr s |}.

Definition withChild (f : Child -> Child) (s : state) : state :=
  {| settled := settled s; promise := promise s;
     child := f (child s); timerPending := timerPending s; timedOut := timedOut s;
     timeoutError := timeoutError s; killTimers := killTimers s;
     abortListener := abortListener s; errorListener := errorListener s;
     closeListener := closeListener s; stdoutChunks := stdoutChunks s;
     stderrChunks := stderrChunks s; sinkStdout := sinkStdout s;
     sinkStderr := sinkStderr s |}.

Definition clearTimeoutIfNeeded (s : state) : state :=
  {| settled := settled s; promise := promise s;
     child := child s; timerPending := false; timedOut := timedOut s;
     timeoutError := timeoutError s; killTimers := killTimers s;
     abortListener := abortListener s; errorListener := errorListener s;
     closeListener := closeListener s; stdoutChunks := stdoutChunks s;
     stderrChunks := stderrChunks s; sinkStdout := sinkStdout s;
     sinkStderr := sinkStderr s |}.

(** [child.kill('SIGTERM')] followed by setting the escalation timer. *)
Definition terminate (s : state) : state :=
  {| settled := settled s; promise := promise s;
     child := kill SIGTERM (child s); timerPending := timerPending s;
     timedOut := timedOut s; timeoutError := timeoutError s;
     killTimers := S (killTimers s);
     abortListener := abortListener s; errorListener := errorListener s;
     closeListener := closeListener s; stdoutChunks := stdoutChunks s;
     stderrChunks := stderrChunks s; sinkStdout := sinkStdout s;
     sinkStderr := sinkStderr s |}.

Definition makeTimeoutError (ms : Z) : Error :=
  {| name := "TimeoutError";
     errMessage := "Process timed out after " +:+ Json.number_to_string (int ms) +:+ "ms";
     code := None |}.

(** The callback of the timeout timer. *)
Definition onTimeout (ms : Z) (s : state) : state :=
  let s := {| settled := settled s; promise := promise s;
              child := child s; timerPending := false; timedOut := timedOut s;
              timeoutError := timeoutError s; killTimers := killTimers s;
              abortListener := abortListener s; errorListener := errorListener s;
              closeListener := closeListener s; stdoutChunks := stdoutChunks s;
              stderrChunks := stderrChunks s; sinkStdout := sinkStdout s;
              sinkStderr := sinkStderr s |} in
  if killed (child s) then s
  else
    terminate
      {| settled := settled s; promise := promise s;
         child := child s; timerPending := timerPending s; timedOut := true;
         timeoutError := Some (makeTimeoutError ms); killTimers := killTimers s;
         abortListener := abortListener s; errorListener := errorListener s;
         closeListener := closeListener s; stdoutChunks := stdoutChunks s;
         stderrChunks := stderrChunks s; sinkStdout := sinkStdout s;
         sinkStderr := sinkStderr s |}.

(** The callback of an escalation timer. *)
Definition onKillTimer (s : state) : state :=
  match killTimers s with
  | O => s
  | S n =>
      let s := {| settled := settled s; promise := promise s;
                  child := child s; timerPending := timerPending s;
                  timedOut := timedOut s; timeoutError := timeoutError s;
                  killTimers := n;
                  abortListener := abortListener s; errorListener := errorListener s;
                  closeListener := closeListener s; stdoutChunks := stdoutChunks s;
                  stderrChunks := stderrChunks s; sinkStdout := sinkStdout s;
                  sinkStderr := sinkStderr s |} in
      if killed (child s) then s else withChild (kill SIGKILL) s
  end.

(** [abortHandler], registered with [{ once: true }]. *)
Definition abortHandler (s : state) : state :=
  let s := {| settled := settled s; promise := promise s;
              child := child s; timerPending := timerPending s;
              timedOut := timedOut s; timeoutError := timeoutError s;
              killTimers := killTimers s;
              abortListener := false; errorListener := errorListener s;
              closeListener := closeListener s; stdoutChunks := stdoutChunks s;
              stderrChunks := stderrChunks s; sinkStdout := sinkStdout s;
              sinkStderr := sinkStderr s |} in
  let s := if killed (child s) then s else terminate s in
  withChild closeChildStdin s.

Definition onData (toStdout : bool) (text : string) (s : state) : state :=
  {| settled := settled s; promise := promise s;
     child := child s; timerPending := timerPending s; timedOut := timedOut s;
     timeoutError := timeoutError s; killTimers := killTimers s;
     abortListener := abortListener s; errorListener := errorListener s;
     closeListener := closeListener s;
     stdoutChunks := if toStdout then stdoutChunks s ++ [text] else stdoutChunks s;
     stderrChunks := if toStdout then stderrChunks s else stderrChunks s ++ [text];
     sinkStdout := if toStdout then sinkStdout s ++ [text] else sinkStdout s;
     sinkStderr := if toStdout then sinkStderr s else sinkStderr s ++ [text] |}.

Definition dropListener (error : bool) (s : state) : state :=
  {| settled := settled s; promise := promise s;
     child := child s; timerPending := timerPending s; timedOut := timedOut s;
     timeoutError := timeoutError s; killTimers := killTimers s;
     abortListener := abortListener s;
     errorListener := if error then false else errorListener s;
     closeListener := if error then closeListener s else false;
     stdoutChunks := stdoutChunks s; stderrChunks := stderrChunks s;
     sinkStdout := sinkStdout s; sinkStderr := sinkStderr s |}.

(** What the three cleanup calls at the head of the [error] and [close]
    handlers do to the executor's variables. *)
Definition cleanup (s : state) : state :=
  clearTimeoutIfNeeded (withChild closeChildStdin s).

(** The [error] handler, after [removeFromTracking]. *)
Definition onError (error : Error) (s : state) : state :=
  rejectOnce error (cleanup (dropListener true s)).

(** The [close] handler, after [removeFromTracking]. *)
Definition onClose (code : option Z) (s : state) : state :=
  let s := cleanup (dropListener false s) in
  match timedOut s, timeoutError s with
  | true, Some err => rejectOnce err s
  | _, _ =>
      let exitCode := default 0%Z code in
      resolveOnce {| exitCode := exitCode;
                     stdout := JS.join "" (stdoutChunks s);
                     stderr := JS.join "" (stderrChunks s) |} s
  end.

(** What the runtime can deliver. *)
Inductive event :=
| TimeoutFires                      (* the timeout timer *)
| KillTimerFires                    (* an escalation timer *)
| Abort                             (* the [abort] event of the signal *)
| StdoutData (text : string)
| StderrData (text : string)
| ChildError (error : Error)        (* the [error] event of the child *)
| ChildClose (code : option Z)      (* the [close] event of the child *)
| ChildExited                       (* the process is gone; [close] is still to come *)
| StdinDestroyed                    (* the stdin stream of the child is destroyed *)
| KillAllActive.                    (* [killAllActiveProcesses] is called *)

Section Invocation.
Variable options : SpawnOptions.
Variable h : handle.

Definition piped : bool :=
  match stdioMode options with Pipe => true | Inherit => false end.

(** The stdin of the child after the block "write to stdin if data is
    provided". *)
Definition initialStdin : option Stdin :=
  if piped then
    let s := {| destroyed := false; ended := false; written := [] |} in
    Some match stdinInput options with
         | Some input =>
             if keepStdinOpen options then stdinWrite input s
             else stdinEnd (stdinWrite input s)
         | None => if keepStdinOpen options then s else stdinEnd s
         end
  else None.

Definition timeoutSet : bool :=
  match timeout options with
  | Some ms => (0 <? ms)%Z
  | None => false
  end.

(** The state when [spawnProcess] returns its promise. *)
Definition spawned (registry : gset handle) : world :=
  {| activeProcesses := {[h]} ∪ registry;
     proc := {| settled := false; promise := [];
                child := {| alive := true; killed := false; signals := [];
                            stdin := initialStdin |};
                timerPending := timeoutSet; timedOut := false; timeoutError := None;
                killTimers := 0;
                abortListener := hasSignal options;
                errorListener := true; closeListener := true;
                stdoutChunks := []; stderrChunks := [];
                sinkStdout := []; sinkStderr := [] |} |}.

Definition removeFromTracking (w : world) : world :=
  {| activeProcesses := activeProcesses w ∖ {[h]}; proc := proc w |}.

(** [killAllActiveProcesses], as far as this child is concerned. *)
Definition killAllActiveProcesses (w : world) : world :=
  let s := proc w in
  {| activeProcesses := ∅;
     proc := if bool_decide (h ∈ activeProcesses w) && negb (killed (child s))
             then terminate s else s |}.

Definition step (w : world) (ev : event) : world :=
  let s := proc w in
  match ev with
  | TimeoutFires =>
      match timeout options with
      | Some ms => if timerPending s then update (onTimeout ms) w else w
      | None => w
      end
  | KillTimerFires => update onKillTimer w
  | Abort => if abortListener s then update abortHandler w else w
  | StdoutData text => if piped then update (onData true text) w else w
  | StderrData text => if piped then update (onData false text) w else w
  | ChildError error =>
      if errorListener s then update (onError error) (removeFromTracking w) else w
  | ChildClose code =>
      if closeListener s then update (onClose code) (removeFromTracking w) else w
  | ChildExited =>
      update (withChild (fun c => {| alive := false; killed := killed c;
                                     signals := signals c; stdin := stdin c |})) w
  | StdinDestroyed =>
      update (withChild (setStdin (fun i => {| destroyed := true; ended := ended i;
                                               written := written i |}))) w
  | KillAllActive => killAllActiveProcesses w
  end.

Definition run (w : world) (evs : list event) : world := fold_left step evs w.

(** The state of the promise of [spawnProcess] after [evs]. *)
Definition spawnProcess (registry : gset handle) (evs : list event) : world :=
  run (spawned registry) evs.

Definition outcome (w : world) : option settlement := head (promise (proc w)).
End Invocation.

End Spawn.

(** ** The OpenCode runner ([opencode/execution/runner.ts]) *)

Record ParsedTelemetry := {
  teleTokensIn : number;
  teleTokensOut : number;
  teleCached : option number;
  teleCost : option number;
  teleDuration : option number;
}.

(** Sum of two decimals. *)
Definition addNumber (a b : number) : number :=
  let e := Z.min (expo a) (expo b) in
  Json.normalise (mant a * 10 ^ (expo a - e) + mant b * 10 ^ (expo b - e))%Z e.

Module OpenCode.
Import JS Val.

Definition computeTextDelta (previous nextValue : string) : string * string :=
  if negb (JS.truthy previous) then (nextValue, nextValue)
  else if String.eqb nextValue previous then ("", previous)
  else if startsWith nextValue previous
  then (sliceFrom (String.length previous) nextValue, nextValue)
  else (nextValue, nextValue).

(** The [for] loop of [removeDuplicateParagraphs] over the segments from
    index [i] on; [odd] tells whether [i] is odd.  It returns [output]
    and [lastParagraph.value]. *)
Fixpoint dedupSegments (segments : list string) (odd : bool)
    (lastParagraph output : string) : string * string :=
  match segments with
  | [] => (output, lastParagraph)
  | segment :: rest =>
      if odd then dedupSegments rest false lastParagraph (output +:+ segment)
      else
        let normalized := trim segment in
        if negb (JS.truthy normalized)
        then dedupSegments rest true lastParagraph (output +:+ segment)
        else if String.eqb normalized lastParagraph then
          match rest with
          | next :: rest' =>
              if Text.hasParagraphSeparator next
              then dedupSegments rest' false lastParagraph output
              else dedupSegments rest true lastParagraph output
          | [] => (output, lastParagraph)
          end
        else dedupSegments rest true normalized (output +:+ segment)
  end.

(** [removeDuplicateParagraphs(text, lastParagraph)]: the text returned
    and the new [lastParagraph.value]. *)
Definition removeDuplicateParagraphs (text lastParagraph : string) : string * string :=
  if negb (JS.truthy text) then (text, lastParagraph) else
  match Text.splitParagraphs text with
  | [segment] =>
      let normalized := trim segment in
      if JS.truthy normalized && String.eqb normalized lastParagraph
      then ("", lastParagraph)
      else (text, if JS.truthy normalized then normalized else lastParagraph)
  | segments => dedupSegments segments false lastParagraph ""
  end.

Definition truncate (value : string) : string :=
  if (100 <? String.length value)%nat then sliceTo 100 value +:+ "..." else value.

Definition cleanAnsi (text : string) (plainLogs : bool) : string :=
  if plainLogs then Text.stripAnsi text else text.

(** [asRecord]: objects that are not arrays. *)
Definition asRecord (v : jsval) : jsval :=
  match v with
  | Some (JObj _) => v
  | _ => None
  end.

Definition toStringArray (v : jsval) : option (list string) :=
  match v with
  | Some (JStr s) => Some [s]
  | Some (JArr items) =>
      Some (omap (fun x => match x with JStr s => Some s | _ => None end) items)
  | _ => None
  end.

Record PermissionPayload := {
  payloadId : jsval;
  payloadType : jsval;
  payloadPattern : jsval;
  payloadTitle : jsval;
  payloadMetadata : jsval;
}.

Definition toLower (c : ascii) : ascii :=
  if Text.in_range 65 90 c then ascii_of_N (N_of_ascii c + 32) else c.

Fixpoint toLowerCase (s : string) : string :=
  match s with
  | "" => ""
  | String c r => String (toLower c) (toLowerCase r)
  end.

Definition resolvedStatuses : list string :=
  ["approved"; "allow"; "allowed"; "granted"; "denied"; "rejected"; "resolved";
   "dismissed"].

Definition isPermissionPending (payload : option PermissionPayload) : bool :=
  match payload with
  | None => false
  | Some p =>
      let m := payloadMetadata p in
      let statusSource :=
        default ""
          (asString (field_opt "status" m) ?? asString (field_opt "state" m)
             ?? asString (field_opt "resolution" m)) in
      if negb (JS.truthy statusSource) then true
      else negb (existsb (String.eqb (toLowerCase statusSource)) resolvedStatuses)
  end.

Definition extractPermission (event : json) : option PermissionPayload :=
  match field "permission" event with
  | Some (JObj _ as permission) | Some (JArr _ as permission) =>
      Some {| payloadId := field "id" permission;
              payloadType := field "type" permission;
              payloadPattern := field "pattern" permission;
              payloadTitle := field "title" permission;
              payloadMetadata := asRecord (field "metadata" permission) |}
  | _ =>
      let fromProps := asRecord (field "properties" event) in
      if truthy fromProps
         && (truthy (field_opt "title" fromProps) || truthy (field_opt "id" fromProps)
             || truthy (field_opt "type" fromProps)) then
        Some {| payloadId := JStr <$> asString (field_opt "id" fromProps);
                payloadType := JStr <$> asString (field_opt "type" fromProps);
                payloadPattern := field_opt "pattern" fromProps;
                payloadTitle := JStr <$> asString (field_opt "title" fromProps);
                payloadMetadata :=
                  asRecord (coalesce (field_opt "metadata" fromProps) fromProps) |}
      else None
  end.

Inductive effect :=
| OnData (chunk : string)
| OnErrorData (chunk : string)
| OnTelemetry (telemetry : ParsedTelemetry)
| KillChild.                      (* [capturedChild.kill('SIGTERM')], then the 500 ms timer *)

Record CapturedTokens := {
  capInput : option number;
  capOutput : option number;
  capCached : option number;
}.

Record Captured := {
  tokens : option CapturedTokens;
  cost : option number;
  duration : option number;
}.

Section Runner.
(** The formatters of [shared/formatters/outputMarkers.ts]. *)
Variable formatCommand : string -> commandStatus -> string.
Variable formatResult : string -> bool -> string.
Variable formatStatus : string -> string.

(** [formatStepEvent(type, part)] is left as it is named: its text comes
    from JavaScript arithmetic on unchecked values of the event. *)
Variable formatStepEvent : string -> jsval -> string.

(** The telemetry capture of [shared/telemetry]. *)
Variable Capture : Type.
Variable captureFromStreamJson : string -> Capture -> Capture.
Variable getCaptured : Capture -> option Captured.

Variable plainLogs : bool.
Variable hasOnTelemetry : bool.         (* [onTelemetry] is given *)
Variable childKillable : bool.          (* [capturedChild && !capturedChild.killed] *)

Definition formatToolUse (part : jsval) : string :=
  let tool := coalesce (field_opt "tool" part) (Some (JStr "tool")) in
  let base := formatCommand (text tool) Success in
  let state := coalesce (field_opt "state" part) (Some (JObj [])) in
  let output := field_opt "output" state in
  if match tool with Some (JStr t) => String.eqb t "bash" | _ => false end then
    let outputRaw :=
      match output with
      | Some (JStr o) => o
      | Some x => if truthy output then Json.stringify x else ""
      | None => ""
      end in
    let shown := cleanAnsi (trim outputRaw) plainLogs in
    if JS.truthy shown then base +:+ nl +:+ formatResult shown false else base
  else
    let fromTitle :=
      match field_opt "title" state with
      | Some (JStr t) => trim t
      | _ => ""
      end in
    let fromOutput :=
      match output with
      | Some (JStr o) => trim o
      | _ => ""
      end in
    let input := field_opt "input" state in
    let fromInput :=
      match input with
      | Some (JObj (_ :: _) as x) | Some (JArr (_ :: _) as x)
      | Some (JStr (String _ _) as x) => Json.stringify x
      | _ => ""
      end in
    let previewSource :=
      if JS.truthy fromTitle then fromTitle
      else if JS.truthy fromOutput then fromOutput
      else fromInput in
    if JS.truthy previewSource then
      let preview := cleanAnsi (trim previewSource) plainLogs in
      base +:+ nl +:+ formatResult (truncate preview) false
    else base.

Definition formatErrorEvent (error : jsval) : string :=
  let dataMessage :=
    default "OpenCode reported an unknown error"
      (asString (field_opt "message" (field_opt "data" error))
         ?? asString (field_opt "message" error)
         ?? asString (field_opt "name" error)) in
  formatCommand "OpenCode Error" Error +:+ nl
    +:+ formatResult (cleanAnsi dataMessage plainLogs) true.

Record state := {
  jsonBuffer : string;
  lastTextSnapshot : string;
  lastParagraph : string;
  pendingPermissionError : option PermissionRequiredError;
  capture : Capture;
  crashed : bool;               (* an exception has escaped [onStdout] *)
  emitted : list effect;
}.

Definition emit (es : list effect) (st : state) : state :=
  {| jsonBuffer := jsonBuffer st; lastTextSnapshot := lastTextSnapshot st;
     lastParagraph := lastParagraph st;
     pendingPermissionError := pendingPermissionError st;
     capture := capture st; crashed := crashed st;
     emitted := emitted st ++ es |}.

Definition emitFormatted (formatted : string) (st : state) : state :=
  if JS.truthy formatted then emit [OnData (ensureNewline formatted)] st else st.

(** [case 'text'] of [processLine], up to the emission of [formatted]. *)
Definition textEvent (part : jsval) (st : state) : state :=
  let textValue :=
    match field_opt "text" part with
    | Some (JStr t) => cleanAnsi t plainLogs
    | _ => ""
    end in
  if JS.truthy textValue then
    let '(delta, snapshot) := computeTextDelta (lastTextSnapshot st) textValue in
    let '(deduped, last) := removeDuplicateParagraphs delta (lastParagraph st) in
    emitFormatted deduped
      {| jsonBuffer := jsonBuffer st; lastTextSnapshot := snapshot;
         lastParagraph := last;
         pendingPermissionError := pendingPermissionError st;
         capture := capture st; crashed := crashed st; emitted := emitted st |}
  else st.

(** The four [permission] cases of [processLine]. *)
Definition permissionEvent (parsed : json) (st : state) : state :=
  match pendingPermissionError st with
  | Some _ => st
  | None =>
      let payload := extractPermission parsed in
      match payload with
      | Some p =>
          if isPermissionPending payload then
            let metadata := coalesce (payloadMetadata p) (Some (JObj [])) in
            let path :=
              JStr <$> asString (coalesce (field_opt "path" metadata)
                                          (field_opt "target" metadata)) in
            let message :=
              text (coalesce (coalesce (coalesce (payloadTitle p) (payloadType p))
                                       (payloadId p))
                             (Some (JStr "OpenCode permission required"))) in
            let error :=
              {| message := message;
                 request := {| engine := "opencode"; id := payloadId p;
                               title := payloadTitle p; capability := payloadType p;
                               pattern := payloadPattern p; path := path;
                               metadata := metadata; raw := Some parsed |} |} in
            emit ([OnData (formatStatus ("OpenCode requested approval: " +:+ message)
                             +:+ nl)]
                    ++ (if childKillable then [KillChild] else []))
              {| jsonBuffer := jsonBuffer st; lastTextSnapshot := lastTextSnapshot st;
                 lastParagraph := lastParagraph st;
                 pendingPermissionError := Some error;
                 capture := capture st; crashed := crashed st;
                 emitted := emitted st |}
          else st
      | None => st
      end
  end.

Definition telemetry (st : state) : list effect :=
  if hasOnTelemetry then
    match getCaptured (capture st) with
    | Some captured =>
        match tokens captured with
        | Some t =>
            [OnTelemetry
               {| teleTokensIn := addNumber (default (int 0) (capInput t))
                                            (default (int 0) (capCached t));
                  teleTokensOut := default (int 0) (capOutput t);
                  teleCached := capCached t;
                  teleCost := cost captured;
                  teleDuration := duration captured |}]
        | None => []
        end
    | None => []
    end
  else [].

(** [processLine]; reading [parsed.type] of a line that is the JSON text
    [null] throws outside any [try]. *)
Definition processLine (line : string) (st : state) : state :=
  if crashed st then st else
  if negb (JS.truthy (trim line)) then st else
  match Json.parse line with
  | None =>
      let fallback := cleanAnsi line plainLogs in
      if JS.truthy fallback then emit [OnData (ensureNewline fallback)] st else st
  | Some parsed =>
      let st :=
        {| jsonBuffer := jsonBuffer st; lastTextSnapshot := lastTextSnapshot st;
           lastParagraph := lastParagraph st;
           pendingPermissionError := pendingPermissionError st;
           capture := captureFromStreamJson line (capture st);
           crashed := crashed st; emitted := emitted st |} in
      let st := emit (telemetry st) st in
      match parsed with
      | JNull =>
          {| jsonBuffer := jsonBuffer st; lastTextSnapshot := lastTextSnapshot st;
             lastParagraph := lastParagraph st;
             pendingPermissionError := pendingPermissionError st;
             capture := capture st; crashed := true; emitted := emitted st |}
      | _ =>
          match asString (field "type" parsed) with
          | Some type =>
              if String.eqb type "tool_use"
              then emitFormatted (formatToolUse (field "part" parsed)) st
              else if String.eqb type "step_start" || String.eqb type "step_finish"
              then emitFormatted (formatStepEvent type (field "part" parsed)) st
              else if String.eqb type "text"
              then textEvent (field "part" parsed) st
              else if String.eqb type "error"
              then emitFormatted
                     (formatErrorEvent (coalesce (field "error" parsed)
                                                 (field "part" parsed))) st
              else if existsb (String.eqb type)
                        ["permission"; "permission.updated"; "permission.requested";
                         "permission_required"]
              then permissionEvent parsed st
              else st
          | None => st
          end
      end
  end.

Definition normalizeChunk (chunk : string) : string :=
  let result := Text.crToLf (Text.crlfToLf chunk) in
  let result := Text.overwriteCarriageReturns result in
  let result := if plainLogs then Text.stripAnsi result else result in
  Text.collapseNewlines result.

(** The buffering of [onStdout], for a line processor [process]. *)
Section Buffering.
Context {S : Type}.
Variable buffer : S -> string.
Variable setBuffer : string -> S -> S.
Variable process : string -> S -> S.

(** [jsonBuffer += normalized], the split, the [pop] and the loop. *)
Definition feed (normalized : string) (st : S) : S :=
  let '(lines, last) := pop (split LF (buffer st +:+ normalized)) in
  fold_left (fun acc line => process line acc) lines (setBuffer last st).
End Buffering.

Definition setJsonBuffer (b : string) (st : state) : state :=
  {| jsonBuffer := b; lastTextSnapshot := lastTextSnapshot st;
     lastParagraph := lastParagraph st;
     pendingPermissionError := pendingPermissionError st;
     capture := capture st; crashed := crashed st; emitted := emitted st |}.

(** [onStdout] of [runOpenCode] *)
Definition onStdout (chunk : string) (st : state) : state :=
  if crashed st then st
  else feed jsonBuffer setJsonBuffer processLine (normalizeChunk chunk) st.

(** After [spawnProcess] has resolved: the rest of the buffer. *)
Definition flush (st : state) : state :=
  if JS.truthy (trim (jsonBuffer st))
  then setJsonBuffer "" (processLine (jsonBuffer st) st)
  else st.

Definition initial (c : Capture) : state :=
  {| jsonBuffer := ""; lastTextSnapshot := ""; lastParagraph := "";
     pendingPermissionError := None; capture := c; crashed := false;
     emitted := [] |}.

(** The state of [runOpenCode] after the child has written [chunks]. *)
Definition runOpenCode (c : Capture) (chunks : list string) : state :=
  fold_left (fun st chunk => onStdout chunk st) chunks (initial c).

End Runner.

End OpenCode.

(** ** Formatters for running examples

    [shared/formatters/outputMarkers.ts] is not part of this development;
    the properties below hold for any formatters.  Where an example has to
    be run, these stand-ins are used. *)

Module Plain.
Definition formatCommand (command : string) (status : commandStatus) : string :=
  "Command: " +:+ command.
Definition formatResult (result : string) (isError : bool) : string := "> " +:+ result.
Definition formatStatus (message : string) : string := "[status] " +:+ message.
Definition formatThinking (message : string) : string := "[thinking] " +:+ message.
End Plain.

(** ** The end of [runOpenCode], and the environment it gives the child *)

Module OpenCodeRun.
Import JS Val OpenCode.

(** [DEFAULT_PERMISSION_POLICY] *)
Definition DEFAULT_PERMISSION_POLICY : string :=
  Json.lit "{'*':'allow','bash':{'*':'allow'}}".

Section Env.
(** [process.env], [resolveOpenCodeHome] of [opencode/auth.ts] and
    [path.join] of the runtime. *)
Variable processEnv : Env.
Variable resolveOpenCodeHome : option string -> string.
Variable pathJoin : string -> string -> string.

Definition shouldApplyDefault (key : string) (overrides : option Env) : bool :=
  bool_decide ((overrides ≫= (.!! key)) = None) && bool_decide (processEnv !! key = None).

(** [if (shouldApplyDefault(key, env)) runnerEnv[key] = value] *)
Definition applyDefault (key value : string) (env : option Env) (runnerEnv : Env) : Env :=
  if shouldApplyDefault key env then <[key := value]> runnerEnv else runnerEnv.

Definition resolveRunnerEnv (env : option Env) : Env :=
  let runnerEnv := default ∅ env ∪ processEnv in
  let runnerEnv := applyDefault "OPENCODE_PERMISSION" DEFAULT_PERMISSION_POLICY env runnerEnv in
  let runnerEnv := applyDefault "OPENCODE_DISABLE_LSP_DOWNLOAD" "1" env runnerEnv in
  let runnerEnv := applyDefault "OPENCODE_DISABLE_DEFAULT_PLUGINS" "1" env runnerEnv in
  let opencodeHome := resolveOpenCodeHome (runnerEnv !! "OPENCODE_HOME") in
  let runnerEnv := applyDefault "XDG_CONFIG_HOME" (pathJoin opencodeHome "config") env runnerEnv in
  let runnerEnv := applyDefault "XDG_CACHE_HOME" (pathJoin opencodeHome "cache") env runnerEnv in
  applyDefault "XDG_DATA_HOME" (pathJoin opencodeHome "data") env runnerEnv.
End Env.

(** How [runOpenCode] ends. *)
Inductive thrown :=
| ThrowPermission (error : PermissionRequiredError)  (* [throw pendingPermissionError] *)
| ThrowError (message : string)                      (* [throw new Error(message)] *)
| Rethrow (error : Spawn.Error)                      (* [throw error], the rejection of [spawnProcess] *)
| ThrowTypeError.                                    (* a property of [null] was read *)

Record RunOpenCodeResult := {
  stdout : string;
  stderr : string;
}.

Section Ending.
Variable formatCommand : string -> commandStatus -> string.
Variable formatResult : string -> bool -> string.
Variable formatStatus : string -> string.
Variable formatStepEvent : string -> jsval -> string.
Variable Capture : Type.
Variable captureFromStreamJson : string -> Capture -> Capture.
Variable getCaptured : Capture -> option Captured.
Variable plainLogs hasOnTelemetry : bool.

(** [command] of [buildOpenCodeRunCommand] ([opencode/execution/commands.ts]) *)
Variable command : string.

Definition installMessage : string :=
  join nl
    ["'" +:+ command +:+ "' is not available on this system.";
     "Install OpenCode via:";
     "  npm i -g opencode-ai@latest";
     "  brew install opencode";
     "  scoop bucket add extras && scoop install extras/opencode";
     "  choco install opencode";
     "Docs: https://opencode.ai/docs"].

(** The test of the [catch] block, on the code and the message of the
    error; the two patterns ignore case. *)
Definition notFound (error : Spawn.Error) : bool :=
  match Spawn.code error with Some c => String.eqb c "ENOENT" | None => false end
  || includes (toLowerCase (Spawn.errMessage error))
       "not recognized as an internal or external command"
  || includes (toLowerCase (Spawn.errMessage error)) "command not found".

Record ending := {
  outcome : RunOpenCodeResult + thrown;
  heartbeat : bool;             (* the interval set before the spawn is still set *)
  final : OpenCode.state Capture;
}.

(** [runOpenCode] from the settlement of [spawnProcess] on: [st] is the
    state the stdout handler has left, [childKillable] tells whether the
    child can still be signalled when the rest of the buffer is handled. *)
Definition finish (childKillable : bool) (st : OpenCode.state Capture)
    (settlement : Spawn.settlement) : ending :=
  match settlement with
  | Spawn.Reject error =>
      {| outcome := inr (if notFound error then ThrowError installMessage
                         else Rethrow error);
         heartbeat := true; final := st |}
  | Spawn.Resolve result =>
      let st :=
        flush formatCommand formatResult formatStatus formatStepEvent Capture
          captureFromStreamJson getCaptured plainLogs hasOnTelemetry childKillable st in
      if crashed Capture st then
        {| outcome := inr ThrowTypeError; heartbeat := true; final := st |}
      else
        match pendingPermissionError Capture st with
        | Some error =>
            {| outcome := inr (ThrowPermission error); heartbeat := true; final := st |}
        | None =>
            if negb (Spawn.exitCode result =? 0)%Z then
              {| outcome :=
                   inr (ThrowError ("OpenCode CLI exited with code "
                                      +:+ Json.number_to_string (int (Spawn.exitCode result))));
                 heartbeat := true; final := st |}
            else
              {| outcome := inl {| stdout := Spawn.stdout result;
                                   stderr := Spawn.stderr result |};
                 heartbeat := false; final := st |}
        end
  end.
End Ending.

End OpenCodeRun.

(** ** Kimi: configuration, command lines and the end of a run
    ([kimi/metadata.ts], [kimi/config.ts], [kimi/execution/commands.ts],
    [kimi/execution/index.ts], [kimi/execution/runner.ts]) *)

Module Kimi.
Import JS.

(** [metadata] *)
Definition metadataName : string := "Kimi CLI".
Definition installCommand : string := "uv tool install --python 3.13 kimi-cli".
Definition defaultModel : string := "kimi-for-coding".

Record KimiConfig := {
  workingDir : string;
  model : option string;
  mcpConfigFiles : option (list string);
}.

Inductive KimiRunMode := Print | Wire.

Section WithProcessEnv.
(** [process.env] *)
Variable processEnv : Env.

(** [env?.[key] ?? process.env[key]] *)
Definition envOr (env : option Env) (key : string) : option string :=
  (env ≫= (.!! key)) ?? (processEnv !! key).

Definition resolveModel (model : option string) : option string :=
  match model with
  | Some m =>
      if JS.truthy m && (0 <? String.length (trim m))%nat then Some (trim m)
      else
        match trim <$> processEnv !! "KIMI_MODEL_NAME" with
        | Some envModel => if JS.truthy envModel then Some envModel else None
        | None => None
        end
  | None =>
      match trim <$> processEnv !! "KIMI_MODEL_NAME" with
      | Some envModel => if JS.truthy envModel then Some envModel else None
      | None => None
      end
  end.

Definition resolveRunMode (env : option Env) : KimiRunMode :=
  let source := default "" (envOr env "CODEMACHINE_KIMI_MODE") in
  let normalized := OpenCode.toLowerCase (trim source) in
  if String.eqb normalized "wire" then Wire else Print.

Definition resolveMcpConfigFiles (env : option Env) : option (list string) :=
  match envOr env "KIMI_MCP_CONFIG_FILES" with
  | None | Some "" => None
  | Some source =>
      let files := List.filter JS.truthy (List.map trim (split "," source)) in
      match files with
      | [] => None
      | _ => Some files
      end
  end.

(** [kimi/execution/index.ts] *)

Definition flagSet (env : option Env) (key : string) : bool :=
  match envOr env key with
  | Some value => String.eqb value "1" || String.eqb value "true"
  | None => false
  end.

Definition shouldSkipKimi (env : option Env) : bool := flagSet env "CODEMACHINE_SKIP_KIMI".
Definition isPlainLogsEnabled (env : option Env) : bool := flagSet env "CODEMACHINE_PLAIN_LOGS".

End WithProcessEnv.

Definition DEFAULT_BASE_URL : string := "https://api.kimi.com/coding/v1".
Definition DEFAULT_MAX_CONTEXT : string := "262144".

(** [if (!next[key]) next[key] = value]: a variable that is missing or
    empty gets the value. *)
Definition fillIn (key value : string) (next : Env) : Env :=
  match next !! key with
  | Some (String _ _) => next
  | _ => <[key := value]> next
  end.

Definition applyEnvDefaults (env : option Env) : option Env :=
  match env with
  | None => None
  | Some next =>
      let next := fillIn "KIMI_MODEL_NAME" defaultModel next in
      let next := fillIn "KIMI_BASE_URL" DEFAULT_BASE_URL next in
      Some (fillIn "KIMI_MODEL_MAX_CONTEXT_SIZE" DEFAULT_MAX_CONTEXT next)
  end.

(** [kimi/execution/commands.ts] *)

Record KimiCommand := {
  command : string;
  args : list string;
}.

Definition appendModel (args : list string) (model : option string) : list string :=
  match model with
  | Some m =>
      if JS.truthy m && (0 <? String.length (trim m))%nat
      then args ++ ["-m"; trim m] else args
  | None => args
  end.

Definition appendMcpConfigs (args : list string) (mcpConfigFiles : option (list string))
  : list string :=
  match mcpConfigFiles with
  | None | Some [] => args
  | Some files =>
      fold_left
        (fun acc file =>
           if (String.length (trim file) =? 0)%nat then acc
           else acc ++ ["--mcp-config-file"; trim file])
        files args
  end.

Definition buildKimiPrintCommand (prompt workingDir : string) (model : option string)
    (mcpConfigFiles : option (list string)) : KimiCommand :=
  let args := ["--print"; "--output-format"; "stream-json"; "--work-dir"; workingDir;
               "--yolo"] in
  let args := appendModel args model in
  let args := appendMcpConfigs args mcpConfigFiles in
  {| command := "kimi"; args := args ++ ["--command"; prompt] |}.

Definition buildKimiWireCommand (workingDir : string) (model : option string)
    (mcpConfigFiles : option (list string)) : KimiCommand :=
  let args := ["--ui"; "wire"; "--work-dir"; workingDir] in
  let args := appendModel args model in
  {| command := "kimi"; args := appendMcpConfigs args mcpConfigFiles |}.

(** *** How [runKimi] starts *)

Record EngineRunOptions := {
  optPrompt : string;
  optWorkingDir : string;
  optModel : option string;
  optEnv : option Env;
}.

Inductive start :=
| StartError (message : string)     (* [throw new Error(message)] *)
| DryRun (line : string)            (* [onData(line)], then [{ stdout: '', stderr: '' }] *)
| Run (mode : KimiRunMode) (config : KimiConfig) (effectiveEnv : option Env)
      (plainLogs : bool).           (* the runner of the mode is called *)

Section Start.
Variable processEnv : Env.
Variable win32 : bool.              (* [process.platform === 'win32'] *)

(** [runKimi] up to the call of [runKimiWire] or [runKimiPrint]. *)
Definition runKimiStart (options : EngineRunOptions) : start :=
  let prompt := optPrompt options in
  if negb (JS.truthy prompt) then StartError "runKimi requires a prompt."
  else if negb (JS.truthy (optWorkingDir options))
  then StartError "runKimi requires a working directory."
  else if shouldSkipKimi processEnv (optEnv options) then
    let preview :=
      if (160 <? String.length prompt)%nat then sliceTo 160 prompt +:+ "..." else prompt in
    DryRun ("[dry-run] Kimi skipped: " +:+ preview +:+ nl)
  else if win32 then
    StartError (metadataName +:+ " currently supports macOS and Linux. Run inside WSL or use a supported platform to enable this engine.")
  else
    let effectiveEnv := applyEnvDefaults (optEnv options) in
    let config :=
      {| workingDir := optWorkingDir options;
         model := resolveModel processEnv
                    (Some (default defaultModel (optModel options)));
         mcpConfigFiles := resolveMcpConfigFiles processEnv effectiveEnv |} in
    Run (resolveRunMode processEnv effectiveEnv) config effectiveEnv
      (isPlainLogsEnabled processEnv effectiveEnv).
End Start.

(** *** How a run of the CLI ends ([runKimiPrint], [runKimiWire]) *)

Definition newError (message : string) : Spawn.Error :=
  {| Spawn.name := "Error"; Spawn.errMessage := message; Spawn.code := None |}.

(** The message of the error of [maybeThrowAuthError]. *)
Definition authMessage : string :=
  "Kimi CLI could not find KIMI_API_KEY." +:+ nl
  +:+ "Set it in your shell before running CodeMachine, e.g.:" +:+ nl
  +:+ Json.lit "  export KIMI_API_KEY='sk-...'" +:+ nl
  +:+ "Optional overrides:" +:+ nl
  +:+ Json.lit "  export KIMI_BASE_URL='https://api.moonshot.cn/v1'" +:+ nl
  +:+ Json.lit "  export KIMI_MODEL_NAME='moonshot-v1-128k'" +:+ nl
  +:+ "Run `codemachine auth status` to inspect stored keys and file locations.".

(** [maybeThrowAuthError]: the error it throws, if any.  (What it prints
    with [console.error] when debugging is on is left out.) *)
Definition maybeThrowAuthError (stdout stderr : string) : option Spawn.Error :=
  let combined := OpenCode.toLowerCase (stdout +:+ nl +:+ stderr) in
  if includes combined "kimi_api_key" || includes combined "llm not set"
     || includes combined "api key"
  then Some (newError authMessage) else None.

(** The error that [handleNotFoundError] throws for a missing binary. *)
Definition notAvailable (command : string) (args : list string) : Spawn.Error :=
  let full := trim (command +:+ " " +:+ join " " args) in
  newError ("'" +:+ command +:+ "' is not available when executing " +:+ Json.dq
              +:+ full +:+ Json.dq +:+ ". Install " +:+ metadataName +:+ " via:" +:+ nl
              +:+ "  " +:+ installCommand).

(** [handleNotFoundError]: the error it throws. *)
Definition handleNotFoundError (error : Spawn.Error) (command : string) (args : list string)
  : Spawn.Error :=
  let combined := OpenCode.toLowerCase (Spawn.errMessage error) in
  if match Spawn.code error with Some c => String.eqb c "ENOENT" | None => false end
     || includes combined "command not found"
     || includes combined "not recognized as an internal or external command"
  then notAvailable command args
  else error.

(** The first ten lines of the error output of the child. *)
Definition errorSample (result : Spawn.SpawnResult) : string :=
  let errorOutput :=
    if JS.truthy (trim (Spawn.stderr result)) then trim (Spawn.stderr result)
    else if JS.truthy (trim (Spawn.stdout result)) then trim (Spawn.stdout result)
    else "no error output" in
  join nl (firstn 10 (split LF errorOutput)).

(** The [try] block from the settlement of [spawnProcess] on, and the
    [catch]: [label] is "Kimi CLI" in print mode and "Kimi wire mode" in
    wire mode. *)
Definition finish (label binary : string) (args : list string)
    (settlement : Spawn.settlement) : Spawn.SpawnResult + Spawn.Error :=
  match settlement with
  | Spawn.Reject error => inr (handleNotFoundError error binary args)
  | Spawn.Resolve result =>
      if negb (Spawn.exitCode result =? 0)%Z then
        let thrown :=
          match maybeThrowAuthError (Spawn.stdout result) (Spawn.stderr result) with
          | Some error => error
          | None =>
              newError (label +:+ " exited with code "
                          +:+ Json.number_to_string (int (Spawn.exitCode result))
                          +:+ ": " +:+ errorSample result)
          end in
        inr (handleNotFoundError thrown binary args)
      else inl result
  end.

End Kimi.

(** ** The lock file ([shared/fs/fileLock.ts]) and the lock of the registry

    The files are a map from paths to contents, and [Date.now()] is a clock
    in milliseconds that [delay] moves on.  A call runs on its own: no other
    process touches the files while it runs, the processes that are alive
    stay alive, and the file system refuses nothing but what the code asks
    about ([EEXIST] for an exclusive [open], [ENOENT] for a missing file).
    Directories are not in the model. *)

Module FileLock.

Definition DEFAULT_STALE_MS : Z := 30000.
Definition DEFAULT_RETRIES : Z := 8.
Definition DEFAULT_RETRY_DELAY_MS : Z := 120.

(** The options, with whole numbers of milliseconds and of retries. *)
Record AcquireLockOptions := {
  staleMs : option Z;
  retries : option Z;
  retryDelayMs : option Z;
  description : option string;
}.

Record LockMetadata := {
  pid : number;
  createdAt : number;
}.

Record World := {
  files : gmap string string;
  clock : Z;
}.

Inductive LockError :=
| LockBusyError (message : string).

Definition unlink (path : string) (w : World) : World :=
  {| files := delete path (files w); clock := clock w |}.

Definition writeFile (path content : string) (w : World) : World :=
  {| files := <[path := content]> (files w); clock := clock w |}.

(** [setTimeout] waits one millisecond where the delay is below 1 or
    above 2147483647. *)
Definition delay (ms : Z) (w : World) : World :=
  {| files := files w;
     clock := clock w + (if (ms <? 1)%Z || (2147483647 <? ms)%Z then 1 else ms) |}.

(** A text that is no JSON, [null] (reading [parsed.pid] throws), and a
    value without the two numbers all give the metadata of no process. *)
Definition parseMetadata (raw : string) : LockMetadata :=
  let fallback := {| pid := int (-1); createdAt := int 0 |} in
  match Json.parse raw with
  | Some parsed =>
      match Val.asNumber (Val.field "pid" parsed),
            Val.asNumber (Val.field "createdAt" parsed) with
      | Some p, Some c => {| pid := p; createdAt := c |}
      | _, _ => fallback
      end
  | None => fallback
  end.

(** [Date.now() - metadata.createdAt > staleMs], on exact decimals. *)
Definition isStale (now staleMs : Z) (created : number) : bool :=
  (mant created * 10 ^ Z.max 0 (expo created)
   <? (now - staleMs) * 10 ^ Z.max 0 (- expo created))%Z.

Section Process.
(** [process.pid], and whether [process.kill(pid, 0)] returns or fails
    with [EPERM] for the pid of another process. *)
Variable processPid : Z.
Variable signalled : Z -> bool.

(** [process.kill] throws for a pid that is no 32-bit integer. *)
Definition isProcessAlive (p : number) : bool :=
  if (mant p <=? 0)%Z then false
  else if (expo p =? 0)%Z && (mant p <=? 2147483647)%Z then signalled (mant p)
       else false.

Definition tryClearStaleLock (lockPath : string) (staleMs : Z) (w : World)
  : bool * World :=
  match files w !! lockPath with
  | None => (true, w)
  | Some raw =>
      let metadata := parseMetadata raw in
      if isStale (clock w) staleMs (createdAt metadata)
         || negb (isProcessAlive (pid metadata))
      then (true, unlink lockPath w)
      else (false, w)
  end.

Definition cleanupStaleLock (lockPath : string) (staleMs : option Z) (w : World) : World :=
  snd (tryClearStaleLock lockPath (default DEFAULT_STALE_MS staleMs) w).

(** [JSON.stringify(metadata)] *)
Definition metadataText (description : option string) (now : Z) : string :=
  Json.stringify
    (JObj ([("pid", JNum (int processPid)); ("createdAt", JNum (int now))]
             ++ match description with
                | Some (String _ _ as d) => [("description", JStr d)]
                | _ => []
                end)).

(** The function that [acquireFileLock] returns, with its variable
    [released]. *)
Record Release := {
  path : string;
  released : bool;
}.

Definition release (r : Release) (w : World) : Release * World :=
  if released r then (r, w)
  else ({| path := path r; released := true |}, unlink (path r) w).

(** The loop of [acquireFileLock], with the number of rounds that are
    left. *)
Fixpoint attempts (left : nat) (attempt : Z) (lockPath : string)
    (stale retry wait : Z) (description : option string) (w : World)
  : (Release + LockError) * World :=
  match left with
  | O =>
      (inr (LockBusyError
              ("Unable to acquire lock after "
                 +:+ Json.number_to_string (int (retry + 1))
                 +:+ " attempts: " +:+ lockPath)), w)
  | S left' =>
      match files w !! lockPath with
      | None =>
          (inl {| path := lockPath; released := false |},
           writeFile lockPath (metadataText description (clock w)) w)
      | Some _ =>
          let '(cleared, w) := tryClearStaleLock lockPath stale w in
          if cleared then
            attempts left' (attempt + 1) lockPath stale retry wait description w
          else if (attempt =? retry)%Z then
            (inr (LockBusyError ("Lock is currently held: " +:+ lockPath)), w)
          else
            attempts left' (attempt + 1) lockPath stale retry wait description
              (delay wait w)
      end
  end.

Definition acquireFileLock (lockPath : string) (options : AcquireLockOptions)
    (w : World) : (Release + LockError) * World :=
  let stale := default DEFAULT_STALE_MS (staleMs options) in
  let retry := default DEFAULT_RETRIES (retries options) in
  let wait := default DEFAULT_RETRY_DELAY_MS (retryDelayMs options) in
  attempts (Z.to_nat (retry + 1)) 0 lockPath stale retry wait (description options) w.

(** *** [RegistryLockService] *)

(** [JSON.stringify({ lastId: 0, agents: {} }, null, 2)] *)
Definition initialData : string :=
  Json.lit ("{" +:+ JS.nl +:+ "  'lastId': 0," +:+ JS.nl +:+ "  'agents': {}"
              +:+ JS.nl +:+ "}").

Definition registryOptions : AcquireLockOptions :=
  {| staleMs := Some 45000%Z; retries := Some 10%Z; retryDelayMs := Some 150%Z;
     description := Some "registry" |}.

(** What [acquireLock] returns: the release of the lock, or the function
    that does nothing when the lock is busy. *)
Inductive handle :=
| Releases (r : Release)
| Nothing.

Definition acquireLock (registryPath : string) (w : World) : handle * World :=
  let w := match files w !! registryPath with
           | Some _ => w
           | None => writeFile registryPath initialData w
           end in
  match acquireFileLock (registryPath +:+ ".lock") registryOptions w with
  | (inl r, w) => (Releases r, w)
  | (inr (LockBusyError _), w) => (Nothing, w)
  end.

Definition runRelease (r : handle) (w : World) : World :=
  match r with
  | Releases r => snd (release r w)
  | Nothing => w
  end.

(** [withLock(fn)]: [fn] returns or throws ([R] holds both), and the
    release runs in the [finally]. *)
Definition withLock {R : Type} (registryPath : string) (fn : World -> R * World)
    (w : World) : R * World :=
  let '(r, w) := acquireLock registryPath w in
  let '(result, w) := fn w in
  (result, runRelease r w).

End Process.

End FileLock.

(** * Properties *)

(** ** Duplicate paragraphs (OpenCode) *)

Section TextProperties.
Import JS OpenCode.

Variable Capture : Type.
Variable plainLogs : bool.

Definition hello : string := "Hello".
Definition helloTwice : string := "Hello" +:+ nl +:+ nl +:+ "Hello".

(** The [part] of a [text] event. *)
Definition textPart (t : string) : jsval := Some (JObj [("text", JStr t)]).

(** All the text handed to [onData]. *)
Definition rendered (es : list OpenCode.effect) : string :=
  JS.join "" (omap (fun e => match e with OpenCode.OnData c => Some c | _ => None end) es).

(** The paragraphs of a text: its non-blank pieces between blank lines. *)
Definition paragraphs (t : string) : list string :=
  filter (fun p => p ≠ "") (List.map trim (Text.splitParagraphs t)).

Lemma delta_of_first_snapshot (t : string) :
  computeTextDelta "" t = (t, t).
Proof. reflexivity. Qed.

Lemma delta_of_resent_snapshot :
  computeTextDelta hello helloTwice = (nl +:+ nl +:+ "Hello", helloTwice).
Proof. reflexivity. Qed.

Lemma resent_paragraph_removed :
  removeDuplicateParagraphs (nl +:+ nl +:+ "Hello") "Hello" = (nl +:+ nl, "Hello").
Proof. reflexivity. Qed.

(** C9: the snapshots "Hello" and "Hello\n\nHello", fed one after the
    other through the [text] case of [processLine] ([computeTextDelta],
    then [removeDuplicateParagraphs]), put the paragraph "Hello" once into
    the emitted output: the first event emits "Hello\n", the second only
    the blank line that separated the resent paragraph. *)
Theorem duplicate_paragraph_emitted_once (c : Capture) :
  let st1 := textEvent Capture plainLogs (textPart hello) (initial Capture c) in
  let st2 := textEvent Capture plainLogs (textPart helloTwice) st1 in
  emitted Capture st2 = [OpenCode.OnData ("Hello" +:+ nl); OpenCode.OnData (nl +:+ nl)]
  ∧ paragraphs (rendered (emitted Capture st2)) = ["Hello"]
  ∧ occurrences "Hello" (rendered (emitted Capture st2)) = 1
  ∧ lastTextSnapshot Capture st2 = helloTwice
  ∧ lastParagraph Capture st2 = "Hello".
Proof.
  destruct plainLogs; vm_compute; repeat split; reflexivity.
Qed.

End TextProperties.

(** The same through [onStdout] of [runOpenCode], each snapshot on a line
    of its own. *)
Lemma duplicate_paragraph_through_stdout (Capture : Type) (c : Capture)
    (formatStepEvent : string -> jsval -> string)
    (captureFromStreamJson : string -> Capture -> Capture)
    (getCaptured : Capture -> option OpenCode.Captured) (plainLogs childKillable : bool) :
  let st :=
    OpenCode.runOpenCode Plain.formatCommand Plain.formatResult Plain.formatStatus
      formatStepEvent Capture captureFromStreamJson getCaptured plainLogs false
      childKillable c
      [Json.lit "{'type':'text','part':{'text':'Hello'}}" +:+ JS.nl;
       Json.lit "{'type':'text','part':{'text':'Hello\n\nHello'}}" +:+ JS.nl] in
  OpenCode.emitted Capture st
  = [OpenCode.OnData ("Hello" +:+ JS.nl); OpenCode.OnData (JS.nl +:+ JS.nl)].
Proof. destruct plainLogs; reflexivity. Qed.

(** ** Usage snapshots (Kimi) *)

Section UsageProperties.
Import JS Val.

Variable formatCommand : string -> commandStatus -> string.
Variable formatResult : string -> bool -> string.
Variable formatStatus : string -> string.
Variable formatThinking : string -> string.

(** The line of the record
    [{role: "_usage", token_count: {input: 12, output: 5, cached: 2}}]. *)
Definition usageLine : string :=
  Json.lit "{'role':'_usage','token_count':{'input':12,'output':5,'cached':2}}".

Lemma usageLine_parsed :
  Json.parse usageLine
  = Some (JObj [("role", JStr "_usage");
                ("token_count",
                 JObj [("input", JNum (int 12)); ("output", JNum (int 5));
                       ("cached", JNum (int 2))])]).
Proof. reflexivity. Qed.

(** The first of [candidates] that names a number in [tokens]. *)
Fixpoint firstPresent (candidates : list string) (tokens : Obj.t) : option number :=
  match candidates with
  | [] => None
  | c :: rest =>
      match Obj.get c tokens with
      | Some (JNum n) => Some n
      | _ => firstPresent rest tokens
      end
  end.

(** The fields of a record under which [emitUsageSnapshot] looks for the
    token counts. *)
Definition tokenFields : list string :=
  ["token_count"; "usage"; "context_usage"; "tokens"].

Definition hasTokenField (record : Obj.t) : bool :=
  existsb (fun k => match Obj.get k record with Some _ => true | None => false end)
    tokenFields.

Lemma snapshot_of_counts (record tokens : Obj.t) :
  Obj.get "token_count" record = Some (JObj tokens) ->
  emitUsageSnapshot (Some (JObj record))
  = [OnUsageSnapshot
       {| tokensIn := firstPresent ["total"; "input"; "prompt"; "request"] tokens;
          tokensOut := firstPresent ["output"; "completion"; "response"] tokens;
          cached := firstPresent ["cached"; "cache"; "cached_input"] tokens |}].
Proof.
  intros H. unfold emitUsageSnapshot. cbn [truthy negb field_opt field].
  rewrite H. cbn [coalesce nullish asObject truthy negb field_opt field].
  unfold firstPresent, asNumber, orElse.
  do 3 f_equal;
    repeat match goal with
           | |- context [Obj.get ?k tokens] => destruct (Obj.get k tokens) as [[]|]
           end; reflexivity.
Qed.

Lemma no_token_field_no_snapshot (record : Obj.t) :
  hasTokenField record = false ->
  emitUsageSnapshot (Some (JObj record)) = [].
Proof.
  unfold hasTokenField, tokenFields. cbn [existsb]. intros H.
  unfold emitUsageSnapshot. cbn [truthy negb field_opt field].
  destruct (Obj.get "token_count" record); [discriminate|].
  destruct (Obj.get "usage" record); [discriminate|].
  destruct (Obj.get "context_usage" record); [discriminate|].
  destruct (Obj.get "tokens" record); [discriminate|].
  reflexivity.
Qed.

(** At most one snapshot per record. *)
Lemma at_most_one_snapshot (payload : jsval) :
  length (emitUsageSnapshot payload) <= 1.
Proof.
  unfold emitUsageSnapshot.
  destruct (negb (truthy payload)); [simpl; lia|].
  destruct (coalesce _ _) as [[]|]; simpl; try lia;
    match goal with |- context [if ?b then _ else _] => destruct b end; simpl; lia.
Qed.

(** A snapshot without input and output counts is not passed on. *)
Lemma empty_snapshot_no_telemetry (snapshot : KimiUsageSnapshot) :
  tokensIn snapshot = None -> tokensOut snapshot = None ->
  emitTelemetrySnapshot snapshot = [].
Proof. intros Hi Ho. unfold emitTelemetrySnapshot. now rewrite Hi, Ho. Qed.

(** C7: the print-mode record
    [{role: "_usage", token_count: {input: 12, output: 5, cached: 2}}]
    causes exactly one call of [onUsageSnapshot], with
    [{tokensIn: 12, tokensOut: 5, cached: 2}]; [tokensIn] is the first
    number among the fields [total], [input], [prompt], [request] of the
    counts; a record with none of the token fields causes no call at all,
    and what reaches [onTelemetry] is never a snapshot without counts
    filled with zeros. *)
Theorem usage_snapshot_extraction (plainLogs : bool) :
  printOnStdout formatCommand formatResult formatStatus formatThinking plainLogs
    (usageLine +:+ nl)
  = [OnUsageSnapshot {| tokensIn := Some (int 12); tokensOut := Some (int 5);
                        cached := Some (int 2) |}]
  ∧ (∀ record tokens,
       Obj.get "token_count" record = Some (JObj tokens) →
       ∃ snapshot,
         emitUsageSnapshot (Some (JObj record)) = [OnUsageSnapshot snapshot]
         ∧ tokensIn snapshot
           = firstPresent ["total"; "input"; "prompt"; "request"] tokens)
  ∧ (∀ record,
       hasTokenField record = false →
       emitUsageSnapshot (Some (JObj record)) = [])
  ∧ (∀ payload,
       length (emitUsageSnapshot payload) <= 1
       ∧ ∀ t, t ∈ telemetryOf (emitUsageSnapshot payload) →
              ∃ snapshot,
                emitUsageSnapshot payload = [OnUsageSnapshot snapshot]
                ∧ (is_Some (tokensIn snapshot) ∨ is_Some (tokensOut snapshot))).
Proof.
  split; [destruct plainLogs; reflexivity|].
  split; [|split].
  - intros record tokens H. eexists. split; [apply snapshot_of_counts, H|reflexivity].
  - apply no_token_field_no_snapshot.
  - intros payload. split; [apply at_most_one_snapshot|].
    intros t Ht. pose proof (at_most_one_snapshot payload) as Hlen.
    destruct (emitUsageSnapshot payload) as [|e [|e' rest]] eqn:E;
      [inversion Ht| |simpl in Hlen; lia].
    destruct e as [| |snapshot|]; try (inversion Ht; fail).
    exists snapshot. split; [reflexivity|].
    simpl in Ht. rewrite app_nil_r in Ht. unfold emitTelemetrySnapshot in Ht.
    destruct (tokensIn snapshot), (tokensOut snapshot); eauto.
    inversion Ht.
Qed.

End UsageProperties.

(** A record without token field, and one whose counts are not numbers. *)
Lemma usage_snapshot_extraction_witness :
  hasTokenField [("role", JStr "_usage")] = false
  ∧ emitUsageSnapshot (Some (JObj [("role", JStr "_usage")])) = []
  ∧ ∃ snapshot,
      emitUsageSnapshot
        (Some (JObj [("role", JStr "_usage");
                     ("token_count", JObj [("total", JStr "n/a"); ("prompt", JNum (int 7))])]))
      = [OnUsageSnapshot snapshot]
      ∧ tokensIn snapshot = Some (int 7).
Proof.
  split; [reflexivity|]. split.
  - apply (proj1 (proj2 (proj2 (usage_snapshot_extraction Plain.formatCommand Plain.formatResult
                         Plain.formatStatus Plain.formatThinking false)))). reflexivity.
  - destruct (proj1 (proj2 (usage_snapshot_extraction Plain.formatCommand Plain.formatResult
                         Plain.formatStatus Plain.formatThinking false))
                [("role", JStr "_usage");
                 ("token_count", JObj [("total", JStr "n/a"); ("prompt", JNum (int 7))])]
                [("total", JStr "n/a"); ("prompt", JNum (int 7))] eq_refl)
      as [snapshot [H1 H2]].
    exists snapshot. split; [exact H1|exact H2].
Defined.

(** ** Auto-approval (Kimi wire mode) *)

Section WireProperties.
Import JS Val.

Variable formatCommand : string -> commandStatus -> string.
Variable formatResult : string -> bool -> string.
Variable formatStatus : string -> string.
Variable runRequestId : string.

(** The inbound line [{method: "request", id: "r1", params: {title: "X"}}]. *)
Definition requestLine : string :=
  Json.lit "{'method':'request','id':'r1','params':{'title':'X'}}".

(** The outbound line that answers it. *)
Definition responseLine : string :=
  Json.lit "{'jsonrpc':'2.0','id':'r1','result':{'approved':true,'action':'approve'}}".

(** A child whose stdin is there and not destroyed. *)
Definition openChild : ChildStdin := {| hasStdin := true; stdinDestroyed := false |}.

Lemma responseLine_parsed :
  Json.parse responseLine
  = Some (JObj [("jsonrpc", JStr "2.0"); ("id", JStr "r1");
                ("result", JObj [("approved", JBool true); ("action", JStr "approve")])]).
Proof. reflexivity. Qed.

(** A request with a title: one status line, one response. *)
Lemma autoApprove_titled (id title : string) (params : Obj.t) :
  Obj.get "title" params = Some (JStr title) ->
  autoApproveRequest formatStatus id (Some (JObj params)) (Some openChild)
  = [OnData (formatStatus ("Auto-approved: " +:+ title) +:+ nl);
     StdinWrite (Json.stringify (approvalResponse id) +:+ nl)].
Proof.
  intros H. unfold autoApproveRequest.
  cbn [stdinWritable openChild hasStdin stdinDestroyed negb andb truthy field_opt field].
  rewrite H. reflexivity.
Qed.

(** Nothing is written, and no status line is emitted, once stdin is gone. *)
Lemma autoApprove_closed (id : string) (params : jsval) (ch : option ChildStdin) :
  stdinWritable ch = false ->
  autoApproveRequest formatStatus id params ch = [].
Proof. intros H. unfold autoApproveRequest. now rewrite H. Qed.

(** C8: in wire mode, the inbound line
    [{method: "request", id: "r1", params: {title: "X"}}], received while
    the stdin of the child is open, makes [onStdout] write exactly one line
    to that stdin, the JSON-RPC response with id "r1" and result
    [{approved: true, action: "approve"}], and hand exactly one status line
    to [onData], the status "Auto-approved: X"; nothing else happens. *)
Theorem wire_auto_approval (plainLogs : bool) (names : gmap string string) :
  let st := {| buffer := ""; toolNames := names; child := Some openChild |} in
  let result :=
    wireOnStdout formatCommand formatResult formatStatus runRequestId plainLogs
      (requestLine +:+ nl) st in
  fst result = st
  ∧ snd result
    = [OnData (formatStatus "Auto-approved: X" +:+ nl); StdinWrite (responseLine +:+ nl)]
  ∧ length (filter (fun e => isStdinWrite e = true) (snd result)) = 1
  ∧ length (filter (fun e => isData e = true) (snd result)) = 1
  ∧ includes "Auto-approved: X" "X" = true
  ∧ (field "id" <$> Json.parse responseLine) = Some (Some (JStr "r1"))
  ∧ (field "result" <$> Json.parse responseLine)
    = Some (Some (JObj [("approved", JBool true); ("action", JStr "approve")])).
Proof.
  destruct plainLogs; vm_compute; repeat split; reflexivity.
Qed.

End WireProperties.

(** ** Merging an allow grant into a policy *)

Section ObjectProperties.

Lemma get_set_eq (k : string) (v : json) (o : Obj.t) :
  Obj.get k (Obj.set k v o) = Some v.
Proof.
  induction o as [|[k' v'] o IH]; simpl.
  - now rewrite String.eqb_refl.
  - destruct (String.eqb k k') eqn:E; simpl; rewrite ?E, ?String.eqb_refl; auto.
Qed.

Lemma get_set_ne (k k' : string) (v : json) (o : Obj.t) :
  k ≠ k' -> Obj.get k' (Obj.set k v o) = Obj.get k' o.
Proof.
  intros Hne. induction o as [|[k0 v0] o IH]; simpl.
  - destruct (String.eqb k' k) eqn:E; [apply String.eqb_eq in E; congruence|reflexivity].
  - destruct (String.eqb k k0) eqn:E; simpl.
    + apply String.eqb_eq in E. subst k0.
      destruct (String.eqb k' k) eqn:E'; [apply String.eqb_eq in E'; congruence|reflexivity].
    + destruct (String.eqb k' k0); auto.
Qed.

End ObjectProperties.

Section PolicyProperties.
Import Policy.

Variable processEnv : Env.

Lemma nonEmptyStrings_truthy (items : list json) :
  Forall (fun p => JS.truthy p = true) (nonEmptyStrings items).
Proof.
  unfold nonEmptyStrings.
  induction items as [|x items IH]; simpl; [constructor|].
  destruct x as [| | |[|c s]| |]; simpl; auto.
Qed.

Lemma normalizePatterns_truthy (pattern metadata : jsval) :
  Forall (fun p => JS.truthy p = true) (normalizePatterns pattern metadata).
Proof.
  assert (Hmeta : Forall (fun p => JS.truthy p = true)
                    match (if Val.truthy metadata
                           then Val.field_opt "pattern" metadata else None) with
                    | Some (JArr items) => nonEmptyStrings items
                    | Some (JStr (String _ _ as p)) => [p]
                    | _ => ["*"]
                    end).
  { destruct (if Val.truthy metadata then _ else _) as [[| | |[|c s]|items|]|];
      auto using nonEmptyStrings_truthy. }
  unfold normalizePatterns.
  destruct pattern as [[| | |[|c s]|items|]|]; auto using nonEmptyStrings_truthy.
Qed.

Lemma get_assign_ne (k k' : string) (v : json) (o : Obj.t) :
  k ≠ k' -> Obj.get k' (Obj.assign k v o) = Obj.get k' o.
Proof.
  intros Hne. unfold Obj.assign.
  destruct (String.eqb k "__proto__" && negb (Obj.has k o)); [reflexivity|].
  now apply get_set_ne.
Qed.

Lemma get_assign_eq (k : string) (v : json) (o : Obj.t) :
  k ≠ "__proto__" -> Obj.get k (Obj.assign k v o) = Some v.
Proof.
  intros Hne. unfold Obj.assign. apply String.eqb_neq in Hne. rewrite Hne.
  apply get_set_eq.
Qed.

(** After the loop the keys that are no pattern are as they were, and
    the patterns are allowed; the name [__proto__] apart, which is only
    written where the map holds it as an own entry. *)
Lemma allowPatterns_other (patterns : list string) (bashPolicy : Obj.t) (k : string) :
  Forall (fun p => JS.truthy p = true) patterns ->
  k ∉ patterns ->
  Obj.get k (allowPatterns patterns bashPolicy) = Obj.get k bashPolicy.
Proof.
  unfold allowPatterns. revert bashPolicy.
  induction patterns as [|p ps IH]; intros bashPolicy Hall Hk; [reflexivity|].
  inversion Hall as [|? ? Hp Hps]; subst.
  apply not_elem_of_cons in Hk as [Hne Hk].
  cbn [fold_left]. rewrite Hp, IH by assumption.
  apply get_assign_ne. congruence.
Qed.

Lemma allowPatterns_allowed (patterns : list string) (bashPolicy : Obj.t) (p : string) :
  Forall (fun p => JS.truthy p = true) patterns ->
  p ≠ "__proto__" ->
  p ∈ patterns ∨ Obj.get p bashPolicy = Some (JStr "allow") ->
  Obj.get p (allowPatterns patterns bashPolicy) = Some (JStr "allow").
Proof.
  unfold allowPatterns. revert bashPolicy.
  induction patterns as [|q qs IH]; intros bashPolicy Hall Hne Hp.
  - destruct Hp as [Hp|Hp]; [inversion Hp|exact Hp].
  - inversion Hall as [|? ? Hq Hqs]; subst.
    cbn [fold_left]. rewrite Hq. apply IH; [exact Hqs|exact Hne|].
    destruct (decide (p = q)) as [->|Hpq].
    + right. now apply get_assign_eq.
    + destruct Hp as [Hp|Hp].
      * left. apply elem_of_cons in Hp as [Hp|Hp]; [contradiction|exact Hp].
      * right. rewrite get_assign_ne by congruence. exact Hp.
Qed.

(** The request of the example: capability "bash", pattern ["ls -la"]. *)
Definition lsRequest : PermissionRequestContext :=
  {| engine := "opencode"; id := None; title := None;
     capability := Some (JStr "bash"); pattern := Some (JArr [JStr "ls -la"]);
     path := None; metadata := None; raw := None |}.

(** The policy [{"bash": {"*": "deny"}}] and the policy it is merged into. *)
Definition denyAllBash : string := Json.lit "{'bash':{'*':'deny'}}".
Definition mergedPolicy : string := Json.lit "{'bash':{'*':'deny','ls -la':'allow'}}".

Definition bashOf (policy : option json) : jsval := policy ≫= Val.field "bash".

(** C3: for the request [bash] / ["ls -la"] and the current policy
    [{"bash": {"*": "deny"}}], [buildOpenCodePermissionUpdate] returns the
    policy in which [bash["ls -la"]] is "allow" and [bash["*"]] is still
    "deny".  For every request whose capability is [bash], whatever the
    policy in force: the [bash] entry of the new policy is a map of
    patterns; the entries of the map of patterns in force whose keys are
    not patterns of the request keep their verdicts (when the [bash] entry
    in force is no map of patterns, [ensureObject] starts from the empty
    map, and the new map holds the grants alone); the patterns of the
    request are allowed (the name [__proto__] apart); and every other
    capability keeps the entry it had. *)
Theorem bash_grant_keeps_prior_entries :
  (∀ env : Env,
     env !! "OPENCODE_PERMISSION" = Some denyAllBash →
     buildOpenCodePermissionUpdate processEnv lsRequest (Some env)
     = Some {| envDelta := {[ "OPENCODE_PERMISSION" := mergedPolicy ]};
               summary := "Allowed bash ls -la" |})
  ∧ (bashOf (Json.parse mergedPolicy) ≫= Val.field "ls -la") = Some (JStr "allow")
  ∧ (bashOf (Json.parse mergedPolicy) ≫= Val.field "*") = Some (JStr "deny")
  ∧ (∀ request currentEnv,
       normalizeCapability request = Some "bash" →
       let prior := parsePolicy (existingPolicy processEnv currentEnv) in
       let patterns := normalizePatterns (pattern request) (metadata request) in
       ∃ policy bash,
         buildOpenCodePermissionUpdate processEnv request currentEnv
         = Some {| envDelta := {[ "OPENCODE_PERMISSION" := Json.stringify (JObj policy) ]};
                   summary := "Allowed bash " +:+ JS.join ", " patterns |}
         ∧ Obj.get "bash" policy = Some (JObj bash)
         ∧ (∀ k, k ∉ patterns →
                 Obj.get k bash = Obj.get k (ensureObject (Obj.get "bash" prior)))
         ∧ (∀ k priorBash, k ∉ patterns →
                           Obj.get "bash" prior = Some (JObj priorBash) →
                           Obj.get k bash = Obj.get k priorBash)
         ∧ (∀ p, p ∈ patterns → p ≠ "__proto__" → Obj.get p bash = Some (JStr "allow"))
         ∧ (∀ c, c ≠ "bash" → Obj.get c policy = Obj.get c prior)).
Proof.
  split; [|split; [reflexivity|split; [reflexivity|]]].
  - intros env Henv.
    unfold buildOpenCodePermissionUpdate, updatedPolicy, existingPolicy.
    cbn [normalizeCapability lsRequest capability mbind option_bind].
    rewrite Henv. reflexivity.
  - intros request currentEnv Hcap prior patterns.
    exists (Obj.set "bash" (JObj (allowPatterns patterns
                                    (ensureObject (Obj.get "bash" prior)))) prior),
           (allowPatterns patterns (ensureObject (Obj.get "bash" prior))).
    pose proof (normalizePatterns_truthy (pattern request) (metadata request)) as Hall.
    split; [|split; [|split; [|split; [|split]]]].
    + unfold buildOpenCodePermissionUpdate, updatedPolicy. rewrite Hcap. reflexivity.
    + apply get_set_eq.
    + intros k Hk. now apply allowPatterns_other.
    + intros k priorBash Hk Hprior. rewrite allowPatterns_other by assumption.
      now rewrite Hprior.
    + intros p Hp Hne. apply allowPatterns_allowed; auto.
    + intros c Hc. apply get_set_ne. congruence.
Qed.

End PolicyProperties.

(** The example, with the policy in the environment of the attempt and
    another one in [process.env]; and a request without pattern for a
    policy with more entries. *)
Lemma bash_grant_keeps_prior_entries_witness :
  Policy.buildOpenCodePermissionUpdate {[ "OPENCODE_PERMISSION" := "{}" ]} lsRequest
    (Some {[ "OPENCODE_PERMISSION" := denyAllBash ]})
  = Some {| Policy.envDelta := {[ "OPENCODE_PERMISSION" := mergedPolicy ]};
            Policy.summary := "Allowed bash ls -la" |}
  ∧ ∃ policy bash,
      Obj.get "bash" policy = Some (JObj bash)
      ∧ Obj.get "*" bash = Some (JStr "allow")
      ∧ Obj.get "rm *" bash = Some (JStr "deny")
      ∧ Obj.get "edit" policy = Some (JStr "deny").
Proof.
  pose proof (bash_grant_keeps_prior_entries {[ "OPENCODE_PERMISSION" := "{}" ]}) as H.
  split.
  - apply (proj1 H). reflexivity.
  - destruct (proj2 (proj2 (proj2 H))
                {| engine := "opencode"; id := None; title := None;
                   capability := Some (JStr "bash"); pattern := None;
                   path := None; metadata := None; raw := None |}
                (Some {[ "OPENCODE_PERMISSION" :=
                           Json.lit "{'edit':'deny','bash':{'rm *':'deny'}}" ]})
                eq_refl)
      as (policy & bash & _ & Hbash & Hkeep & _ & Hallow & Hother).
    exists policy, bash. split; [exact Hbash|]. split; [|split].
    + apply Hallow; [vm_compute; constructor|discriminate].
    + rewrite Hkeep; [reflexivity|].
      vm_compute. intros Hin. inversion Hin as [|? ? ? Hin']; subst. inversion Hin'.
    + rewrite Hother; [reflexivity|discriminate].
Defined.

(** A verdict for the whole capability is not kept.  The policy in force
    is [{"bash": "deny"}]: its entry [bash] is no pattern of the request,
    and the grant of ["ls -la"] puts a map with that one pattern in its
    place. *)
Lemma bash_grant_replaces_plain_verdict :
  Obj.get "bash" (Policy.parsePolicy (Some (Json.lit "{'bash':'deny'}")))
  = Some (JStr "deny")
  ∧ Policy.normalizePatterns (pattern lsRequest) (metadata lsRequest) = ["ls -la"]
  ∧ Policy.buildOpenCodePermissionUpdate ∅ lsRequest
      (Some {[ "OPENCODE_PERMISSION" := Json.lit "{'bash':'deny'}" ]})
    = Some {| Policy.envDelta :=
                {[ "OPENCODE_PERMISSION" := Json.lit "{'bash':{'ls -la':'allow'}}" ]};
              Policy.summary := "Allowed bash ls -la" |}
  ∧ (Json.parse (Json.lit "{'bash':{'ls -la':'allow'}}") ≫= Val.field "bash")
    = Some (JObj [("ls -la", JStr "allow")]).
Proof. repeat split; reflexivity. Qed.

(** ** The retry ceiling *)

Section RetryProperties.
Import Retry.

Context {T M : Type}.
Variable formatStatus : string -> string.
Variable runOperation : nat -> option Env -> T + exn.
Variable context : PermissionRetryContext M.

Local Abbreviation pass := (pass formatStatus runOperation context).
Local Abbreviation loop := (loop formatStatus runOperation context).
Local Abbreviation maxAttempts := (maxAttempts context).

(** The operation asks for a permission at every attempt. *)
Definition alwaysPermissionRequired : Prop :=
  ∀ n env, ∃ e, runOperation n env = inr (PermissionRequired e).

(** The mediator answers every request with an allow decision. *)
Definition alwaysAllows : Prop :=
  ∀ e o m, ∃ d m', handle (mediator context) e o m = (inl d, m') ∧ outcome d = Allow.

(** A pass calls the operation once. *)
Lemma pass_calls attempts b a w :
  ∃ w', snd (pass attempts b a w) = w'
        ∧ calls w' = calls w ++ [a].
Proof.
  eexists; split; [reflexivity|]. unfold Retry.pass.
  destruct (runOperation _ _) as [v|[e|msg]]; simpl; try reflexivity.
  destruct (maxAttempts <=? attempts)%Z; simpl; [reflexivity|].
  destruct (handle _ _ _ _) as [[d|x] m]; simpl; [|reflexivity].
  destruct (outcome d); simpl; [|reflexivity].
  destruct (scope d); simpl; destruct (note d) as [[|c s]|]; reflexivity.
Qed.

(** A pass that does not end the loop has raised [attempts], which was
    below the ceiling. *)
Lemma pass_continues attempts b a w attempts' b' a' w' :
  pass attempts b a w = (inr (attempts', b', a'), w') ->
  (attempts < maxAttempts)%Z ∧ attempts' = (attempts + 1)%Z.
Proof.
  unfold Retry.pass.
  destruct (runOperation _ _) as [v|[e|msg]]; try discriminate.
  destruct (maxAttempts <=? attempts)%Z eqn:E; [discriminate|].
  apply Z.leb_gt in E.
  destruct (handle _ _ _ _) as [[d|x] m]; [|discriminate].
  destruct (outcome d); [|discriminate].
  destruct (scope d); destruct (note d) as [[|c s]|]; intros H; inversion H; auto.
Qed.

(** The loop ends within its fuel. *)
Lemma loop_terminates fuel attempts b a w :
  (0 < fuel)%nat ->
  (maxAttempts - attempts < Z.of_nat fuel)%Z ->
  ∃ r, fst (loop fuel attempts b a w) = Some r.
Proof.
  revert attempts b a w.
  induction fuel as [|fuel IH]; intros attempts b a w Hpos Hfuel; [lia|].
  simpl.
  destruct (pass attempts b a w) as [[r|[[attempts' b'] a']] w'] eqn:E.
  - eexists; reflexivity.
  - apply pass_continues in E as [Hlt ->].
    apply IH; lia.
Qed.

(** [runWithPermissionMediator] always returns or throws. *)
Lemma runWithPermissionMediator_settles (m0 : M) :
  ∃ r, fst (runWithPermissionMediator formatStatus runOperation context m0) = Some r.
Proof.
  unfold runWithPermissionMediator. apply loop_terminates; lia.
Qed.

(** With an operation that always asks and a mediator that always allows,
    the loop calls the operation once for each retry that is left, once
    more, and throws the error of that last call. *)
Lemma loop_exhausts (n : nat) :
  alwaysPermissionRequired -> alwaysAllows ->
  ∀ fuel attempts b a w,
    (maxAttempts - attempts = Z.of_nat n)%Z ->
    (n < fuel)%nat ->
    ∃ e env w',
      loop fuel attempts b a w = (Some (Thrown (PermissionRequired e)), w')
      ∧ length (calls w') = (length (calls w) + n + 1)%nat
      ∧ calls w' !! (length (calls w) + n)%nat = Some env
      ∧ runOperation (length (calls w) + n) env = inr (PermissionRequired e).
Proof.
  intros Hop Hmed.
  induction n as [|n IH]; intros fuel attempts b a w Hleft Hfuel;
    (destruct fuel as [|fuel]; [lia|]); simpl.
  - destruct (Hop (length (calls w)) a) as [e He].
    unfold Retry.pass. rewrite He.
    replace (maxAttempts <=? attempts)%Z with true by (symmetry; apply Z.leb_le; lia).
    exists e, a. eexists. split; [reflexivity|]. simpl.
    rewrite length_app, Nat.add_0_r. simpl. split; [lia|]. split; [|exact He].
    rewrite lookup_app_r by lia. now rewrite Nat.sub_diag.
  - destruct (pass attempts b a w) as [[r|[[attempts' b'] a']] w'] eqn:E.
    + exfalso. revert E. unfold Retry.pass.
      destruct (Hop (length (calls w)) a) as [e ->].
      replace (maxAttempts <=? attempts)%Z with false by (symmetry; apply Z.leb_gt; lia).
      destruct (Hmed e {| optEngine := ctxEngine context;
                          optWorkingDir := ctxWorkingDir context;
                          currentEnv := a |} (mstate w)) as (d & m' & Hh & Ho).
      cbn [mstate]. rewrite Hh, Ho.
      destruct (scope d); destruct (note d) as [[|c s]|]; discriminate.
    + destruct (pass_calls attempts b a w) as (w1 & Hw1 & Hcalls).
      rewrite E in Hw1. simpl in Hw1. subst w1.
      apply pass_continues in E as [Hlt ->].
      destruct (IH fuel (attempts + 1)%Z b' a' w') as (e & env & w'' & Hloop & Hlen & Hlast & Hrun);
        [lia|lia|].
      rewrite Hcalls, length_app in Hlen, Hlast, Hrun. simpl in Hlen, Hlast, Hrun.
      exists e, env, w''. split; [exact Hloop|].
      replace (length (calls w) + S n)%nat with (length (calls w) + 1 + n)%nat by lia.
      split; [lia|]. split; assumption.
Qed.

(** C2: with the default ceiling of 3 retries, an operation that throws a
    [PermissionRequiredError] at every attempt and a mediator that always
    decides to allow, [runWithPermissionMediator] calls the operation
    exactly 4 times and throws, unchanged, the [PermissionRequiredError] of
    the 4th call. *)
Theorem retry_ceiling_reraises (m0 : M) :
  maxRetries context = None ->
  alwaysPermissionRequired ->
  alwaysAllows ->
  ∃ e env w,
    runWithPermissionMediator formatStatus runOperation context m0
    = (Some (Thrown (PermissionRequired e)), w)
    ∧ length (calls w) = 4%nat
    ∧ calls w !! 3%nat = Some env
    ∧ runOperation 3 env = inr (PermissionRequired e).
Proof.
  intros Hmax Hop Hmed. unfold runWithPermissionMediator.
  assert (Hthree : maxAttempts = 3%Z) by (unfold Retry.maxAttempts; now rewrite Hmax).
  rewrite Hthree.
  destruct (loop_exhausts 3 Hop Hmed (S (Z.to_nat 3))
              0%Z
              (mergeEnv (baseEnv context)
                 (getSessionEnv (mediator context) (ctxEngine context) m0))
              (mergeEnv (baseEnv context)
                 (getSessionEnv (mediator context) (ctxEngine context) m0))
              {| calls := []; mstate := m0; stdout := [] |})
    as (e & env & w & Hloop & Hlen & Hlast & Hrun); [lia|simpl; lia|].
  exists e, env, w. auto.
Qed.

End RetryProperties.

(** An operation that always asks for the same permission, and a mediator
    that allows it once every time. *)
Definition bashError : PermissionRequiredError :=
  {| message := "bash"; request := lsRequest |}.

Definition alwaysBlocked (n : nat) (env : option Env) : unit + exn :=
  inr (PermissionRequired bashError).

Definition allowingMediator : Mediator unit :=
  {| getSessionEnv := fun _ _ => None;
     handle := fun _ _ m =>
       (inl {| outcome := Allow; scope := Once; decisionEnvDelta := None;
               note := None |}, m) |}.

Definition blockedContext : Retry.PermissionRetryContext unit :=
  {| Retry.ctxEngine := "opencode"; Retry.ctxWorkingDir := "/tmp";
     Retry.baseEnv := None; Retry.mediator := allowingMediator;
     Retry.maxRetries := None |}.

Lemma retry_ceiling_reraises_witness :
  ∃ e env w,
    Retry.runWithPermissionMediator Plain.formatStatus alwaysBlocked blockedContext tt
    = (Some (Retry.Thrown (PermissionRequired e)), w)
    ∧ length (Retry.calls w) = 4%nat
    ∧ Retry.calls w !! 3%nat = Some env
    ∧ alwaysBlocked 3 env = inr (PermissionRequired e).
Proof.
  apply (retry_ceiling_reraises Plain.formatStatus alwaysBlocked blockedContext tt).
  - reflexivity.
  - intros n env. exists bashError. reflexivity.
  - intros e o m. eexists. exists m. split; reflexivity.
Defined.

(** ** Settlement of the promise of [spawnProcess] *)

Section SpawnProperties.
Import Spawn.

Variable options : SpawnOptions.
Variable h : handle.

Local Abbreviation step := (step options h).
Local Abbreviation run := (run options h).
Local Abbreviation spawnProcess := (spawnProcess options h).

(** What holds of the executor's variables all along: before the promise
    is settled nothing has reached [resolve] or [reject] and both handlers
    are attached; afterwards exactly one call has. *)
Definition consistent (s : state) : Prop :=
  if settled s then length (promise s) = 1%nat
  else promise s = [] ∧ errorListener s = true ∧ closeListener s = true.

Ltac open_state :=
  repeat match goal with
         | w : world |- _ => destruct w as [? ?]
         | s : state |- _ => destruct s
         | c : Child |- _ => destruct c
         end;
  unfold consistent, Spawn.step, update, removeFromTracking, killAllActiveProcesses,
    onTimeout, onKillTimer, abortHandler, onData, onError, onClose, cleanup,
    dropListener, clearTimeoutIfNeeded, withChild, terminate, kill, resolveOnce,
    rejectOnce in *;
  cbn [proc activeProcesses settled promise child timerPending timedOut timeoutError
       killTimers abortListener errorListener closeListener stdoutChunks stderrChunks
       sinkStdout sinkStderr alive killed signals stdin] in *.

Ltac split_cases :=
  repeat match goal with
         | |- context [match ?x with _ => _ end] => destruct x eqn:?
         | H : context [match ?x with _ => _ end] |- _ => destruct x eqn:?
         end;
  cbn [proc activeProcesses settled promise child timerPending timedOut timeoutError
       killTimers abortListener errorListener closeListener stdoutChunks stderrChunks
       sinkStdout sinkStderr alive killed signals stdin] in *.

Lemma spawned_consistent (registry : gset handle) :
  consistent (proc (spawned options h registry)).
Proof. unfold consistent. simpl. auto. Qed.

(** The callbacks written as one record each, and the step of a world as
    a step of its state: the form in which the invariants below are
    checked. *)
Definition stepState (active : gset handle) (s : state) (ev : event) : state :=
  match ev with
  | TimeoutFires =>
      match timeout options with
      | Some ms => if timerPending s then onTimeout ms s else s
      | None => s
      end
  | KillTimerFires => onKillTimer s
  | Abort => if abortListener s then abortHandler s else s
  | StdoutData text => if piped options then onData true text s else s
  | StderrData text => if piped options then onData false text s else s
  | ChildError error => if errorListener s then onError error s else s
  | ChildClose code => if closeListener s then onClose code s else s
  | ChildExited =>
      withChild (fun c => {| alive := false; killed := killed c;
                             signals := signals c; stdin := stdin c |}) s
  | StdinDestroyed =>
      withChild (setStdin (fun i => {| destroyed := true; ended := ended i;
                                       written := written i |})) s
  | KillAllActive =>
      if bool_decide (h ∈ active) && negb (killed (child s)) then terminate s else s
  end.

Definition stepActive (w : world) (ev : event) : gset handle :=
  match ev with
  | ChildError _ =>
      if errorListener (proc w) then activeProcesses w ∖ {[h]} else activeProcesses w
  | ChildClose _ =>
      if closeListener (proc w) then activeProcesses w ∖ {[h]} else activeProcesses w
  | KillAllActive => ∅
  | _ => activeProcesses w
  end.

Lemma proc_step (w : world) (ev : event) :
  proc (step w ev) = stepState (activeProcesses w) (proc w) ev.
Proof.
  destruct w as [active s].
  destruct ev; unfold Spawn.step, stepState, update, removeFromTracking,
    killAllActiveProcesses; cbn [proc activeProcesses];
    repeat match goal with
           | |- context [match ?x with _ => _ end] => destruct x
           end; reflexivity.
Qed.

Lemma active_step (w : world) (ev : event) :
  activeProcesses (step w ev) = stepActive w ev.
Proof.
  destruct w as [active s].
  destruct ev; unfold Spawn.step, stepActive, update, removeFromTracking,
    killAllActiveProcesses; cbn [proc activeProcesses];
    repeat match goal with
           | |- context [match ?x with _ => _ end] => destruct x
           end; reflexivity.
Qed.

Lemma onTimeout_eq (ms : Z) (s : state) :
  onTimeout ms s
  = {| settled := settled s; promise := promise s;
       child := if killed (child s) then child s else kill SIGTERM (child s);
       timerPending := false;
       timedOut := if killed (child s) then timedOut s else true;
       timeoutError := if killed (child s) then timeoutError s
                       else Some (makeTimeoutError ms);
       killTimers := if killed (child s) then killTimers s else S (killTimers s);
       abortListener := abortListener s; errorListener := errorListener s;
       closeListener := closeListener s; stdoutChunks := stdoutChunks s;
       stderrChunks := stderrChunks s; sinkStdout := sinkStdout s;
       sinkStderr := sinkStderr s |}.
Proof.
  unfold onTimeout, terminate. cbn [proc activeProcesses settled promise child timerPending timedOut timeoutError
       killTimers abortListener errorListener closeListener stdoutChunks stderrChunks
       sinkStdout sinkStderr alive killed signals stdin].
  now destruct (killed (child s)).
Qed.

Lemma onKillTimer_eq (s : state) :
  onKillTimer s
  = {| settled := settled s; promise := promise s;
       child := match killTimers s with
                | O => child s
                | S _ => if killed (child s) then child s else kill SIGKILL (child s)
                end;
       timerPending := timerPending s; timedOut := timedOut s;
       timeoutError := timeoutError s; killTimers := Nat.pred (killTimers s);
       abortListener := abortListener s; errorListener := errorListener s;
       closeListener := closeListener s; stdoutChunks := stdoutChunks s;
       stderrChunks := stderrChunks s; sinkStdout := sinkStdout s;
       sinkStderr := sinkStderr s |}.
Proof.
  destruct s as [? ? c ? ? ? n ? ? ? ? ? ? ?]. unfold onKillTimer, withChild.
  cbn [proc activeProcesses settled promise child timerPending timedOut timeoutError
       killTimers abortListener errorListener closeListener stdoutChunks stderrChunks
       sinkStdout sinkStderr alive killed signals stdin].
  destruct n; [reflexivity|]. cbn [Nat.pred]. now destruct (killed c).
Qed.

Lemma abortHandler_eq (s : state) :
  abortHandler s
  = {| settled := settled s; promise := promise s;
       child := closeChildStdin (if killed (child s) then child s
                                 else kill SIGTERM (child s));
       timerPending := timerPending s; timedOut := timedOut s;
       timeoutError := timeoutError s;
       killTimers := if killed (child s) then killTimers s else S (killTimers s);
       abortListener := false; errorListener := errorListener s;
       closeListener := closeListener s; stdoutChunks := stdoutChunks s;
       stderrChunks := stderrChunks s; sinkStdout := sinkStdout s;
       sinkStderr := sinkStderr s |}.
Proof.
  unfold abortHandler, terminate, withChild. cbn [proc activeProcesses settled promise child timerPending timedOut timeoutError
       killTimers abortListener errorListener closeListener stdoutChunks stderrChunks
       sinkStdout sinkStderr alive killed signals stdin].
  now destruct (killed (child s)).
Qed.

Lemma onError_eq (error : Error) (s : state) :
  onError error s
  = {| settled := true;
       promise := if settled s then promise s else promise s ++ [Reject error];
       child := closeChildStdin (child s);
       timerPending := false; timedOut := timedOut s;
       timeoutError := timeoutError s; killTimers := killTimers s;
       abortListener := abortListener s; errorListener := false;
       closeListener := closeListener s; stdoutChunks := stdoutChunks s;
       stderrChunks := stderrChunks s; sinkStdout := sinkStdout s;
       sinkStderr := sinkStderr s |}.
Proof.
  unfold onError, rejectOnce, cleanup, clearTimeoutIfNeeded, withChild, dropListener.
  cbn [proc activeProcesses settled promise child timerPending timedOut timeoutError
       killTimers abortListener errorListener closeListener stdoutChunks stderrChunks
       sinkStdout sinkStderr alive killed signals stdin].
  now destruct (settled s).
Qed.

Lemma onClose_eq (code : option Z) (s : state) :
  onClose code s
  = {| settled := true;
       promise :=
         if settled s then promise s
         else promise s ++
              [match timedOut s, timeoutError s with
               | true, Some err => Reject err
               | _, _ => Resolve {| exitCode := default 0%Z code;
                                    stdout := JS.join "" (stdoutChunks s);
                                    stderr := JS.join "" (stderrChunks s) |}
               end];
       child := closeChildStdin (child s);
       timerPending := false; timedOut := timedOut s;
       timeoutError := timeoutError s; killTimers := killTimers s;
       abortListener := abortListener s; errorListener := errorListener s;
       closeListener := false; stdoutChunks := stdoutChunks s;
       stderrChunks := stderrChunks s; sinkStdout := sinkStdout s;
       sinkStderr := sinkStderr s |}.
Proof.
  unfold onClose, rejectOnce, resolveOnce, cleanup, clearTimeoutIfNeeded, withChild,
    dropListener.
  cbn [proc activeProcesses settled promise child timerPending timedOut timeoutError
       killTimers abortListener errorListener closeListener stdoutChunks stderrChunks
       sinkStdout sinkStderr alive killed signals stdin].
  destruct (timedOut s), (timeoutError s), (settled s); reflexivity.
Qed.

(** Opens the step of an invariant: the state after the event, by cases
    on the event and on the guards of its handler. *)
Ltac open_step :=
  rewrite ?proc_step, ?active_step in *;
  unfold stepState, stepActive in *.

Ltac open_callbacks :=
  rewrite ?onTimeout_eq, ?onKillTimer_eq, ?abortHandler_eq, ?onError_eq, ?onClose_eq in *;
  unfold onData, withChild, terminate, kill in *;
  cbn [proc activeProcesses settled promise child timerPending timedOut timeoutError
       killTimers abortListener errorListener closeListener stdoutChunks stderrChunks
       sinkStdout sinkStderr alive killed signals stdin] in *.

Ltac open_fields :=
  repeat match goal with
         | w : world |- _ => destruct w as [? ?]
         | s : state |- _ => destruct s
         | c : Child |- _ => destruct c
         end;
  cbn [proc activeProcesses settled promise child timerPending timedOut timeoutError
       killTimers abortListener errorListener closeListener stdoutChunks stderrChunks
       sinkStdout sinkStderr alive killed signals stdin] in *.

Ltac split_guards :=
  repeat match goal with
         | |- context [match ?x with _ => _ end] => destruct x eqn:?
         end.

Lemma step_consistent (w : world) (ev : event) :
  consistent (proc w) -> consistent (proc (step w ev)).
Proof.
  intros H. open_step. destruct ev; split_guards; try exact H;
    open_callbacks; unfold consistent in *; cbn [settled promise errorListener
                                                 closeListener] in *;
    split_cases; open_fields;
    repeat match goal with H : _ ∧ _ |- _ => destruct H end;
    subst; simpl in *; auto; try congruence.
Qed.

Lemma run_consistent (evs : list event) (w : world) :
  consistent (proc w) -> consistent (proc (run w evs)).
Proof.
  revert w. induction evs as [|ev evs IH]; intros w H; simpl; [exact H|].
  apply IH, step_consistent, H.
Qed.

(** Once settled, no callback changes what the promise was settled with. *)
Lemma step_settled (w : world) (ev : event) :
  settled (proc w) = true ->
  settled (proc (step w ev)) = true ∧ promise (proc (step w ev)) = promise (proc w).
Proof.
  intros H. open_step. destruct ev; split_guards; try (split; [exact H|reflexivity]);
    open_callbacks; rewrite ?H; auto.
Qed.

Lemma run_settled (evs : list event) (w : world) :
  settled (proc w) = true ->
  settled (proc (run w evs)) = true ∧ promise (proc (run w evs)) = promise (proc w).
Proof.
  revert w. induction evs as [|ev evs IH]; intros w H; simpl; [auto|].
  destruct (step_settled w ev H) as [Hs Hp].
  destruct (IH _ Hs) as [Hs' Hp']. split; congruence.
Qed.

Definition isSettling (ev : event) : bool :=
  match ev with
  | ChildError _ | ChildClose _ => true
  | _ => false
  end.

(** The [error] and [close] events settle a promise that is not settled. *)
Lemma step_settles (w : world) (ev : event) :
  consistent (proc w) -> isSettling ev = true -> settled (proc (step w ev)) = true.
Proof.
  intros H Hev. open_step. destruct ev; try discriminate; split_guards;
    open_callbacks; try reflexivity;
    unfold consistent in *; split_cases;
    repeat match goal with H : _ ∧ _ |- _ => destruct H end; congruence.
Qed.

Lemma run_settles (evs : list event) (w : world) :
  consistent (proc w) -> existsb isSettling evs = true ->
  settled (proc (run w evs)) = true.
Proof.
  revert w. induction evs as [|ev evs IH]; intros w H Hex; simpl in *; [discriminate|].
  destruct (isSettling ev) eqn:E.
  - apply run_settled, step_settles; assumption.
  - apply IH; [apply step_consistent, H|exact Hex].
Qed.

(** C6: the promise of [spawnProcess] is settled at most once whatever
    the runtime delivers (timeout, abort, [error], [close], in any number
    and order): at most one call reaches [resolve] or [reject]; it is the
    first one, which no later event changes; and exactly one does as soon as
    an [error] or a [close] event has been delivered. *)
Theorem settled_exactly_once (registry : gset handle) (evs : list event) :
  let w := spawnProcess registry evs in
  (length (promise (proc w)) <= 1)%nat
  ∧ (settled (proc w) = true ↔ length (promise (proc w)) = 1%nat)
  ∧ (∀ more, promise (proc w) ≠ [] →
             promise (proc (spawnProcess registry (evs ++ more))) = promise (proc w))
  ∧ (existsb isSettling evs = true → length (promise (proc w)) = 1%nat).
Proof.
  intros w.
  assert (Hc : consistent (proc w)) by apply run_consistent, spawned_consistent.
  unfold consistent in Hc.
  split; [|split; [|split]].
  - destruct (settled (proc w)); [lia|]. destruct Hc as [-> _]. simpl. lia.
  - destruct (settled (proc w)); [tauto|]. destruct Hc as [-> _]. simpl.
    split; [discriminate|lia].
  - intros more Hne. unfold Spawn.spawnProcess, Spawn.run. rewrite fold_left_app.
    destruct (settled (proc w)) eqn:Hs; [|destruct Hc as [Hp _]; contradiction].
    apply (run_settled more w Hs).
  - intros Hex.
    assert (Hs : settled (proc w) = true)
      by (apply run_settles; [apply spawned_consistent|exact Hex]).
    now rewrite Hs in Hc.
Qed.

(** *** Timeout *)

(** Events that neither kill the child nor settle the promise: output,
    the end of the process or of its stdin, and escalation timers. *)
Definition isQuiet (ev : event) : bool :=
  match ev with
  | StdoutData _ | StderrData _ | StdinDestroyed | ChildExited | KillTimerFires => true
  | _ => false
  end.

(** Before the timer has fired and while nobody has killed the child. *)
Definition waiting (s : state) : Prop :=
  settled s = false ∧ promise s = [] ∧ closeListener s = true
  ∧ timerPending s = true ∧ killed (child s) = false ∧ killTimers s = 0%nat.

(** After the timer has fired: the close handler will reject. *)
Definition expired (ms : Z) (s : state) : Prop :=
  settled s = false ∧ promise s = [] ∧ closeListener s = true
  ∧ timedOut s = true ∧ timeoutError s = Some (makeTimeoutError ms).

Ltac open_conj :=
  repeat match goal with
         | H : _ ∧ _ |- _ => destruct H
         end.

Lemma step_waiting (w : world) (ev : event) :
  waiting (proc w) -> isQuiet ev = true -> waiting (proc (step w ev)).
Proof.
  unfold waiting. intros H Hev. open_step. destruct ev; try discriminate;
    split_guards; try exact H;
    open_callbacks; open_conj; split_cases; open_fields; subst; simpl in *;
    repeat split; auto; congruence.
Qed.

Lemma run_waiting (evs : list event) (w : world) :
  waiting (proc w) -> forallb isQuiet evs = true -> waiting (proc (run w evs)).
Proof.
  revert w. induction evs as [|ev evs IH]; intros w H Hall; simpl in *; [exact H|].
  apply andb_true_iff in Hall as [Hev Hall].
  apply IH; [apply step_waiting; assumption|exact Hall].
Qed.

Lemma timer_expires (ms : Z) (w : world) :
  timeout options = Some ms ->
  waiting (proc w) -> expired ms (proc (step w TimeoutFires)).
Proof.
  unfold waiting, expired. intros Hms H. open_step. rewrite Hms.
  open_conj. split_guards; try congruence.
  open_callbacks. split_cases; try congruence. repeat split; auto.
Qed.

Lemma step_expired (ms : Z) (w : world) (ev : event) :
  timeout options = Some ms ->
  expired ms (proc w) -> isSettling ev = false -> expired ms (proc (step w ev)).
Proof.
  unfold expired. intros Hms H Hev. open_step. destruct ev; try discriminate;
    try rewrite Hms; split_guards; try exact H;
    open_callbacks; open_conj; split_cases; open_fields; subst; simpl in *;
    repeat split; auto; congruence.
Qed.

Lemma run_expired (ms : Z) (evs : list event) (w : world) :
  timeout options = Some ms ->
  expired ms (proc w) -> existsb isSettling evs = false -> expired ms (proc (run w evs)).
Proof.
  intros Hms. revert w.
  induction evs as [|ev evs IH]; intros w H Hall; simpl in *; [exact H|].
  apply orb_false_iff in Hall as [Hev Hall].
  apply IH; [apply step_expired; assumption|exact Hall].
Qed.

Lemma close_after_expiry (ms : Z) (w : world) (code : option Z) :
  expired ms (proc w) ->
  promise (proc (step w (ChildClose code))) = [Reject (makeTimeoutError ms)]
  ∧ h ∉ activeProcesses (step w (ChildClose code)).
Proof.
  unfold expired. intros (Hs & Hp & Hc & Ht & He). open_step.
  rewrite Hc, onClose_eq. cbn [promise]. rewrite Hs, Hp, Ht, He.
  split; [reflexivity|].
  rewrite elem_of_difference, elem_of_singleton. tauto.
Qed.

(** Once the timer has fired on a running child, nothing that follows
    makes the promise resolve: whatever settles it rejects it. *)
Definition doomed (s : state) : Prop :=
  timedOut s = true ∧ is_Some (timeoutError s)
  ∧ Forall (fun x => isReject x = true) (promise s).

Lemma step_doomed (w : world) (ev : event) :
  doomed (proc w) -> doomed (proc (step w ev)).
Proof.
  unfold doomed. intros (Ht & [err He] & Hp).
  open_step. destruct ev; split_guards; try (repeat split; eauto; fail);
    open_callbacks; split_cases; rewrite ?Ht, ?He in *;
    repeat split; eauto; try congruence;
    apply Forall_app; split; auto.
Qed.

Lemma timeout_never_resolves (registry : gset handle) (ms : Z)
    (before after : list event) :
  timeout options = Some ms ->
  (0 < ms)%Z ->
  forallb isQuiet before = true ->
  Forall (fun x => isReject x = true)
    (promise (proc (spawnProcess registry (before ++ [TimeoutFires] ++ after)))).
Proof.
  intros Hms Hpos Hbefore.
  unfold Spawn.spawnProcess, Spawn.run. rewrite !fold_left_app. cbn [fold_left].
  assert (Hd : doomed (proc (step (run (spawned options h registry) before) TimeoutFires))).
  { assert (He : expired ms (proc (step (run (spawned options h registry) before)
                                     TimeoutFires))).
    { apply (timer_expires ms _ Hms). apply (run_waiting before); [|exact Hbefore].
      unfold waiting, spawned, timeoutSet. cbn. rewrite Hms.
      repeat split; auto. now apply Z.ltb_lt. }
    destruct He as (_ & Hp & _ & Ht & He). unfold doomed.
    rewrite Ht, He, Hp. repeat split; eauto. }
  unfold Spawn.run in Hd. revert Hd.
  generalize (step (fold_left (Spawn.step options h) before (spawned options h registry))
                TimeoutFires).
  induction after as [|ev after IH]; intros w Hd; simpl; [apply Hd|].
  apply IH, step_doomed, Hd.
Qed.

(** C5: with a positive timeout whose timer fires while the child is
    running and has not been killed, whatever follows the timer, the promise
    is never resolved: what settles it rejects it.  When no [error] event
    comes between the timer and the [close] event, the promise is rejected
    with the error named "TimeoutError", and the handle of the child is no
    longer in [activeProcesses]. *)
Theorem timeout_rejects_and_untracks (registry : gset handle) (ms : Z)
    (before between : list event) (code : option Z) :
  timeout options = Some ms ->
  (0 < ms)%Z ->
  forallb isQuiet before = true ->
  existsb isSettling between = false ->
  let w := spawnProcess registry
             (before ++ [TimeoutFires] ++ between ++ [ChildClose code]) in
  promise (proc w) = [Reject (makeTimeoutError ms)]
  ∧ name (makeTimeoutError ms) = "TimeoutError"
  ∧ outcome w = Some (Reject (makeTimeoutError ms))
  ∧ (h ∉ activeProcesses w)
  ∧ (∀ after,
       Forall (fun x => isReject x = true)
         (promise (proc (spawnProcess registry (before ++ [TimeoutFires] ++ after))))).
Proof.
  intros Hms Hpos Hbefore Hbetween w.
  assert (Hw : promise (proc w) = [Reject (makeTimeoutError ms)]
               ∧ h ∉ activeProcesses w).
  { subst w. unfold Spawn.spawnProcess, Spawn.run.
    rewrite !fold_left_app. cbn [fold_left].
    apply close_after_expiry.
    apply (run_expired ms between _ Hms); [|exact Hbetween].
    apply (timer_expires ms _ Hms).
    apply (run_waiting before); [|exact Hbefore].
    unfold waiting, spawned, timeoutSet. cbn. rewrite Hms.
    repeat split; auto. now apply Z.ltb_lt. }
  destruct Hw as [Hp Hh]. unfold outcome. rewrite Hp.
  repeat split; auto.
  intros after. now apply (timeout_never_resolves registry ms).
Qed.

(** *** Exit code of a child that was ended by a signal *)

(** C10: a [close] event that reports [null] as exit code (the child was
    ended by a signal) is handled as one that reports 0, in every state.
    When no timeout has fired and the promise is not settled yet, it
    resolves the promise, with [exitCode] 0. *)
Theorem null_exit_code_is_zero (registry : gset handle) (evs : list event) :
  let w := spawnProcess registry evs in
  step w (ChildClose None) = step w (ChildClose (Some 0%Z))
  ∧ (settled (proc w) = false ->
     timedOut (proc w) = false ->
     promise (proc (step w (ChildClose None)))
     = [Resolve {| exitCode := 0;
                   stdout := JS.join "" (stdoutChunks (proc w));
                   stderr := JS.join "" (stderrChunks (proc w)) |}]).
Proof.
  intros w. split; [reflexivity|]. intros Hs Ht.
  assert (Hc : consistent (proc w)) by apply run_consistent, spawned_consistent.
  unfold consistent in Hc. rewrite Hs in Hc. destruct Hc as (Hp & _ & Hl).
  clearbody w. open_state. subst. auto.
Qed.

(** *** Abort *)

(** Events other than the timeout timer, [error] and [close]. *)
Definition isBenign (ev : event) : bool :=
  match ev with
  | TimeoutFires | ChildError _ | ChildClose _ => false
  | _ => true
  end.

Definition pendingSuccess (s : state) : Prop :=
  settled s = false ∧ promise s = [] ∧ closeListener s = true ∧ timedOut s = false.

Lemma step_pendingSuccess (w : world) (ev : event) :
  pendingSuccess (proc w) -> isBenign ev = true -> pendingSuccess (proc (step w ev)).
Proof.
  unfold pendingSuccess. intros H Hev. open_step. destruct ev; try discriminate;
    split_guards; try exact H;
    open_callbacks; open_conj; split_cases; open_fields; subst; simpl in *;
    repeat split; auto; congruence.
Qed.

Lemma run_pendingSuccess (evs : list event) (w : world) :
  pendingSuccess (proc w) -> forallb isBenign evs = true ->
  pendingSuccess (proc (run w evs)).
Proof.
  revert w. induction evs as [|ev evs IH]; intros w H Hall; simpl in *; [exact H|].
  apply andb_true_iff in Hall as [Hev Hall].
  apply IH; [apply step_pendingSuccess; assumption|exact Hall].
Qed.

(** [abortHandler] kills the child and closes its stdin, and leaves the
    promise alone: when neither the timeout fired nor the runtime reported
    an [error], the [close] event resolves the promise, aborted or not. *)
Lemma close_resolves_after_abort (registry : gset handle) (evs : list event)
    (code : option Z) :
  forallb isBenign evs = true ->
  ∃ result,
    promise (proc (spawnProcess registry (evs ++ [ChildClose code]))) = [Resolve result]
    ∧ exitCode result = default 0%Z code.
Proof.
  intros Hall. unfold Spawn.spawnProcess, Spawn.run. rewrite fold_left_app.
  cbn [fold_left].
  assert (H : pendingSuccess (proc (run (spawned options h registry) evs))).
  { apply run_pendingSuccess; [|exact Hall]. unfold pendingSuccess. cbn. auto. }
  unfold Spawn.run in H. revert H.
  generalize (fold_left (Spawn.step options h) evs (spawned options h registry)).
  intros w (Hs & Hp & Hc & Ht). open_step. rewrite Hc, onClose_eq.
  cbn [promise]. rewrite Hs, Hp, Ht.
  eexists. split; reflexivity.
Qed.

(** *** Escalation *)

(** A signal is delivered at most once: [killed] is set by the first
    delivery and guards every later [kill]. *)
Definition signalled (s : state) : Prop :=
  (signals (child s) = [] ∧ killed (child s) = false
   ∨ signals (child s) = [SIGTERM] ∧ killed (child s) = true)
  ∧ (killTimers s ≠ 0%nat → killed (child s) = true ∨ alive (child s) = false).

Lemma step_signalled (w : world) (ev : event) :
  signalled (proc w) -> signalled (proc (step w ev)).
Proof.
  unfold signalled. intros [Hsig Htimers].
  open_step. destruct ev; split_guards; try (split; assumption);
    open_callbacks; unfold closeChildStdin, setStdin in *;
    cbn [alive killed signals] in *;
    split_cases; open_fields; subst; simpl in *;
    repeat match goal with
           | H : _ ∨ _ |- _ => destruct H
           | H : _ ∧ _ |- _ => destruct H
           end; subst; simpl in *; try congruence;
    (split; [auto|intros; auto]);
    try (destruct Htimers; [lia| |]; congruence);
    try (destruct Htimers; [lia|congruence|]; auto).
  match goal with H : _ && false = true |- _ => now rewrite andb_false_r in H end.
Qed.

(** The escalation timers never send SIGKILL: when one fires, either
    SIGTERM was delivered, and [child.killed] is true, or the child had
    exited already.  The only signal a child ever gets is SIGTERM. *)
Lemma escalation_never_kills (registry : gset handle) (evs : list event) :
  let s := proc (spawnProcess registry evs) in
  signals (child s) = [] ∨ signals (child s) = [SIGTERM].
Proof.
  assert (H : signalled (proc (spawnProcess registry evs))).
  { unfold Spawn.spawnProcess, Spawn.run.
    assert (H0 : signalled (proc (spawned options h registry)))
      by (unfold signalled; simpl; auto).
    revert H0. generalize (spawned options h registry).
    induction evs as [|ev evs IH]; intros w H0; simpl; [exact H0|].
    apply IH, step_signalled, H0. }
  destruct H as [[[H _]|[H _]] _]; auto.
Qed.

End SpawnProperties.

(** The class [PermissionMediator] in an interactive terminal, with a user
    who allows once, then always, then once: the three retries carry the
    policy of the grant, the fourth failure is thrown without another
    question, and the grant is kept in the session. *)
Definition interactive : PermissionMediator.state :=
  {| PermissionMediator.sessionEnv := ∅; PermissionMediator.isTTY := true;
     PermissionMediator.menu :=
       [PermissionMediator.ChooseOnce; PermissionMediator.ChooseAlways;
        PermissionMediator.ChooseOnce; PermissionMediator.ChooseOnce] |}.

Definition opencodeContext : Retry.PermissionRetryContext PermissionMediator.state :=
  {| Retry.ctxEngine := "opencode"; Retry.ctxWorkingDir := "/tmp";
     Retry.baseEnv := None; Retry.mediator := PermissionMediator.instance ∅;
     Retry.maxRetries := None |}.

Example retry_with_interactive_mediator :
  let result :=
    Retry.runWithPermissionMediator Plain.formatStatus alwaysBlocked opencodeContext
      interactive in
  let granted := Json.lit "{'bash':{'ls -la':'allow'}}" in
  fst result = Some (Retry.Thrown (PermissionRequired bashError))
  ∧ List.map (fun env : option Env => env ≫= (.!! "OPENCODE_PERMISSION"))
      (Retry.calls (snd result))
    = [None; Some granted; Some granted; Some granted]
  ∧ PermissionMediator.menu (Retry.mstate (snd result)) = [PermissionMediator.ChooseOnce]
  ∧ (PermissionMediator.getSessionEnv "opencode" (Retry.mstate (snd result))
       ≫= (.!! "OPENCODE_PERMISSION")) = Some granted.
Proof. repeat split; reflexivity. Qed.

(** *** Runs of [spawnProcess] *)

(** A child started with an abort signal and no timeout, and one with a
    timeout of 50 ms. *)
Definition abortable : Spawn.SpawnOptions :=
  {| Spawn.hasSignal := true; Spawn.stdioMode := Spawn.Pipe; Spawn.timeout := None;
     Spawn.stdinInput := None; Spawn.keepStdinOpen := false |}.

Definition timed : Spawn.SpawnOptions :=
  {| Spawn.hasSignal := true; Spawn.stdioMode := Spawn.Pipe; Spawn.timeout := Some 50%Z;
     Spawn.stdinInput := Some "prompt"; Spawn.keepStdinOpen := false |}.

(** The error that Node reports on the [error] event when it has killed
    the child for an abort. *)
Definition abortError : Spawn.Error :=
  {| Spawn.name := "AbortError"; Spawn.errMessage := "The operation was aborted";
     Spawn.code := Some "ABORT_ERR" |}.

Lemma settled_exactly_once_witness :
  length (Spawn.promise (Spawn.proc
            (Spawn.spawnProcess timed 1%positive ∅
               [Spawn.TimeoutFires; Spawn.Abort; Spawn.ChildClose None;
                Spawn.ChildError abortError]))) = 1%nat
  ∧ Spawn.promise (Spawn.proc
        (Spawn.spawnProcess timed 1%positive ∅
           ([Spawn.ChildError abortError]
              ++ [Spawn.TimeoutFires; Spawn.Abort; Spawn.ChildClose (Some 0%Z)])))
    = [Spawn.Reject abortError].
Proof.
  split.
  - apply (settled_exactly_once timed 1%positive ∅
             [Spawn.TimeoutFires; Spawn.Abort; Spawn.ChildClose None;
              Spawn.ChildError abortError]).
    reflexivity.
  - rewrite (proj1 (proj2 (proj2 (settled_exactly_once timed 1%positive ∅
                                    [Spawn.ChildError abortError])))).
    + reflexivity.
    + discriminate.
Defined.

Lemma timeout_rejects_and_untracks_witness :
  Spawn.promise (Spawn.proc
     (Spawn.spawnProcess timed 1%positive {[2%positive]}
        ([Spawn.StdoutData "working"] ++ [Spawn.TimeoutFires]
           ++ [Spawn.StderrData "Terminated"; Spawn.KillTimerFires]
           ++ [Spawn.ChildClose None])))
  = [Spawn.Reject (Spawn.makeTimeoutError 50)]
  ∧ Spawn.errMessage (Spawn.makeTimeoutError 50) = "Process timed out after 50ms"
  ∧ 1%positive ∉ Spawn.activeProcesses
       (Spawn.spawnProcess timed 1%positive {[2%positive]}
          ([Spawn.StdoutData "working"] ++ [Spawn.TimeoutFires]
             ++ [Spawn.StderrData "Terminated"; Spawn.KillTimerFires]
             ++ [Spawn.ChildClose None])).
Proof.
  destruct (timeout_rejects_and_untracks timed 1%positive {[2%positive]} 50%Z
              [Spawn.StdoutData "working"]
              [Spawn.StderrData "Terminated"; Spawn.KillTimerFires] None)
    as (Hp & _ & _ & Hh & _); [reflexivity|lia|reflexivity|reflexivity|].
  split; [exact Hp|]. split; [reflexivity|exact Hh].
Defined.

(** The timer fires on the running child, then the signal aborts: the
    runtime kills the child and reports the abort on the [error] event,
    which settles the promise before the [close] event does.  The promise
    is rejected, with the error of the abort and not with "TimeoutError". *)
Lemma timeout_then_abort_rejects_with_abort_error :
  Spawn.timeout timed = Some 50%Z
  ∧ Spawn.timedOut (Spawn.proc (Spawn.spawnProcess timed 1%positive ∅ [Spawn.TimeoutFires]))
    = true
  ∧ Spawn.promise (Spawn.proc
       (Spawn.spawnProcess timed 1%positive ∅
          [Spawn.TimeoutFires; Spawn.ChildError abortError; Spawn.Abort;
           Spawn.ChildClose None]))
    = [Spawn.Reject abortError]
  ∧ Spawn.name abortError = "AbortError".
Proof. repeat split; reflexivity. Qed.

(** A child that was signalled before the timer fires ([child.killed] is
    set): the callback of the timer returns at once, and the [close] event
    resolves the promise. *)
Example signalled_child_resolves_after_timeout :
  Spawn.promise (Spawn.proc
     (Spawn.spawnProcess timed 1%positive ∅
        [Spawn.KillAllActive; Spawn.TimeoutFires; Spawn.ChildClose None]))
  = [Spawn.Resolve {| Spawn.exitCode := 0; Spawn.stdout := ""; Spawn.stderr := "" |}].
Proof. reflexivity. Qed.

(** A child that was ended by a signal of another process, after it had
    written to stdout. *)
Lemma null_exit_code_is_zero_witness :
  Spawn.promise (Spawn.proc
     (Spawn.step abortable 1%positive
        (Spawn.spawnProcess abortable 1%positive ∅ [Spawn.StdoutData "partial"])
        (Spawn.ChildClose None)))
  = [Spawn.Resolve {| Spawn.exitCode := 0; Spawn.stdout := "partial"; Spawn.stderr := "" |}].
Proof.
  apply (proj2 (null_exit_code_is_zero abortable 1%positive ∅
                  [Spawn.StdoutData "partial"])); reflexivity.
Defined.

(** A child that the runtime killed for an abort: the [error] event
    comes first and rejects the promise; the [close] event reports [null]
    as code while no timeout is set, and resolves nothing. *)
Lemma close_null_after_error_stays_rejected :
  Spawn.timeout abortable = None
  ∧ Spawn.promise (Spawn.proc
       (Spawn.spawnProcess abortable 1%positive ∅
          [Spawn.ChildError abortError; Spawn.Abort; Spawn.ChildClose None]))
    = [Spawn.Reject abortError]
  ∧ Spawn.outcome
      (Spawn.spawnProcess abortable 1%positive ∅
         [Spawn.ChildError abortError; Spawn.Abort; Spawn.ChildClose None])
    = Some (Spawn.Reject abortError).
Proof. repeat split; reflexivity. Qed.

(** C4: an abort that fires after the spawn and before the [close] event
    does not make the promise reject.  [abortHandler] sends SIGTERM and
    closes stdin; the [close] event that follows reports [null] as code and
    resolves the promise with [exitCode] 0.  When the abort comes after the
    child has exited on its own and before [close], no signal is delivered
    and the promise resolves with the exit code of the child.  The promise
    rejects only when the runtime reports the abort on the [error] event. *)
Theorem abort_before_close_resolves :
  let aborted := Spawn.spawnProcess abortable 1%positive ∅
                   [Spawn.Abort; Spawn.ChildClose None] in
  let raced := Spawn.spawnProcess abortable 1%positive ∅
                 [Spawn.ChildExited; Spawn.Abort; Spawn.ChildClose (Some 0%Z)] in
  let reported := Spawn.spawnProcess abortable 1%positive ∅
                    [Spawn.ChildError abortError; Spawn.Abort; Spawn.ChildClose None] in
  Spawn.outcome aborted
  = Some (Spawn.Resolve {| Spawn.exitCode := 0; Spawn.stdout := ""; Spawn.stderr := "" |})
  ∧ Spawn.signals (Spawn.child (Spawn.proc aborted)) = [Spawn.SIGTERM]
  ∧ Spawn.outcome raced
    = Some (Spawn.Resolve {| Spawn.exitCode := 0; Spawn.stdout := ""; Spawn.stderr := "" |})
  ∧ Spawn.signals (Spawn.child (Spawn.proc raced)) = []
  ∧ Spawn.outcome reported = Some (Spawn.Reject abortError).
Proof. repeat split; reflexivity. Qed.

(** ** Lines split across chunks *)

Section StringFacts.
Import JS.

Lemma append_cons (c : ascii) (s t : string) : String c s +:+ t = String c (s +:+ t).
Proof. reflexivity. Qed.

Lemma append_nil_l (t : string) : "" +:+ t = t.
Proof. reflexivity. Qed.

Lemma append_nil_r (s : string) : s +:+ "" = s.
Proof. induction s as [|c s IH]; [reflexivity|]. now rewrite append_cons, IH. Qed.

Lemma append_assoc (s t u : string) : (s +:+ t) +:+ u = s +:+ (t +:+ u).
Proof. induction s as [|c s IH]; [reflexivity|]. now rewrite !append_cons, IH. Qed.

(** The complete lines of a text and what follows its last line feed. *)
Fixpoint cut (s : string) : list string * string :=
  match s with
  | "" => ([], "")
  | String c r =>
      let '(ls, z) := cut r in
      if Ascii.eqb c LF then ("" :: ls, z)
      else match ls with
           | [] => ([], String c z)
           | l :: ls' => (String c l :: ls', z)
           end
  end.

Lemma split_nonempty (s : string) : split LF s ≠ [].
Proof.
  destruct s as [|c r]; simpl; [discriminate|].
  destruct (Ascii.eqb c LF); [discriminate|]. destruct (split LF r); discriminate.
Qed.

(** [split] followed by [pop] computes [cut]. *)
Lemma pop_split (s : string) : pop (split LF s) = cut s.
Proof.
  induction s as [|c r IH]; [reflexivity|].
  simpl. destruct (Ascii.eqb c LF).
  - pose proof (split_nonempty r) as Hne.
    destruct (split LF r) as [|p ps]; [contradiction|].
    change (pop ("" :: p :: ps)) with (let '(i, z) := pop (p :: ps) in ("" :: i, z)).
    rewrite IH. now destruct (cut r).
  - pose proof (split_nonempty r) as Hne.
    destruct (split LF r) as [|p ps]; [contradiction|].
    destruct ps as [|q qs].
    + simpl in IH. rewrite <- IH. reflexivity.
    + change (pop (String c p :: q :: qs))
        with (let '(i, z) := pop (q :: qs) in (String c p :: i, z)).
      change (pop (p :: q :: qs))
        with (let '(i, z) := pop (q :: qs) in (p :: i, z)) in IH.
      destruct (pop (q :: qs)) as [i z]. rewrite <- IH. reflexivity.
Qed.

(** The lines of a text given in two parts: those of the first part, then
    those of its remainder followed by the second part. *)
Lemma cut_app (a b : string) :
  cut (a +:+ b)
  = let '(l1, z1) := cut a in
    let '(l2, z2) := cut (z1 +:+ b) in
    (l1 ++ l2, z2).
Proof.
  induction a as [|c a IH].
  - simpl. rewrite append_nil_l. now destruct (cut b).
  - rewrite append_cons. simpl. rewrite IH.
    destruct (cut a) as [l1 z1]. destruct (Ascii.eqb c LF) eqn:E.
    + destruct (cut (z1 +:+ b)) as [l2 z2]. reflexivity.
    + destruct l1 as [|l l1].
      * rewrite append_cons. simpl. rewrite E.
        destruct (cut (z1 +:+ b)) as [[|l l2] z2]; reflexivity.
      * destruct (cut (z1 +:+ b)) as [l2 z2]. reflexivity.
Qed.

End StringFacts.

Section Chunking.
Import JS OpenCode.

Context {S : Type}.
Variable buffer : S -> string.
Variable setBuffer : string -> S -> S.
Variable process : string -> S -> S.

(** The buffer is a variable of its own, which processing a line neither
    reads nor writes. *)
Hypothesis buffer_set : ∀ b s, buffer (setBuffer b s) = b.
Hypothesis set_set : ∀ b b' s, setBuffer b (setBuffer b' s) = setBuffer b s.
Hypothesis set_buffer : ∀ s, setBuffer (buffer s) s = s.
Hypothesis process_set : ∀ l b s, process l (setBuffer b s) = setBuffer b (process l s).

Local Abbreviation feed := (feed buffer setBuffer process).
Local Abbreviation processAll :=
  (fun lines st => fold_left (fun acc line => process line acc) lines st).

Lemma processAll_set (lines : list string) (b : string) (s : S) :
  processAll lines (setBuffer b s) = setBuffer b (processAll lines s).
Proof.
  revert s. induction lines as [|l lines IH]; intros s; simpl; [reflexivity|].
  now rewrite process_set, IH.
Qed.

Lemma processAll_buffer (lines : list string) (s : S) :
  buffer (processAll lines s) = buffer s.
Proof.
  rewrite <- (set_buffer s) at 1. now rewrite processAll_set, buffer_set.
Qed.

(** Feeding a text in two chunks, cut anywhere, is feeding it at once:
    lines are processed when their line feed has arrived, and only then. *)
Lemma feed_app (x y : string) (st : S) :
  feed y (feed x st) = feed (x +:+ y) st.
Proof.
  unfold OpenCode.feed.
  rewrite (pop_split (buffer st +:+ x +:+ y)).
  rewrite <- (append_assoc (buffer st) x y), (cut_app (buffer st +:+ x) y).
  rewrite (pop_split (buffer st +:+ x)).
  destruct (cut (buffer st +:+ x)) as [l1 z1].
  rewrite processAll_buffer, buffer_set, pop_split.
  destruct (cut (z1 +:+ y)) as [l2 z2].
  now rewrite fold_left_app, <- processAll_set, set_set.
Qed.

(** A chunk without line feed is only appended to the buffer. *)
Lemma feed_partial (x : string) (st : S) :
  cut (buffer st +:+ x) = ([], buffer st +:+ x) ->
  feed x st = setBuffer (buffer st +:+ x) st.
Proof. intros H. unfold OpenCode.feed. now rewrite pop_split, H. Qed.

End Chunking.

Section NormalizedChunks.
Import JS.

(** Characters of a line of JSON as an agent prints it: no carriage
    return, no line feed and no escape character. *)
Definition isLineChar (c : ascii) : bool :=
  negb (Ascii.eqb c CR) && negb (Ascii.eqb c LF) && negb (Ascii.eqb c ESC).

Fixpoint isLine (s : string) : bool :=
  match s with
  | "" => true
  | String c r => isLineChar c && isLine r
  end.

(** Texts made of such lines: line feeds are allowed. *)
Fixpoint isLines (s : string) : bool :=
  match s with
  | "" => true
  | String c r => negb (Ascii.eqb c CR) && negb (Ascii.eqb c ESC) && isLines r
  end.

Lemma isLine_isLines (s : string) : isLine s = true -> isLines s = true.
Proof.
  induction s as [|c s IH]; [reflexivity|]. simpl. unfold isLineChar.
  intros H. repeat (apply andb_true_iff in H as [H ?]).
  rewrite IH by assumption. now rewrite H, H1.
Qed.

Lemma isLine_app (s t : string) : isLine (s +:+ t) = isLine s && isLine t.
Proof.
  induction s as [|c s IH]; [reflexivity|].
  rewrite append_cons. simpl. now rewrite IH, andb_assoc.
Qed.

Lemma isLines_app_nl (s : string) : isLines s = true -> isLines (s +:+ nl) = true.
Proof.
  induction s as [|c s IH]; [reflexivity|]. rewrite append_cons. simpl.
  intros H. apply andb_true_iff in H as [H Hs]. now rewrite H, IH.
Qed.

Lemma crlfToLf_cons (c : ascii) (s : string) :
  Ascii.eqb c CR = false -> Text.crlfToLf (String c s) = String c (Text.crlfToLf s).
Proof. intros H. destruct s as [|d s']; [reflexivity|]. simpl. now rewrite H. Qed.

Lemma crlfToLf_lines (s : string) : isLines s = true -> Text.crlfToLf s = s.
Proof.
  induction s as [|c s IH]; [reflexivity|]. intros H.
  simpl in H. apply andb_true_iff in H as [H Hs]. apply andb_true_iff in H as [Hc He].
  apply negb_true_iff in Hc. now rewrite crlfToLf_cons, IH.
Qed.

Lemma crToLf_lines (s : string) : isLines s = true -> Text.crToLf s = s.
Proof.
  induction s as [|c s IH]; [reflexivity|]. intros H.
  simpl in H. apply andb_true_iff in H as [H Hs]. apply andb_true_iff in H as [Hc He].
  simpl. apply negb_true_iff in Hc. now rewrite Hc, IH.
Qed.

Lemma overwritePre_lines (s acc : string) :
  isLines s = true -> Text.overwritePre acc s = acc +:+ s.
Proof.
  revert acc. induction s as [|c s IH]; intros acc H.
  - simpl. now rewrite append_nil_r.
  - simpl in H. apply andb_true_iff in H as [H Hs]. apply andb_true_iff in H as [Hc He].
    apply negb_true_iff in Hc. simpl. rewrite Hc.
    destruct (Ascii.eqb c LF) eqn:E.
    + apply Ascii.eqb_eq in E. subst c. now rewrite IH.
    + rewrite IH by assumption. now rewrite append_assoc.
Qed.

Lemma stripAnsi_lines (s : string) : isLines s = true -> Text.stripAnsi s = s.
Proof.
  unfold Text.stripAnsi. induction s as [|c s IH]; [reflexivity|]. intros H.
  simpl in H. apply andb_true_iff in H as [H Hs]. apply andb_true_iff in H as [Hc He].
  apply negb_true_iff in He. simpl. now rewrite He, IH.
Qed.

Lemma collapse_line (s : string) (run : nat) :
  isLine s = true -> Text.collapseFrom run s = s.
Proof.
  revert run. induction s as [|c s IH]; intros run H; [reflexivity|].
  simpl in H. apply andb_true_iff in H as [H Hs]. unfold isLineChar in H.
  apply andb_true_iff in H as [H He]. apply andb_true_iff in H as [Hc Hl].
  apply negb_true_iff in Hl. simpl. now rewrite Hl, IH.
Qed.

Lemma collapse_line_nl (s : string) :
  isLine s = true -> Text.collapseFrom 0 (s +:+ nl) = s +:+ nl.
Proof.
  assert (Hgen : ∀ run, (run < 2)%nat → isLine s = true →
                        Text.collapseFrom run (s +:+ nl) = s +:+ nl).
  { induction s as [|c s IH]; intros run Hrun H.
    - rewrite append_nil_l. unfold nl. simpl.
      destruct run as [|[|run]]; [reflexivity|reflexivity|lia].
    - simpl in H. apply andb_true_iff in H as [H Hs]. unfold isLineChar in H.
      apply andb_true_iff in H as [H He]. apply andb_true_iff in H as [Hc Hl].
      apply negb_true_iff in Hl. rewrite append_cons. simpl. rewrite Hl.
      now rewrite IH by (lia || assumption). }
  apply Hgen. lia.
Qed.

Lemma cut_line (s : string) : isLine s = true -> cut s = ([], s).
Proof.
  induction s as [|c s IH]; [reflexivity|]. intros H.
  simpl in H. apply andb_true_iff in H as [H Hs]. unfold isLineChar in H.
  apply andb_true_iff in H as [H He]. apply andb_true_iff in H as [Hc Hl].
  apply negb_true_iff in Hl. simpl. now rewrite IH, Hl.
Qed.

Lemma cut_line_nl (s : string) : isLine s = true -> cut (s +:+ nl) = ([s], "").
Proof.
  induction s as [|c s IH]; [reflexivity|]. intros H.
  simpl in H. apply andb_true_iff in H as [H Hs]. unfold isLineChar in H.
  apply andb_true_iff in H as [H He]. apply andb_true_iff in H as [Hc Hl].
  apply negb_true_iff in Hl. rewrite append_cons. simpl. now rewrite IH, Hl.
Qed.

(** The chunk normalisations of the runners leave such texts alone. *)
Lemma opencode_normalizeChunk_line (plainLogs : bool) (s : string) :
  isLine s = true ->
  OpenCode.normalizeChunk plainLogs s = s
  ∧ OpenCode.normalizeChunk plainLogs (s +:+ nl) = s +:+ nl.
Proof.
  intros H. pose proof (isLine_isLines s H) as Hs.
  pose proof (isLines_app_nl s Hs) as Hn.
  unfold OpenCode.normalizeChunk, Text.overwriteCarriageReturns, Text.collapseNewlines.
  rewrite !crlfToLf_lines, !crToLf_lines, !overwritePre_lines, !append_nil_l by assumption.
  destruct plainLogs; rewrite ?stripAnsi_lines by assumption;
    now rewrite collapse_line, collapse_line_nl.
Qed.

Lemma kimi_normalizeChunk_line (plainLogs : bool) (s : string) :
  isLine s = true ->
  normalizeChunk s plainLogs = s ∧ normalizeChunk (s +:+ nl) plainLogs = s +:+ nl.
Proof.
  intros H. pose proof (isLine_isLines s H) as Hs.
  pose proof (isLines_app_nl s Hs) as Hn.
  unfold normalizeChunk.
  rewrite !crlfToLf_lines, !crToLf_lines by assumption.
  destruct plainLogs; now rewrite ?stripAnsi_lines by assumption.
Qed.

End NormalizedChunks.

Section OpenCodeChunks.
Import JS OpenCode.

Variable formatCommand : string -> commandStatus -> string.
Variable formatResult : string -> bool -> string.
Variable formatStatus : string -> string.
Variable formatStepEvent : string -> jsval -> string.
Variable Capture : Type.
Variable captureFromStreamJson : string -> Capture -> Capture.
Variable getCaptured : Capture -> option Captured.
Variable plainLogs hasOnTelemetry childKillable : bool.

Local Abbreviation state := (OpenCode.state Capture).
Local Abbreviation processLine :=
  (processLine formatCommand formatResult formatStatus formatStepEvent Capture
     captureFromStreamJson getCaptured plainLogs hasOnTelemetry childKillable).
Local Abbreviation onStdout :=
  (onStdout formatCommand formatResult formatStatus formatStepEvent Capture
     captureFromStreamJson getCaptured plainLogs hasOnTelemetry childKillable).
Local Abbreviation setJsonBuffer := (setJsonBuffer Capture).
Local Abbreviation jsonBuffer := (jsonBuffer Capture).
Local Abbreviation crashed := (crashed Capture).

(** [processLine] neither reads nor writes [jsonBuffer]. *)
Lemma processLine_setJsonBuffer (line b : string) (st : state) :
  processLine line (setJsonBuffer b st) = setJsonBuffer b (processLine line st).
Proof.
  destruct st as [buf snap last pend cap cr em].
  unfold OpenCode.processLine, OpenCode.setJsonBuffer, textEvent, permissionEvent,
    emitFormatted, emit, telemetry.
  cbn [OpenCode.jsonBuffer OpenCode.lastTextSnapshot OpenCode.lastParagraph
       OpenCode.pendingPermissionError OpenCode.capture OpenCode.crashed
       OpenCode.emitted].
  repeat match goal with
         | |- context [match ?x with _ => _ end] =>
             destruct x eqn:?;
             cbn [OpenCode.jsonBuffer OpenCode.lastTextSnapshot OpenCode.lastParagraph
                  OpenCode.pendingPermissionError OpenCode.capture OpenCode.crashed
                  OpenCode.emitted]
         end; reflexivity.
Qed.

Lemma setJsonBuffer_facts :
  (∀ b (st : state), jsonBuffer (setJsonBuffer b st) = b)
  ∧ (∀ b b' (st : state), setJsonBuffer b (setJsonBuffer b' st) = setJsonBuffer b st)
  ∧ (∀ st : state, setJsonBuffer (jsonBuffer st) st = st).
Proof. repeat split; intros; try reflexivity. now destruct st. Qed.

(** [onStdout] of [runOpenCode] on a text that arrives in two chunks, cut
    anywhere: unless an exception escaped while the first chunk was
    handled, the result is the one of the whole text. *)
Lemma opencode_chunks_join (x y : string) (st : state) :
  normalizeChunk plainLogs (x +:+ y)
  = normalizeChunk plainLogs x +:+ normalizeChunk plainLogs y ->
  crashed (onStdout x st) = false ->
  onStdout y (onStdout x st) = onStdout (x +:+ y) st.
Proof.
  intros Hnorm Hok.
  destruct setJsonBuffer_facts as (H1 & H2 & H3).
  assert (Hst : crashed st = false).
  { destruct (crashed st) eqn:E; [|reflexivity].
    unfold OpenCode.onStdout in Hok. rewrite E in Hok. congruence. }
  unfold OpenCode.onStdout in *. rewrite Hst in *. rewrite Hok, Hnorm.
  apply (feed_app (OpenCode.jsonBuffer Capture) (OpenCode.setJsonBuffer Capture));
    auto using processLine_setJsonBuffer.
Qed.

(** The stdout handler of [runOpenCode] buffers partial lines: a line
    that arrives in two chunks, cut inside the line, is processed once, when
    its line feed has arrived, as if it had arrived in one chunk. *)
Lemma opencode_split_line (a b : string) (st : state) :
  isLine (a +:+ b) = true ->
  isLine (jsonBuffer st) = true ->
  crashed st = false ->
  onStdout a st = setJsonBuffer (jsonBuffer st +:+ a) st
  ∧ onStdout (b +:+ nl) (onStdout a st) = onStdout (a +:+ b +:+ nl) st
  ∧ onStdout (a +:+ b +:+ nl) st
    = processLine (jsonBuffer st +:+ a +:+ b) (setJsonBuffer "" st).
Proof.
  intros Hline Hbuf Hst.
  rewrite isLine_app in Hline. apply andb_true_iff in Hline as [Ha Hb].
  destruct (opencode_normalizeChunk_line plainLogs a Ha) as [Hna _].
  destruct (opencode_normalizeChunk_line plainLogs b Hb) as [_ Hnb].
  assert (Hab : isLine (a +:+ b) = true) by (rewrite isLine_app; now rewrite Ha, Hb).
  destruct (opencode_normalizeChunk_line plainLogs (a +:+ b) Hab) as [_ Hnab].
  rewrite append_assoc in Hnab.
  assert (Hfirst : onStdout a st = setJsonBuffer (jsonBuffer st +:+ a) st).
  { unfold OpenCode.onStdout. rewrite Hst, Hna.
    apply feed_partial. apply cut_line. rewrite isLine_app. now rewrite Hbuf, Ha. }
  split; [exact Hfirst|]. split.
  - apply opencode_chunks_join.
    + now rewrite Hnab, Hna, Hnb.
    + rewrite Hfirst. exact Hst.
  - unfold OpenCode.onStdout. rewrite Hst, Hnab. unfold feed.
    rewrite pop_split, <- !append_assoc.
    rewrite cut_line_nl by (rewrite !isLine_app; now rewrite Hbuf, Ha, Hb).
    reflexivity.
Qed.

End OpenCodeChunks.

Section KimiChunks.
Import JS Val.

Variable formatCommand : string -> commandStatus -> string.
Variable formatResult : string -> bool -> string.
Variable formatStatus : string -> string.
Variable formatThinking : string -> string.
Variable runRequestId : string.

Local Abbreviation wline := (wireLine formatCommand formatResult formatStatus runRequestId).
Local Abbreviation drain := (drainLines formatCommand formatResult formatStatus runRequestId).
Local Abbreviation wstdout :=
  (wireOnStdout formatCommand formatResult formatStatus runRequestId).

Definition setBuffer (b : string) (st : WireState) : WireState :=
  {| buffer := b; toolNames := toolNames st; child := child st |}.

(** [processLine] of the wire runner neither reads nor writes the buffer. *)
Lemma wireLine_setBuffer (line b : string) (st : WireState) :
  wline line (setBuffer b st) = (setBuffer b (fst (wline line st)), snd (wline line st)).
Proof.
  destruct st as [buf names ch]. unfold wireLine, setBuffer.
  cbn [buffer toolNames child].
  repeat match goal with
         | |- context [match ?x with _ => _ end] => destruct x eqn:?
         end; reflexivity.
Qed.

(** Characters before the next line feed only extend the pending line. *)
Lemma drainLines_line (p s q : string) (st : WireState) :
  isLine p = true -> drain q (p +:+ s) st = drain (q +:+ p) s st.
Proof.
  revert q. induction p as [|c p IH]; intros q H.
  - now rewrite append_nil_l, append_nil_r.
  - simpl in H. apply andb_true_iff in H as [H Hp]. unfold isLineChar in H.
    apply andb_true_iff in H as [H He]. apply andb_true_iff in H as [Hc Hl].
    apply negb_true_iff in Hl. rewrite append_cons. simpl. rewrite Hl.
    rewrite IH by assumption. now rewrite append_assoc.
Qed.

(** A chunk without line feed is only appended to the buffer. *)
Lemma wire_partial (plainLogs : bool) (a : string) (st : WireState) :
  isLine a = true ->
  isLine (buffer st) = true ->
  wstdout plainLogs a st = (setBuffer (buffer st +:+ a) st, []).
Proof.
  intros Ha Hbuf. destruct (kimi_normalizeChunk_line plainLogs a Ha) as [Hna _].
  unfold wireOnStdout. rewrite Hna.
  pose proof (drainLines_line (buffer st +:+ a) "" "" st) as H.
  rewrite append_nil_r, append_nil_l in H.
  rewrite H by (rewrite isLine_app; now rewrite Hbuf, Ha).
  reflexivity.
Qed.

(** A chunk that completes the line has it processed. *)
Lemma wire_complete (plainLogs : bool) (l : string) (st : WireState) :
  isLine l = true ->
  isLine (buffer st) = true ->
  wstdout plainLogs (l +:+ nl) st
  = (setBuffer "" (fst (wline (trim (buffer st +:+ l)) st)),
     snd (wline (trim (buffer st +:+ l)) st)).
Proof.
  intros Hl Hbuf. destruct (kimi_normalizeChunk_line plainLogs l Hl) as [_ Hn].
  unfold wireOnStdout. rewrite Hn, <- append_assoc.
  pose proof (drainLines_line (buffer st +:+ l) nl "" st) as H.
  rewrite append_nil_l in H.
  rewrite H by (rewrite isLine_app; now rewrite Hbuf, Hl).
  unfold nl. cbn [drainLines].
  replace (Ascii.eqb LF LF) with true by reflexivity.
  destruct (wline (trim (buffer st +:+ l)) st) as [st' out].
  cbn [fst snd]. now rewrite app_nil_r.
Qed.

(** The stdout handler of [runKimiWire] buffers partial lines: a line that
    arrives in two chunks, cut inside the line, is processed once, when its
    line feed has arrived, as if it had arrived in one chunk. *)
Lemma wire_split_line (plainLogs : bool) (a b : string) (st : WireState) :
  isLine (a +:+ b) = true ->
  isLine (buffer st) = true ->
  let first := wstdout plainLogs a st in
  let second := wstdout plainLogs (b +:+ nl) (fst first) in
  snd first = []
  ∧ (fst second, snd first ++ snd second) = wstdout plainLogs ((a +:+ b) +:+ nl) st.
Proof.
  intros Hline Hbuf.
  pose proof Hline as Hab.
  rewrite isLine_app in Hline. apply andb_true_iff in Hline as [Ha Hb].
  cbv zeta. rewrite (wire_partial plainLogs a st Ha Hbuf). cbn [fst snd].
  split; [reflexivity|].
  rewrite (wire_complete plainLogs b (setBuffer (buffer st +:+ a) st) Hb)
    by (cbn [setBuffer buffer]; rewrite isLine_app; now rewrite Hbuf, Ha).
  rewrite (wire_complete plainLogs (a +:+ b) st Hab Hbuf).
  cbn [setBuffer buffer]. rewrite <- append_assoc.
  change {| buffer := buffer st +:+ a; toolNames := toolNames st; child := child st |}
    with (setBuffer (buffer st +:+ a) st).
  rewrite wireLine_setBuffer. cbn [fst snd]. reflexivity.
Qed.

(** *** Print mode *)

(** The line of the assistant record with parts [{type: "text", text: "A"}],
    and the two pieces of it that arrive when a chunk ends inside the line. *)
Definition assistantLine : string :=
  Json.lit "{'role':'assistant','parts':[{'type':'text','text':'A'}]}".
Definition assistantHead : string := Json.lit "{'role':'assistant','par".
Definition assistantTail : string := Json.lit "ts':[{'type':'text','text':'A'}]}".

Lemma assistantLine_pieces : assistantHead +:+ assistantTail = assistantLine.
Proof. reflexivity. Qed.

(** The trace is the one text event "A". *)
Definition isTextA (trace : list effect) : bool :=
  match trace with
  | [OnData chunk] => String.eqb chunk ("A" +:+ nl)
  | _ => false
  end.

(** The positions inside the line at which a chunk can end. *)
Definition cuts : list nat := seq 1 (String.length assistantLine - 1).

(** C1: the stdout handler of [runKimiPrint] keeps no buffer.  The
    assistant record in one chunk gives the one text event "A"; the same
    line in two chunks, cut inside the JSON text, gives no text event: each
    piece is parsed on its own, fails to parse and is forwarded as it is.
    This is so wherever the line is cut. *)
Theorem print_mode_parses_incomplete_chunks (plainLogs : bool) :
  runKimiPrint formatCommand formatResult formatStatus formatThinking plainLogs
    [assistantLine +:+ nl]
  = [OnData ("A" +:+ nl)]
  ∧ runKimiPrint formatCommand formatResult formatStatus formatThinking plainLogs
      [assistantHead; assistantTail +:+ nl]
    = [OnData (assistantHead +:+ nl); OnData (assistantTail +:+ nl)]
  ∧ Json.parse assistantHead = None
  ∧ Json.parse assistantTail = None
  ∧ forallb (fun n =>
               negb (isTextA
                       (runKimiPrint formatCommand formatResult formatStatus
                          formatThinking plainLogs
                          [sliceTo n assistantLine; sliceFrom n assistantLine +:+ nl])))
      cuts = true.
Proof. destruct plainLogs; repeat split; vm_compute; reflexivity. Qed.

End KimiChunks.

(** ** The tests of the repository, replayed on the model *)

Section ReplayedTests.
Import JS.

(** [tests/unit/infra/kimi-runner.spec.ts], "formats print mode JSONL
    output": three records, each in a chunk of its own. *)
Example kimi_print_mode_test :
  let trace :=
    runKimiPrint Plain.formatCommand Plain.formatResult Plain.formatStatus
      Plain.formatThinking false
      [Json.lit "{'role':'assistant','parts':[{'type':'text','text':'hi from kimi'}]}" +:+ nl;
       Json.lit "{'role':'tool','name':'bash','content':'ls -la'}" +:+ nl;
       Json.lit "{'role':'_usage','token_count':{'input':12,'output':5,'cached':2}}" +:+ nl] in
  trace
  = [OnData ("hi from kimi" +:+ nl);
     OnData ("Command: bash" +:+ nl +:+ "> ls -la" +:+ nl);
     OnUsageSnapshot {| tokensIn := Some (int 12); tokensOut := Some (int 5);
                        cached := Some (int 2) |}]
  ∧ telemetryOf trace
    = [{| kTokensIn := int 12; kTokensOut := int 5; kCached := Some (int 2) |}].
Proof. split; reflexivity. Qed.

(** The same file, "maps wire JSON-RPC events to markers and telemetry". *)
Example kimi_wire_mode_test :
  let trace :=
    runKimiWire Plain.formatCommand Plain.formatResult Plain.formatStatus "run-0" false
      openChild
      [Stdout (Json.lit "{'jsonrpc':'2.0','method':'event','params':{'event':{'type':'tool_call','id':'task-1','name':'fetch_url'}}}" +:+ nl);
       Stdout (Json.lit "{'jsonrpc':'2.0','method':'event','params':{'event':{'type':'tool_result','id':'task-1','output':'fetched!'}}}" +:+ nl);
       Stdout (Json.lit "{'jsonrpc':'2.0','method':'status_update','params':{'message':'Context usage update','context_usage':{'token_count':{'total':8,'output':3}}}}" +:+ nl)] in
  trace
  = [OnData ("Command: fetch_url" +:+ nl);
     OnData ("Command: fetch_url" +:+ nl +:+ "> fetched!" +:+ nl);
     OnData ("[status] Context usage update" +:+ nl);
     OnUsageSnapshot {| tokensIn := Some (int 8); tokensOut := Some (int 3);
                        cached := None |}]
  ∧ telemetryOf trace
    = [{| kTokensIn := int 8; kTokensOut := int 3; kCached := None |}].
Proof. split; reflexivity. Qed.

(** [tests/unit/runtime/opencode-permissions.spec.ts], "adds allow entry
    for standard capability". *)
Example opencode_policy_edit_test :
  let request :=
    {| engine := "opencode"; id := None; title := None;
       capability := Some (JStr "edit"); pattern := None; path := None;
       metadata := None; raw := None |} in
  let update :=
    Policy.buildOpenCodePermissionUpdate ∅ request
      (Some {[ "OPENCODE_PERMISSION" := Json.lit "{'webfetch':'deny'}" ]}) in
  let policy :=
    (update ≫= (fun u => Policy.envDelta u !! "OPENCODE_PERMISSION")) ≫= Json.parse in
  (policy ≫= Val.field "edit") = Some (JStr "allow")
  ∧ (policy ≫= Val.field "webfetch") = Some (JStr "deny").
Proof. split; reflexivity. Qed.

(** The same file, "merges bash pattern rules". *)
Example opencode_policy_bash_test :
  let update :=
    Policy.buildOpenCodePermissionUpdate ∅ lsRequest
      (Some {[ "OPENCODE_PERMISSION" := denyAllBash ]}) in
  let policy :=
    (update ≫= (fun u => Policy.envDelta u !! "OPENCODE_PERMISSION")) ≫= Json.parse in
  (bashOf policy ≫= Val.field "ls -la") = Some (JStr "allow")
  ∧ (bashOf policy ≫= Val.field "*") = Some (JStr "deny").
Proof. split; reflexivity. Qed.

End ReplayedTests.

(** ** Duplicate paragraphs, in general *)

Section ResentParagraph.
Import JS OpenCode.

Variable Capture : Type.
Variable plainLogs : bool.

(** A paragraph on one line: not empty, no space at either end, and only
    characters of a line. *)
Definition isParagraph (p : string) : Prop :=
  p ≠ "" ∧ trim p = p ∧ isLine p = true.

Lemma isLine_head (c : ascii) (p : string) :
  isLine (String c p) = true -> Ascii.eqb c LF = false ∧ isLine p = true.
Proof.
  simpl. unfold isLineChar. intros H.
  apply andb_true_iff in H as [H Hp]. apply andb_true_iff in H as [H He].
  apply andb_true_iff in H as [Hc Hl]. apply negb_true_iff in Hl. auto.
Qed.

Lemma isLines_app (s t : string) : isLines (s +:+ t) = isLines s && isLines t.
Proof.
  induction s as [|c s IH]; [reflexivity|].
  rewrite append_cons. simpl. now rewrite IH, andb_assoc.
Qed.

Lemma splitParagraphs_line (p : string) :
  isLine p = true -> Text.splitParagraphs p = [p].
Proof.
  unfold Text.splitParagraphs. induction p as [|c p IH]; intros H; [reflexivity|].
  apply isLine_head in H as [Hc Hp]. simpl. rewrite Hc, IH by assumption. reflexivity.
Qed.

Lemma splitParagraphs_separator (r rest : string) (n : nat) :
  Text.lfRun r = (S n, rest) ->
  Text.splitParagraphsFrom 0 (String LF r)
  = "" :: Text.repeatLf (S (S n)) :: Text.splitParagraphsFrom (S n) r.
Proof.
  intros H. change (Text.splitParagraphsFrom 0 (String LF r))
    with (let cons_char :=
            match Text.splitParagraphsFrom 0 r with
            | p :: ps => String LF p :: ps
            | [] => [String LF ""]
            end in
          if Ascii.eqb LF LF then
            let '(n, _) := Text.lfRun r in
            match n with
            | O => cons_char
            | S _ => "" :: Text.repeatLf (S n) :: Text.splitParagraphsFrom n r
            end
          else cons_char).
  cbv zeta. rewrite H. reflexivity.
Qed.

Lemma splitParagraphs_resent (p : string) :
  p ≠ "" -> isLine p = true ->
  Text.splitParagraphs (nl +:+ nl +:+ p) = [""; nl +:+ nl; p].
Proof.
  intros Hne H. destruct p as [|c p]; [contradiction|].
  pose proof (splitParagraphs_line _ H) as Hsplit.
  apply isLine_head in H as [Hc Hp].
  unfold Text.splitParagraphs in *. unfold nl. rewrite !append_cons, !append_nil_l.
  rewrite (splitParagraphs_separator (String LF (String c p)) (String c p) 0).
  - change (Text.splitParagraphsFrom 1 (String LF (String c p)))
      with (Text.splitParagraphsFrom 0 (String c p)).
    now rewrite Hsplit.
  - change (Text.lfRun (String LF (String c p)))
      with (let '(n, rest) := Text.lfRun (String c p) in (S n, rest)).
    cbn [Text.lfRun]. now rewrite Hc.
Qed.

Lemma prefix_app (p s : string) : String.prefix p (p +:+ s) = true.
Proof.
  induction p as [|c p IH]; [now destruct s|].
  rewrite append_cons. simpl. destruct (ascii_dec c c); [exact IH|contradiction].
Qed.

Lemma sliceFrom_app (p s : string) : sliceFrom (String.length p) (p +:+ s) = s.
Proof. induction p as [|c p IH]; [now destruct s|]. rewrite append_cons. exact IH. Qed.

Lemma eqb_app_longer (p s : string) : s ≠ "" -> String.eqb (p +:+ s) p = false.
Proof.
  intros Hs. induction p as [|a p IH]; [now destruct s|].
  rewrite append_cons. simpl. now destruct (Ascii.eqb a a).
Qed.

Lemma ensureNewline_line (p : string) : isLine p = true -> ensureNewline p = p +:+ nl.
Proof.
  intros H. unfold ensureNewline.
  replace (endsWithChar p LF) with false; [reflexivity|].
  symmetry. induction p as [|c p IH]; [reflexivity|].
  apply isLine_head in H as [Hc Hp]. simpl. destruct p; [exact Hc|]. now apply IH.
Qed.

Lemma delta_of_resent (p : string) :
  p ≠ "" ->
  computeTextDelta p (p +:+ nl +:+ nl +:+ p)
  = (nl +:+ nl +:+ p, p +:+ nl +:+ nl +:+ p).
Proof.
  intros Hne. unfold computeTextDelta, startsWith.
  destruct p as [|c p]; [contradiction|]. cbn [JS.truthy negb].
  rewrite eqb_app_longer, prefix_app, sliceFrom_app; [reflexivity|].
  unfold nl. rewrite append_cons. discriminate.
Qed.

Lemma first_paragraph_kept (p : string) :
  isParagraph p -> removeDuplicateParagraphs p "" = (p, p).
Proof.
  intros (Hne & Htrim & Hline). unfold removeDuplicateParagraphs.
  rewrite splitParagraphs_line, Htrim by assumption.
  destruct p as [|c p]; [contradiction|]. reflexivity.
Qed.

Lemma resent_paragraph_dropped (p : string) :
  isParagraph p -> removeDuplicateParagraphs (nl +:+ nl +:+ p) p = (nl +:+ nl, p).
Proof.
  intros (Hne & Htrim & Hline). unfold removeDuplicateParagraphs.
  rewrite splitParagraphs_resent by assumption.
  unfold nl at 1. rewrite append_cons. cbn [JS.truthy negb dedupSegments].
  replace (trim "") with "" by reflexivity. cbn [JS.truthy negb].
  rewrite Htrim, String.eqb_refl.
  destruct p as [|c p]; [contradiction|]. cbn [JS.truthy negb].
  now rewrite !append_nil_l.
Qed.

(** A paragraph sent once, then sent again after what was sent before, as
    an engine that resends the transcript does, reaches the output once:
    the second event emits only the blank line between the two copies. *)
Lemma resent_paragraph_emitted_once (c : Capture) (p : string) :
  isParagraph p ->
  let st1 := textEvent Capture plainLogs (textPart p) (initial Capture c) in
  let st2 := textEvent Capture plainLogs (textPart (p +:+ nl +:+ nl +:+ p)) st1 in
  emitted Capture st1 = [OpenCode.OnData (p +:+ nl)]
  ∧ emitted Capture st2 = [OpenCode.OnData (p +:+ nl); OpenCode.OnData (nl +:+ nl)].
Proof.
  intros Hp. pose proof Hp as (Hne & Htrim & Hline).
  assert (Hclean : cleanAnsi p plainLogs = p).
  { unfold cleanAnsi. destruct plainLogs; [|reflexivity].
    now apply stripAnsi_lines, isLine_isLines. }
  assert (Hclean2 : cleanAnsi (p +:+ nl +:+ nl +:+ p) plainLogs = p +:+ nl +:+ nl +:+ p).
  { unfold cleanAnsi. destruct plainLogs; [|reflexivity].
    apply stripAnsi_lines. rewrite !isLines_app.
    now rewrite (isLine_isLines p Hline). }
  assert (Htruthy : JS.truthy p = true) by (destruct p; [contradiction|reflexivity]).
  assert (H1 : textEvent Capture plainLogs (textPart p) (initial Capture c)
               = {| jsonBuffer := ""; lastTextSnapshot := p; lastParagraph := p;
                    pendingPermissionError := None; capture := c; crashed := false;
                    emitted := [OpenCode.OnData (p +:+ nl)] |}).
  { unfold textEvent, textPart. cbn [Val.field_opt Val.field Obj.get].
    replace (String.eqb "text" "text") with true by reflexivity.
    rewrite Hclean, Htruthy.
    cbn [initial OpenCode.lastTextSnapshot OpenCode.lastParagraph].
    rewrite delta_of_first_snapshot, first_paragraph_kept by assumption.
    unfold emitFormatted, emit. rewrite Htruthy.
    now rewrite ensureNewline_line. }
  cbv zeta. rewrite H1. split; [reflexivity|].
  unfold textEvent, textPart. cbn [Val.field_opt Val.field Obj.get].
  replace (String.eqb "text" "text") with true by reflexivity.
  rewrite Hclean2.
  replace (JS.truthy (p +:+ nl +:+ nl +:+ p)) with true
    by (destruct p; [contradiction|reflexivity]).
  cbn [OpenCode.lastTextSnapshot OpenCode.lastParagraph].
  rewrite delta_of_resent, resent_paragraph_dropped by assumption.
  reflexivity.
Qed.

End ResentParagraph.

(** ** Nested events (Kimi wire mode) *)

Section NestedEvents.
Import JS Val.

Variable formatCommand : string -> commandStatus -> string.
Variable formatResult : string -> bool -> string.
Variable formatStatus : string -> string.

Local Abbreviation handle' := (handleWireEvent formatCommand formatResult formatStatus).

Lemma depth_positive (v : json) : (1 <= depth v)%nat.
Proof. destruct v; simpl; lia. Qed.

Lemma depth_get (k : string) (o : Obj.t) (v : json) :
  Obj.get k o = Some v -> (depth v < depth (JObj o))%nat.
Proof.
  simpl. induction o as [|[k' v'] o IH]; simpl; [discriminate|].
  destruct (String.eqb k k').
  - intros H. inversion H. subst. lia.
  - intros H. specialize (IH H). lia.
Qed.

(** The event inside a [subagent_event] is less deep than the event. *)
Lemma depth_nested (event nested : json) :
  asObject (field "event" event) = Some nested -> (depth nested < depth event)%nat.
Proof.
  destruct event as [| | | | |o]; try discriminate. cbn [field].
  destruct (Obj.get "event" o) as [v|] eqn:E; [|discriminate].
  unfold asObject. destruct (truthy (Some v)) eqn:Et.
  - destruct v; try discriminate; intros H; inversion H; subst;
      now apply (depth_get "event").
  - discriminate.
Qed.

(** [handleWireEvent] does not depend on its fuel once the fuel covers
    the depth of the event: [handleEvent] is the function of the source. *)
Lemma handleWireEvent_fuel (n m : nat) (event : json) (names : gmap string string)
    (prefix : option string) :
  (depth event <= n)%nat ->
  (depth event <= m)%nat ->
  handle' n (Some event) names prefix = handle' m (Some event) names prefix.
Proof.
  revert m event prefix.
  induction n as [|n IH]; intros m event prefix Hn Hm.
  - pose proof (depth_positive event). lia.
  - destruct m as [|m]; [pose proof (depth_positive event); lia|].
    cbn [handleWireEvent].
    repeat match goal with
           | |- context [match ?x with _ => _ end] =>
               lazymatch x with
               | truthy (asObject (field "event" event)) => fail
               | _ => destruct x eqn:?
               end
           end; try reflexivity.
    all: destruct (asObject (field "event" event)) as [nested|] eqn:En; [|reflexivity].
    all: pose proof (depth_nested event nested En) as Hlt.
    all: destruct (truthy (Some nested)); [|reflexivity].
    all: apply IH; lia.
Qed.

Lemma handleEvent_fuel (fuel : nat) (event : json) (names : gmap string string)
    (prefix : option string) :
  (depth event <= fuel)%nat ->
  handle' fuel (Some event) names prefix
  = handleEvent formatCommand formatResult formatStatus (Some event) names prefix.
Proof. intros H. unfold handleEvent. now apply handleWireEvent_fuel. Qed.

End NestedEvents.

(** ** Chunk boundaries (wire mode and OpenCode) *)

Section Scanning.
Import JS.

Context {S : Type}.
Variable process : string -> S -> S.

(** Blank lines are skipped by the line processor. *)
Hypothesis process_empty : ∀ st, process "" st = st.

(** A text read character by character: [pending] is the line read so
    far, a line feed has it processed. *)
Fixpoint scan (pending s : string) (st : S) : string * S :=
  match s with
  | "" => (pending, st)
  | String c r =>
      if Ascii.eqb c LF then scan "" r (process pending st)
      else scan (pending +:+ String c "") r st
  end.

Lemma scan_app (p s t : string) (st : S) :
  scan p (s +:+ t) st = let '(p', st') := scan p s st in scan p' t st'.
Proof.
  revert p st. induction s as [|c s IH]; intros p st; [reflexivity|].
  rewrite append_cons. simpl. destruct (Ascii.eqb c LF); apply IH.
Qed.

(** Scanning computes the lines of [cut]. *)
Lemma scan_cut (s p : string) (st : S) :
  scan p s st
  = match cut s with
    | ([], z) => (p +:+ z, st)
    | (l :: ls, z) =>
        (z, fold_left (fun acc line => process line acc) ls (process (p +:+ l) st))
    end.
Proof.
  revert p st. induction s as [|c s IH]; intros p st.
  - simpl. now rewrite append_nil_r.
  - simpl. destruct (Ascii.eqb c LF) eqn:E.
    + rewrite IH. destruct (cut s) as [[|l ls] z]; simpl.
      * now rewrite append_nil_r.
      * now rewrite append_nil_r.
    + rewrite IH. destruct (cut s) as [[|l ls] z]; simpl;
        now rewrite append_assoc.
Qed.

(** Two texts that every scan reads alike. *)
Definition alike (s t : string) : Prop := ∀ p st, scan p s st = scan p t st.

Lemma alike_app (s s' t t' : string) :
  alike s s' -> alike t t' -> alike (s +:+ t) (s' +:+ t').
Proof.
  intros Hs Ht p st. rewrite !scan_app, Hs. destruct (scan p s' st). apply Ht.
Qed.

(** Carriage returns: [\r\n] read as one line feed or as two. *)
Lemma crlf_alike (s : string) : alike (Text.crToLf (Text.crlfToLf s)) (Text.crToLf s).
Proof.
  assert (H : ∀ n s, (String.length s <= n)%nat →
                     alike (Text.crToLf (Text.crlfToLf s)) (Text.crToLf s)).
  { clear s. induction n as [|n IH]; intros s Hlen.
    - destruct s; [intros p st; reflexivity|simpl in Hlen; lia].
    - destruct s as [|c [|d r]]; try (intros p st; reflexivity).
      simpl in Hlen.
      destruct (Ascii.eqb c CR && Ascii.eqb d LF) eqn:E.
      + apply andb_true_iff in E as [Ec Ed].
        apply Ascii.eqb_eq in Ec, Ed. subst c d.
        assert (Hr : alike (Text.crToLf (Text.crlfToLf r)) (Text.crToLf r))
          by (apply IH; lia).
        intros p st.
        change (Text.crlfToLf (String CR (String LF r))) with (String LF (Text.crlfToLf r)).
        change (Text.crToLf (String LF (Text.crlfToLf r)))
          with (String LF (Text.crToLf (Text.crlfToLf r))).
        change (Text.crToLf (String CR (String LF r)))
          with (String LF (String LF (Text.crToLf r))).
        cbn [scan]. replace (Ascii.eqb LF LF) with true by reflexivity.
        rewrite process_empty. apply Hr.
      + assert (Hr : alike (Text.crToLf (Text.crlfToLf (String d r)))
                           (Text.crToLf (String d r)))
          by (apply IH; simpl; lia).
        intros p st.
        replace (Text.crlfToLf (String c (String d r)))
          with (String c (Text.crlfToLf (String d r)))
          by (cbn [Text.crlfToLf]; now rewrite E).
        cbn [Text.crToLf scan] in *.
        destruct (Ascii.eqb (if Ascii.eqb c CR then LF else c) LF); apply Hr. }
  apply (H (String.length s)). lia.
Qed.

(** Runs of line feeds: shortening a run to two line feeds leaves blank
    lines out. *)
Lemma collapse_alike (s : string) : alike (Text.collapseNewlines s) s.
Proof.
  assert (H : ∀ s run p st, ((1 <= run)%nat → p = "") →
                            scan p (Text.collapseFrom run s) st = scan p s st).
  { clear s. induction s as [|c s IH]; intros run p st Hp; [reflexivity|].
    cbn [Text.collapseFrom]. destruct (Ascii.eqb c LF) eqn:E.
    - destruct (run <? 2)%nat eqn:R.
      + cbn [scan]. rewrite E. apply IH. reflexivity.
      + apply Nat.ltb_ge in R. rewrite (Hp ltac:(lia)).
        cbn [scan]. rewrite E, process_empty. apply IH. reflexivity.
    - cbn [scan]. rewrite E. apply IH. lia. }
  intros p st. apply H. lia.
Qed.

End Scanning.

Section CarriageReturns.
Import JS.

(** The text holds no carriage return. *)
Fixpoint noCR (s : string) : bool :=
  match s with
  | "" => true
  | String c r => negb (Ascii.eqb c CR) && noCR r
  end.

Lemma crToLf_noCR (s : string) : noCR (Text.crToLf s) = true.
Proof.
  induction s as [|c s IH]; [reflexivity|]. simpl. rewrite IH.
  destruct (Ascii.eqb c CR) eqn:E; [reflexivity|]. now rewrite E.
Qed.

Lemma overwritePre_noCR (s acc : string) :
  noCR s = true -> Text.overwritePre acc s = acc +:+ s.
Proof.
  revert acc. induction s as [|c s IH]; intros acc H.
  - simpl. now rewrite append_nil_r.
  - simpl in H. apply andb_true_iff in H as [Hc Hs].
    apply negb_true_iff in Hc. simpl. rewrite Hc.
    destruct (Ascii.eqb c LF) eqn:E.
    + apply Ascii.eqb_eq in E. subst c. now rewrite IH.
    + rewrite IH by assumption. now rewrite append_assoc.
Qed.

Lemma stripAnsiFrom_noCR (s : string) (skip : nat) :
  noCR s = true -> noCR (Text.stripAnsiFrom skip s) = true.
Proof.
  revert skip. induction s as [|c s IH]; intros skip H; [reflexivity|].
  simpl in H. apply andb_true_iff in H as [Hc Hs]. simpl.
  destruct skip as [|k]; [|now apply IH].
  destruct (Ascii.eqb c ESC).
  - destruct (Text.csiLength s); [now apply IH|]. simpl. now rewrite Hc, IH.
  - simpl. now rewrite Hc, IH.
Qed.

Lemma collapseFrom_noCR (s : string) (run : nat) :
  noCR s = true -> noCR (Text.collapseFrom run s) = true.
Proof.
  revert run. induction s as [|c s IH]; intros run H; [reflexivity|].
  simpl in H. apply andb_true_iff in H as [Hc Hs]. simpl.
  destruct (Ascii.eqb c LF).
  - destruct (run <? 2)%nat; [|now apply IH]. simpl. rewrite IH by assumption.
    reflexivity.
  - simpl. now rewrite Hc, IH.
Qed.

(** No run of three line feeds is left: [run] line feeds precede [s]. *)
Fixpoint shortRuns (run : nat) (s : string) : bool :=
  match s with
  | "" => true
  | String c r =>
      if Ascii.eqb c LF then (run <? 2)%nat && shortRuns (S run) r
      else shortRuns 0 r
  end.

Lemma collapseFrom_shortRuns (s : string) (run : nat) :
  shortRuns (Nat.min run 2) (Text.collapseFrom run s) = true.
Proof.
  revert run. induction s as [|c s IH]; intros run; [reflexivity|].
  cbn [Text.collapseFrom]. destruct (Ascii.eqb c LF) eqn:E.
  - destruct (run <? 2)%nat eqn:R.
    + apply Nat.ltb_lt in R. cbn [shortRuns]. rewrite Ascii.eqb_refl.
      replace (Nat.min run 2) with run by lia.
      replace (run <? 2)%nat with true by (symmetry; apply Nat.ltb_lt; lia).
      specialize (IH (S run)). replace (Nat.min (S run) 2) with (S run) in IH by lia.
      now rewrite IH.
    + apply Nat.ltb_ge in R. specialize (IH (S run)).
      replace (Nat.min (S run) 2) with (Nat.min run 2) in IH by lia. exact IH.
  - cbn [shortRuns]. rewrite E. apply (IH 0%nat).
Qed.

End CarriageReturns.

Lemma crToLf_app (s t : string) : Text.crToLf (s +:+ t) = Text.crToLf s +:+ Text.crToLf t.
Proof. induction s as [|c s IH]; [reflexivity|]. simpl. now rewrite IH. Qed.

Section AlikeChunks.
Import JS.

Context {S : Type}.
Variable process : string -> S -> S.
Hypothesis process_empty : ∀ st, process "" st = st.

(** What the two runners that buffer make of a chunk when ANSI sequences
    are kept: with or without the shortening of runs of line feeds. *)
Definition plainKimi (chunk : string) : string := Text.crToLf (Text.crlfToLf chunk).
Definition plainOpenCode (chunk : string) : string :=
  Text.collapseNewlines (Text.crToLf (Text.crlfToLf chunk)).

Lemma plainKimi_alike (x y : string) :
  alike process (plainKimi x +:+ plainKimi y) (plainKimi (x +:+ y)).
Proof.
  intros p st. unfold plainKimi.
  rewrite (alike_app process _ (Text.crToLf x) _ (Text.crToLf y))
    by (apply crlf_alike; assumption).
  rewrite <- crToLf_app. symmetry. now apply crlf_alike.
Qed.

Lemma plainOpenCode_alike (x y : string) :
  alike process (plainOpenCode x +:+ plainOpenCode y) (plainOpenCode (x +:+ y)).
Proof.
  intros p st. unfold plainOpenCode.
  rewrite (alike_app process _ (plainKimi x) _ (plainKimi y))
    by (apply collapse_alike; assumption).
  rewrite plainKimi_alike. symmetry. now apply collapse_alike.
Qed.

End AlikeChunks.

Section OpenCodeAnyChunks.
Import JS OpenCode.

Variable formatCommand : string -> commandStatus -> string.
Variable formatResult : string -> bool -> string.
Variable formatStatus : string -> string.
Variable formatStepEvent : string -> jsval -> string.
Variable Capture : Type.
Variable captureFromStreamJson : string -> Capture -> Capture.
Variable getCaptured : Capture -> option Captured.
Variable hasOnTelemetry childKillable : bool.

Local Abbreviation ocState := (OpenCode.state Capture).
Local Abbreviation ocLine :=
  (processLine formatCommand formatResult formatStatus formatStepEvent Capture
     captureFromStreamJson getCaptured false hasOnTelemetry childKillable).
Local Abbreviation ocStdout :=
  (onStdout formatCommand formatResult formatStatus formatStepEvent Capture
     captureFromStreamJson getCaptured false hasOnTelemetry childKillable).

Lemma processLine_blank (st : ocState) : ocLine "" st = st.
Proof. unfold processLine. now destruct (crashed Capture st). Qed.

Lemma normalizeChunk_plain (chunk : string) :
  normalizeChunk false chunk = plainOpenCode chunk.
Proof.
  unfold normalizeChunk, plainOpenCode, Text.overwriteCarriageReturns.
  now rewrite overwritePre_noCR, append_nil_l by apply crToLf_noCR.
Qed.

(** The buffered handler as a scan of the buffer followed by the chunk. *)
Lemma feed_scan (t : string) (st : ocState) :
  feed (jsonBuffer Capture) (setJsonBuffer Capture) ocLine t st
  = let '(z, st') := scan ocLine "" (jsonBuffer Capture st +:+ t) st in
    setJsonBuffer Capture z st'.
Proof.
  unfold feed. rewrite pop_split, scan_cut.
  destruct (cut (jsonBuffer Capture st +:+ t)) as [[|l ls] z]; [reflexivity|].
  rewrite append_nil_l.
  change (fold_left (λ acc line, ocLine line acc) (l :: ls) (setJsonBuffer Capture z st))
    with (fold_left (λ acc line, ocLine line acc) ls
            (ocLine l (setJsonBuffer Capture z st))).
  rewrite processLine_setJsonBuffer.
  apply (processAll_set (setJsonBuffer Capture) ocLine).
  intros. apply processLine_setJsonBuffer.
Qed.

(** X1: [runOpenCode] does not depend on where the child's output is cut
    into chunks when ANSI sequences are kept ([plainLogs] off): handling a
    text in two chunks, cut anywhere (inside a line, between a carriage
    return and its line feed, inside a run of line feeds), leaves the same
    state, and has emitted the same, as handling it in one chunk, unless an
    exception had escaped the handler before the second chunk. *)
Theorem opencode_chunking_irrelevant (x y : string) (st : OpenCode.state Capture) :
  crashed Capture (ocStdout x st) = false ->
  ocStdout y (ocStdout x st) = ocStdout (x +:+ y) st.
Proof.
  intros Hok.
  destruct (setJsonBuffer_facts Capture) as (H1 & H2 & H3).
  assert (Hst : crashed Capture st = false).
  { destruct (crashed Capture st) eqn:E; [|reflexivity].
    unfold onStdout in Hok. rewrite E in Hok. congruence. }
  unfold onStdout in *. rewrite Hst in *. rewrite Hok.
  rewrite (feed_app (jsonBuffer Capture) (setJsonBuffer Capture))
    by auto using processLine_setJsonBuffer.
  rewrite !feed_scan, !normalizeChunk_plain.
  rewrite !(scan_app ocLine "" (jsonBuffer Capture st)).
  destruct (scan ocLine "" (jsonBuffer Capture st) st) as [p st'].
  now rewrite (plainOpenCode_alike ocLine processLine_blank x y p st').
Qed.

End OpenCodeAnyChunks.

Section ScanFacts.
Import JS.

Context {S : Type}.
Variable process : string -> S -> S.

(** The text holds no line feed. *)
Fixpoint noLF (s : string) : bool :=
  match s with
  | "" => true
  | String c r => negb (Ascii.eqb c LF) && noLF r
  end.

Lemma noLF_app (s t : string) : noLF (s +:+ t) = noLF s && noLF t.
Proof.
  induction s as [|c s IH]; [reflexivity|].
  rewrite append_cons. simpl. now rewrite IH, andb_assoc.
Qed.

Lemma scan_noLF (z t p : string) (st : S) :
  noLF z = true -> scan process p (z +:+ t) st = scan process (p +:+ z) t st.
Proof.
  revert p. induction z as [|c z IH]; intros p H.
  - now rewrite append_nil_l, append_nil_r.
  - simpl in H. apply andb_true_iff in H as [Hc Hz]. apply negb_true_iff in Hc.
    rewrite append_cons. simpl. rewrite Hc, IH by assumption.
    now rewrite append_assoc.
Qed.

Lemma scan_pending (s p : string) (st : S) :
  noLF p = true -> noLF (fst (scan process p s st)) = true.
Proof.
  revert p st. induction s as [|c s IH]; intros p st H; [exact H|].
  simpl. destruct (Ascii.eqb c LF) eqn:E.
  - now apply IH.
  - apply IH. rewrite noLF_app, H. simpl. now rewrite E.
Qed.

End ScanFacts.

Section WireAnyChunks.
Import JS Val.

Variable formatCommand : string -> commandStatus -> string.
Variable formatResult : string -> bool -> string.
Variable formatStatus : string -> string.
Variable runRequestId : string.

Local Abbreviation wline := (wireLine formatCommand formatResult formatStatus runRequestId).
Local Abbreviation drain := (drainLines formatCommand formatResult formatStatus runRequestId).
Local Abbreviation wstdout :=
  (wireOnStdout formatCommand formatResult formatStatus runRequestId).

(** The line processor of the wire runner on a state with its output. *)
Definition wireProcess (line : string) (acc : WireState * list effect)
  : WireState * list effect :=
  let '(st, out) := acc in
  let '(st', o) := wline (trim line) st in
  (st', out ++ o).

Lemma wireProcess_blank (acc : WireState * list effect) : wireProcess "" acc = acc.
Proof. destruct acc as [st out]. simpl. now rewrite app_nil_r. Qed.

Lemma drain_scan (s p : string) (st : WireState) (acc : list effect) :
  scan wireProcess p s (st, acc)
  = (buffer (fst (drain p s st)),
     (setBuffer (buffer st) (fst (drain p s st)), acc ++ snd (drain p s st))).
Proof.
  revert p st acc. induction s as [|c s IH]; intros p st acc.
  - simpl. rewrite app_nil_r. now destruct st.
  - simpl. destruct (Ascii.eqb c LF) eqn:E.
    + pose proof (wireLine_setBuffer formatCommand formatResult formatStatus runRequestId
                    (trim p) (buffer st) st) as Hb.
      replace (setBuffer (buffer st) st) with st in Hb by now destruct st.
      destruct (wline (trim p) st) as [st1 o1] eqn:E1.
      cbn [fst snd] in Hb. injection Hb as Hb.
      rewrite IH. destruct (drain "" s st1) as [st2 o2]. cbn [fst snd].
      rewrite app_assoc. do 2 f_equal.
      rewrite Hb. reflexivity.
    + apply IH.
Qed.

Lemma drain_setBuffer (s p b : string) (st : WireState) :
  drain p s (setBuffer b st) = drain p s st.
Proof.
  revert p st. induction s as [|c s IH]; intros p st; [reflexivity|].
  simpl. destruct (Ascii.eqb c LF); [|apply IH].
  rewrite wireLine_setBuffer. destruct (wline (trim p) st) as [st1 o1].
  cbn [fst snd]. now rewrite IH.
Qed.

Lemma drain_noLF (z s q : string) (st : WireState) :
  noLF z = true -> drain q (z +:+ s) st = drain (q +:+ z) s st.
Proof.
  revert q. induction z as [|c z IH]; intros q H.
  - now rewrite append_nil_l, append_nil_r.
  - simpl in H. apply andb_true_iff in H as [Hc Hz]. apply negb_true_iff in Hc.
    rewrite append_cons. simpl. rewrite Hc, IH by assumption.
    now rewrite append_assoc.
Qed.

(** X2: [runKimiWire] does not depend on where the child's output is cut
    into chunks when ANSI sequences are kept ([plainLogs] off): handling a
    text in two chunks, cut anywhere, leaves the same state (buffer, tool
    names) and calls the hooks and writes to stdin exactly as handling it
    in one chunk does. *)
Theorem wire_chunking_irrelevant (x y : string) (st : WireState) :
  let first := wstdout false x st in
  let second := wstdout false y (fst first) in
  (fst second, snd first ++ snd second) = wstdout false (x +:+ y) st.
Proof.
  cbv zeta. unfold wireOnStdout, normalizeChunk.
  change (Text.crToLf (Text.crlfToLf x)) with (plainKimi x).
  change (Text.crToLf (Text.crlfToLf y)) with (plainKimi y).
  change (Text.crToLf (Text.crlfToLf (x +:+ y))) with (plainKimi (x +:+ y)).
  assert (HA : scan wireProcess "" (buffer st +:+ plainKimi (x +:+ y)) (st, [])
               = scan wireProcess "" ((buffer st +:+ plainKimi x) +:+ plainKimi y) (st, [])).
  { rewrite append_assoc, !(scan_app wireProcess "" (buffer st)).
    destruct (scan wireProcess "" (buffer st) (st, [])) as [p a].
    symmetry. apply (plainKimi_alike wireProcess wireProcess_blank). }
  rewrite (scan_app wireProcess "" (buffer st +:+ plainKimi x)) in HA.
  pose proof (scan_pending wireProcess (buffer st +:+ plainKimi x) "" (st, [])
                eq_refl) as Hz.
  rewrite (drain_scan (buffer st +:+ plainKimi x)) in HA, Hz.
  rewrite (drain_scan (buffer st +:+ plainKimi (x +:+ y))) in HA.
  destruct (drain "" (buffer st +:+ plainKimi x) st) as [st1 o1] eqn:E1.
  destruct (drain "" (buffer st +:+ plainKimi (x +:+ y)) st) as [st3 o3] eqn:E3.
  cbn [fst snd app] in *.
  rewrite drain_scan, drain_setBuffer in HA.
  rewrite (drain_noLF (buffer st1)), append_nil_l by exact Hz.
  destruct (drain (buffer st1) (plainKimi y) st1) as [st2 o2] eqn:E2.
  cbn [fst snd] in *.
  injection HA as Hb Hs Ho. subst o3. f_equal.
  destruct st2, st3. unfold setBuffer in Hs. cbn in *. congruence.
Qed.

End WireAnyChunks.

(** A text record whose line ends in a carriage return and a line feed
    that arrive in different chunks. *)
Lemma opencode_chunking_irrelevant_witness :
  OpenCode.crashed unit
    (OpenCode.onStdout Plain.formatCommand Plain.formatResult Plain.formatStatus
       (fun _ _ => "step") unit (fun _ c => c) (fun _ => None) false true true
       (Json.lit "{'type':'text','part':{'text':'Hi'}}" +:+ String JS.CR "")
       (OpenCode.initial unit tt)) = false
  ∧ OpenCode.onStdout Plain.formatCommand Plain.formatResult Plain.formatStatus
      (fun _ _ => "step") unit (fun _ c => c) (fun _ => None) false true true
      JS.nl
      (OpenCode.onStdout Plain.formatCommand Plain.formatResult Plain.formatStatus
         (fun _ _ => "step") unit (fun _ c => c) (fun _ => None) false true true
         (Json.lit "{'type':'text','part':{'text':'Hi'}}" +:+ String JS.CR "")
         (OpenCode.initial unit tt))
    = OpenCode.onStdout Plain.formatCommand Plain.formatResult Plain.formatStatus
        (fun _ _ => "step") unit (fun _ c => c) (fun _ => None) false true true
        ((Json.lit "{'type':'text','part':{'text':'Hi'}}" +:+ String JS.CR "") +:+ JS.nl)
        (OpenCode.initial unit tt).
Proof.
  split; [reflexivity|].
  apply (opencode_chunking_irrelevant Plain.formatCommand Plain.formatResult
           Plain.formatStatus (fun _ _ => "step") unit (fun _ c => c) (fun _ => None)
           true true).
  reflexivity.
Defined.

(** X3: the rewrite of [normalizeChunk] (OpenCode) for carriage returns
    that overwrite a line never applies: the two replacements before it
    have turned every carriage return into a line feed, so the chunk is
    what the other three rewrites make of it, and a line redrawn with
    carriage returns arrives as one line for each redraw. *)
Theorem overwrite_rewrite_never_applies (plainLogs : bool) (chunk : string) :
  Text.overwriteCarriageReturns (Text.crToLf (Text.crlfToLf chunk))
  = Text.crToLf (Text.crlfToLf chunk)
  ∧ OpenCode.normalizeChunk plainLogs chunk
    = Text.collapseNewlines
        (OpenCode.cleanAnsi (Text.crToLf (Text.crlfToLf chunk)) plainLogs).
Proof.
  assert (H : Text.overwriteCarriageReturns (Text.crToLf (Text.crlfToLf chunk))
              = Text.crToLf (Text.crlfToLf chunk)).
  { unfold Text.overwriteCarriageReturns.
    now rewrite overwritePre_noCR, append_nil_l by apply crToLf_noCR. }
  split; [exact H|]. unfold OpenCode.normalizeChunk, OpenCode.cleanAnsi. now rewrite H.
Qed.

(** X4: what the runners hand on after [normalizeChunk] holds no
    carriage return, and for OpenCode no run of three line feeds either,
    whatever the chunk and with or without [plainLogs]. *)
Theorem normalized_chunk_shape (plainLogs : bool) (chunk : string) :
  noCR (normalizeChunk chunk plainLogs) = true
  ∧ noCR (OpenCode.normalizeChunk plainLogs chunk) = true
  ∧ shortRuns 0 (OpenCode.normalizeChunk plainLogs chunk) = true.
Proof.
  pose proof (crToLf_noCR (Text.crlfToLf chunk)) as H.
  split; [|split].
  - unfold normalizeChunk. destruct plainLogs; [|exact H].
    now apply stripAnsiFrom_noCR.
  - unfold OpenCode.normalizeChunk, Text.overwriteCarriageReturns, Text.collapseNewlines.
    rewrite overwritePre_noCR, append_nil_l by exact H.
    apply collapseFrom_noCR. destruct plainLogs; [|exact H].
    now apply stripAnsiFrom_noCR.
  - unfold OpenCode.normalizeChunk, Text.collapseNewlines.
    apply (collapseFrom_shortRuns _ 0).
Qed.

(** ** Text deltas (OpenCode) *)

Section TextDeltas.
Import JS OpenCode.

(** The deltas that the [text] case computes for a sequence of snapshots,
    from the snapshot kept in [lastTextSnapshot]. *)
Fixpoint deltas (previous : string) (snapshots : list string) : list string :=
  match snapshots with
  | [] => []
  | t :: rest =>
      let '(delta, snapshot) := computeTextDelta previous t in
      delta :: deltas snapshot rest
  end.

(** Every snapshot starts with the one before it. *)
Fixpoint growing (previous : string) (snapshots : list string) : Prop :=
  match snapshots with
  | [] => True
  | t :: rest => String.prefix previous t = true ∧ growing t rest
  end.

Lemma prefix_slice (p t : string) :
  String.prefix p t = true -> p +:+ sliceFrom (String.length p) t = t.
Proof.
  revert t. induction p as [|c p IH]; intros t H; [reflexivity|].
  destruct t as [|d t]; [discriminate|]. simpl in H.
  destruct (Ascii.ascii_dec c d) as [->|]; [|discriminate].
  rewrite append_cons. simpl. now rewrite IH.
Qed.

Lemma computeTextDelta_growing (previous t : string) :
  String.prefix previous t = true ->
  computeTextDelta previous t = (sliceFrom (String.length previous) t, t).
Proof.
  intros H. unfold computeTextDelta, startsWith. rewrite H.
  destruct previous as [|c p]; [reflexivity|]. cbn [JS.truthy negb].
  destruct (String.eqb t (String c p)) eqn:E; [|reflexivity].
  apply String.eqb_eq in E. subst t.
  pose proof (prefix_slice (String c p) (String c p) H) as Hs.
  assert (Hinj : ∀ a x y : string, a +:+ x = a +:+ y → x = y).
  { clear. induction a as [|c a IH]; intros x y Hxy; [exact Hxy|].
    rewrite !append_cons in Hxy. injection Hxy as Hxy. now apply IH. }
  f_equal. symmetry. apply (Hinj (String c p)).
  now rewrite Hs, append_nil_r.
Qed.

(** X5: [computeTextDelta] on text that grows: when every snapshot of a
    [text] part starts with the snapshot before it, the deltas, put one
    after the other, are the last snapshot without what [lastTextSnapshot]
    already held; nothing of the text is lost and nothing is repeated. *)
Theorem deltas_rebuild_the_text (previous : string) (snapshots : list string) :
  growing previous snapshots ->
  previous +:+ String.concat "" (deltas previous snapshots)
  = List.last snapshots previous.
Proof.
  revert previous. induction snapshots as [|t rest IH]; intros previous H.
  - simpl. now rewrite append_nil_r.
  - destruct H as [Hp Hg]. cbn [deltas].
    rewrite (computeTextDelta_growing previous t Hp).
    specialize (IH t Hg).
    assert (Hc : String.concat "" (sliceFrom (String.length previous) t :: deltas t rest)
                 = sliceFrom (String.length previous) t
                     +:+ String.concat "" (deltas t rest)).
    { destruct (deltas t rest); [now rewrite append_nil_r|reflexivity]. }
    rewrite Hc, <- append_assoc, (prefix_slice previous t Hp), IH.
    destruct rest as [|r rest]; [reflexivity|].
    change (List.last (t :: r :: rest) previous) with (List.last (r :: rest) previous).
    clear. revert r. induction rest as [|q rest IH]; intros r; [reflexivity|].
    change (List.last (r :: q :: rest) t) with (List.last (q :: rest) t).
    change (List.last (r :: q :: rest) previous) with (List.last (q :: rest) previous).
    apply IH.
Qed.

End TextDeltas.

Lemma deltas_rebuild_the_text_witness :
  "" +:+ String.concat "" (deltas "" ["Hel"; "Hello"; "Hello"; "Hello world"])
  = "Hello world".
Proof.
  apply (deltas_rebuild_the_text "" ["Hel"; "Hello"; "Hello"; "Hello world"]).
  repeat split.
Defined.

(** ** Permission requests of a run (OpenCode) *)

Section PermissionOnce.
Import JS OpenCode.

Variable formatCommand : string -> commandStatus -> string.
Variable formatResult : string -> bool -> string.
Variable formatStatus : string -> string.
Variable formatStepEvent : string -> jsval -> string.
Variable Capture : Type.
Variable captureFromStreamJson : string -> Capture -> Capture.
Variable getCaptured : Capture -> option Captured.
Variable plainLogs hasOnTelemetry childKillable : bool.

Local Abbreviation pState := (OpenCode.state Capture).
Local Abbreviation pLine :=
  (processLine formatCommand formatResult formatStatus formatStepEvent Capture
     captureFromStreamJson getCaptured plainLogs hasOnTelemetry childKillable).
Local Abbreviation pStdout :=
  (onStdout formatCommand formatResult formatStatus formatStepEvent Capture
     captureFromStreamJson getCaptured plainLogs hasOnTelemetry childKillable).
Local Abbreviation pFlush :=
  (flush formatCommand formatResult formatStatus formatStepEvent Capture
     captureFromStreamJson getCaptured plainLogs hasOnTelemetry childKillable).
Local Abbreviation pending := (pendingPermissionError Capture).
Local Abbreviation out := (emitted Capture).

(** The number of times the child was signalled. *)
Definition kills (es : list OpenCode.effect) : nat :=
  length (List.filter (fun e => match e with KillChild => true | _ => false end) es).

Lemma kills_app (a b : list OpenCode.effect) : kills (a ++ b) = (kills a + kills b)%nat.
Proof. unfold kills. now rewrite List.filter_app, length_app. Qed.

(** What holds between the request kept and the signals sent. *)
Definition once (st : pState) : Prop :=
  match pending st with
  | None => kills (out st) = 0%nat
  | Some _ => (kills (out st) <= 1)%nat
  end.

Ltac open_line :=
  unfold processLine, textEvent, permissionEvent, emitFormatted, emit, telemetry;
  cbn [jsonBuffer lastTextSnapshot lastParagraph pendingPermissionError capture
       crashed emitted];
  repeat match goal with
         | |- context [match ?x with _ => _ end] =>
             destruct x eqn:?;
             cbn [jsonBuffer lastTextSnapshot lastParagraph pendingPermissionError
                  capture crashed emitted]
         end.

(** Once a request is kept, a line changes neither it nor the number of
    signals. *)
Lemma processLine_kept (line : string) (st : pState) (e : PermissionRequiredError) :
  pending st = Some e ->
  pending (pLine line st) = Some e ∧ kills (out (pLine line st)) = kills (out st).
Proof.
  destruct st as [buf snap last pend cap cr em]. cbn [pendingPermissionError].
  intros ->. open_line;
    rewrite ?kills_app; cbn [kills List.filter length]; split; (reflexivity || lia).
Qed.

Lemma processLine_once (line : string) (st : pState) : once st -> once (pLine line st).
Proof.
  unfold once. destruct (pending st) as [e|] eqn:E.
  - intros H. destruct (processLine_kept line st e E) as [-> ->]. exact H.
  - revert E. destruct st as [buf snap last pend cap cr em].
    cbn [pendingPermissionError emitted]. intros -> H. open_line;
      rewrite ?kills_app; cbn [kills List.filter length app pendingPermissionError] in *;
      try discriminate; lia.
Qed.

Lemma lines_kept (lines : list string) (st : pState) (e : PermissionRequiredError) :
  pending st = Some e ->
  pending (fold_left (fun acc line => pLine line acc) lines st) = Some e
  ∧ kills (out (fold_left (fun acc line => pLine line acc) lines st)) = kills (out st).
Proof.
  revert st. induction lines as [|l lines IH]; intros st H; [now split|].
  simpl. destruct (processLine_kept l st e H) as [H1 H2].
  destruct (IH _ H1) as [H3 H4]. split; [exact H3|]. now rewrite H4.
Qed.

Lemma lines_once (lines : list string) (st : pState) :
  once st -> once (fold_left (fun acc line => pLine line acc) lines st).
Proof.
  revert st. induction lines as [|l lines IH]; intros st H; [exact H|].
  simpl. apply IH. now apply processLine_once.
Qed.

Lemma onStdout_kept (chunk : string) (st : pState) (e : PermissionRequiredError) :
  pending st = Some e ->
  pending (pStdout chunk st) = Some e ∧ kills (out (pStdout chunk st)) = kills (out st).
Proof.
  intros H. unfold onStdout. destruct (crashed Capture st); [now split|].
  unfold feed. destruct (pop _) as [lines last].
  apply (lines_kept lines (setJsonBuffer Capture last st) e). exact H.
Qed.

Lemma onStdout_once (chunk : string) (st : pState) : once st -> once (pStdout chunk st).
Proof.
  intros H. unfold onStdout. destruct (crashed Capture st); [exact H|].
  unfold feed. destruct (pop _) as [lines last].
  apply (lines_once lines (setJsonBuffer Capture last st)). exact H.
Qed.

Lemma flush_kept (st : pState) (e : PermissionRequiredError) :
  pending st = Some e ->
  pending (pFlush st) = Some e ∧ kills (out (pFlush st)) = kills (out st).
Proof.
  intros H. unfold flush. destruct (JS.truthy _); [|now split].
  exact (processLine_kept (jsonBuffer Capture st) st e H).
Qed.

Lemma flush_once (st : pState) : once st -> once (pFlush st).
Proof.
  intros H. unfold flush. destruct (JS.truthy _); [|exact H].
  exact (processLine_once (jsonBuffer Capture st) st H).
Qed.

Lemma chunks_kept (chunks : list string) (st : pState) (e : PermissionRequiredError) :
  pending st = Some e ->
  pending (fold_left (fun acc chunk => pStdout chunk acc) chunks st) = Some e
  ∧ kills (out (fold_left (fun acc chunk => pStdout chunk acc) chunks st))
    = kills (out st).
Proof.
  revert st. induction chunks as [|c chunks IH]; intros st H; [now split|].
  simpl. destruct (onStdout_kept c st e H) as [H1 H2].
  destruct (IH _ H1) as [H3 H4]. split; [exact H3|]. now rewrite H4.
Qed.

(** X6: in a run of [runOpenCode] the child is signalled for a
    permission request at most once, whatever it writes and however the
    output is cut into chunks, the rest of the buffer included. *)
Theorem permission_kills_at_most_once (c : Capture) (chunks : list string) :
  (kills (out (pFlush (runOpenCode formatCommand formatResult formatStatus formatStepEvent
                         Capture captureFromStreamJson getCaptured plainLogs
                         hasOnTelemetry childKillable c chunks))) <= 1)%nat.
Proof.
  assert (H : once (pFlush (runOpenCode formatCommand formatResult formatStatus
                              formatStepEvent Capture captureFromStreamJson getCaptured
                              plainLogs hasOnTelemetry childKillable c chunks))).
  { apply flush_once. unfold runOpenCode.
    assert (Hall : ∀ st, once st →
              once (fold_left (fun acc chunk => pStdout chunk acc) chunks st)).
    { induction chunks as [|x chunks IH]; intros st Hst; [exact Hst|].
      simpl. apply IH. now apply onStdout_once. }
    apply Hall. reflexivity. }
  unfold once in H. destruct (pending _); lia.
Qed.

(** X7: the first permission request that is pending decides how the
    run ends.  Once [pendingPermissionError] is set, no later output
    replaces it or has the child signalled again, and when [spawnProcess]
    resolves, [runOpenCode] throws that error, with exit code 0 as with any
    other, unless an exception escapes while the rest of the buffer is
    handled; the heartbeat interval is then still set. *)
Theorem pending_permission_is_thrown (st : pState) (e : PermissionRequiredError)
    (chunks : list string) (command : string) (result : Spawn.SpawnResult) :
  pending st = Some e ->
  let st' := fold_left (fun acc chunk => pStdout chunk acc) chunks st in
  let ending :=
    OpenCodeRun.finish formatCommand formatResult formatStatus formatStepEvent Capture
      captureFromStreamJson getCaptured plainLogs hasOnTelemetry command childKillable
      st' (Spawn.Resolve result) in
  kills (out (OpenCodeRun.final Capture ending)) = kills (out st)
  ∧ (crashed Capture (OpenCodeRun.final Capture ending) = false →
     OpenCodeRun.outcome Capture ending = inr (OpenCodeRun.ThrowPermission e)
     ∧ OpenCodeRun.heartbeat Capture ending = true).
Proof.
  intros H. cbv zeta.
  destruct (chunks_kept chunks st e H) as [H1 H2].
  destruct (flush_kept _ e H1) as [H3 H4].
  unfold OpenCodeRun.finish.
  destruct (crashed Capture (pFlush _)) eqn:Ec; cbn [OpenCodeRun.final].
  - split; [now rewrite H4, H2|]. intros Hc. congruence.
  - rewrite H3. cbn [OpenCodeRun.final OpenCodeRun.outcome OpenCodeRun.heartbeat].
    split; [now rewrite H4, H2|]. intros _. now split.
Qed.

End PermissionOnce.

(** A run that had kept a request for [bash] when more output arrived: a
    text and a second request. *)
Lemma pending_permission_is_thrown_witness :
  OpenCodeRun.outcome unit
    (OpenCodeRun.finish Plain.formatCommand Plain.formatResult Plain.formatStatus
       (fun _ _ => "step") unit (fun _ c => c) (fun _ => None) false true "opencode" true
       (fold_left
          (fun acc chunk =>
             OpenCode.onStdout Plain.formatCommand Plain.formatResult Plain.formatStatus
               (fun _ _ => "step") unit (fun _ c => c) (fun _ => None) false true true
               chunk acc)
          [Json.lit "{'type':'text','part':{'text':'Hi'}}" +:+ JS.nl;
           Json.lit "{'type':'permission','permission':{'type':'edit'}}" +:+ JS.nl]
          {| OpenCode.jsonBuffer := ""; OpenCode.lastTextSnapshot := "";
             OpenCode.lastParagraph := "";
             OpenCode.pendingPermissionError := Some bashError;
             OpenCode.capture := tt; OpenCode.crashed := false;
             OpenCode.emitted := [OpenCode.KillChild] |})
       (Spawn.Resolve {| Spawn.exitCode := 0; Spawn.stdout := ""; Spawn.stderr := "" |}))
  = inr (OpenCodeRun.ThrowPermission bashError).
Proof.
  apply (proj2 (pending_permission_is_thrown Plain.formatCommand Plain.formatResult
                  Plain.formatStatus (fun _ _ => "step") unit (fun _ c => c)
                  (fun _ => None) false true true
                  {| OpenCode.jsonBuffer := ""; OpenCode.lastTextSnapshot := "";
                     OpenCode.lastParagraph := "";
                     OpenCode.pendingPermissionError := Some bashError;
                     OpenCode.capture := tt; OpenCode.crashed := false;
                     OpenCode.emitted := [OpenCode.KillChild] |}
                  bashError
                  [Json.lit "{'type':'text','part':{'text':'Hi'}}" +:+ JS.nl;
                   Json.lit "{'type':'permission','permission':{'type':'edit'}}" +:+ JS.nl]
                  "opencode"
                  {| Spawn.exitCode := 0; Spawn.stdout := ""; Spawn.stderr := "" |}
                  eq_refl)).
  reflexivity.
Defined.

(** ** The environment of the OpenCode child *)

Section RunnerEnv.
Import OpenCodeRun.

Variable processEnv : Env.
Variable resolveOpenCodeHome : option string -> string.
Variable pathJoin : string -> string -> string.

Local Abbreviation resolveEnv := (resolveRunnerEnv processEnv resolveOpenCodeHome pathJoin).
Local Abbreviation withDefault := (applyDefault processEnv).

(** The variables that [resolveRunnerEnv] gives a default. *)
Definition defaulted : list string :=
  ["OPENCODE_PERMISSION"; "OPENCODE_DISABLE_LSP_DOWNLOAD";
   "OPENCODE_DISABLE_DEFAULT_PLUGINS"; "XDG_CONFIG_HOME"; "XDG_CACHE_HOME";
   "XDG_DATA_HOME"].

Lemma base_lookup (env : option Env) (k : string) :
  (default ∅ env ∪ processEnv) !! k = None
  ↔ (env ≫= (.!! k)) = None ∧ processEnv !! k = None.
Proof.
  rewrite lookup_union_None. destruct env as [e|]; simpl; [tauto|].
  rewrite lookup_empty. tauto.
Qed.

(** A default is put where the merged environment has nothing, and
    nowhere else. *)
Lemma applyDefault_lookup (key value : string) (env : option Env) (m : Env) (k : string) :
  m !! key = (default ∅ env ∪ processEnv) !! key ->
  withDefault key value env m !! k
  = if bool_decide (k = key)
    then Some (default value (m !! key))
    else m !! k.
Proof.
  intros Hm. unfold applyDefault, shouldApplyDefault.
  destruct (_ && _) eqn:Hb.
  - apply andb_true_iff in Hb as [H1 H2]. apply bool_decide_eq_true in H1, H2.
    rewrite (proj2 (base_lookup env key) (conj H1 H2)) in Hm. rewrite Hm.
    case_bool_decide as Hk; [now rewrite Hk, lookup_insert_eq|].
    now rewrite lookup_insert_ne by congruence.
  - destruct (m !! key) as [v|] eqn:E.
    + destruct (decide (k = key)) as [->|Hk];
        [now rewrite bool_decide_eq_true_2, E|now rewrite bool_decide_eq_false_2].
    + symmetry in Hm. apply base_lookup in Hm as [H1 H2].
      apply andb_false_iff in Hb as [Hb|Hb]; apply bool_decide_eq_false in Hb;
        [exact (False_ind _ (Hb H1))|exact (False_ind _ (Hb H2))].
Qed.


End RunnerEnv.


(** ** Trimming *)

Section Trimming.
Import JS.

Lemma trimStart_head (s : string) :
  match trimStart s with
  | "" => True
  | String c _ => is_space c = false
  end.
Proof.
  induction s as [|c s IH]; [exact I|]. simpl.
  destruct (is_space c) eqn:E; [exact IH|exact E].
Qed.

Lemma trimStart_fixed (s : string) :
  match s with "" => True | String c _ => is_space c = false end ->
  trimStart s = s.
Proof. destruct s as [|c s]; [reflexivity|]. simpl. now intros ->. Qed.

Lemma trimEnd_head (c : ascii) (s : string) :
  is_space c = false -> ∃ r, trimEnd (String c s) = String c r.
Proof.
  intros H. simpl. destruct (trimEnd s); rewrite ?H; eauto.
Qed.

Lemma trimEnd_idem (s : string) : trimEnd (trimEnd s) = trimEnd s.
Proof.
  induction s as [|c s IH]; [reflexivity|]. simpl.
  destruct (trimEnd s) as [|d r] eqn:E.
  - destruct (is_space c) eqn:Ec; [reflexivity|]. simpl. now rewrite Ec.
  - change (trimEnd (String c (String d r)))
      with (match trimEnd (String d r) with
            | "" => if is_space c then "" else String c ""
            | r' => String c r'
            end).
    now rewrite IH.
Qed.

Lemma trim_idem (s : string) : trim (trim s) = trim s.
Proof.
  unfold trim.
  assert (H : trimStart (trimEnd (trimStart s)) = trimEnd (trimStart s)).
  { apply trimStart_fixed. pose proof (trimStart_head s) as Hh.
    destruct (trimStart s) as [|c r]; [exact I|].
    destruct (trimEnd_head c r Hh) as [r' ->]. exact Hh. }
  now rewrite H, trimEnd_idem.
Qed.

Lemma truthy_length (s : string) : (0 <? String.length s)%nat = JS.truthy s.
Proof. now destruct s. Qed.

Lemma length_zero (s : string) : (String.length s =? 0)%nat = negb (JS.truthy s).
Proof. now destruct s. Qed.

Lemma sliceTo_length (n : nat) (s : string) : (String.length (sliceTo n s) <= n)%nat.
Proof.
  revert s. induction n as [|n IH]; intros s; [simpl; lia|].
  destruct s as [|c s]; simpl; [lia|]. specialize (IH s). lia.
Qed.

Lemma length_append (s t : string) :
  String.length (s +:+ t) = (String.length s + String.length t)%nat.
Proof. induction s as [|c s IH]; [reflexivity|]. rewrite append_cons. simpl. now rewrite IH. Qed.

End Trimming.

(** ** The command line of the Kimi CLI *)

Section KimiCommandLine.
Import JS Kimi.

Variable processEnv : Env.

(** What [resolveModel] returns is used as it is. *)
Lemma resolveModel_trimmed (m : option string) (r : string) :
  resolveModel processEnv m = Some r -> JS.truthy r = true ∧ trim r = r.
Proof.
  assert (Henv : ∀ r, match trim <$> processEnv !! "KIMI_MODEL_NAME" with
                      | Some envModel => if JS.truthy envModel then Some envModel else None
                      | None => None
                      end = Some r → JS.truthy r = true ∧ trim r = r).
  { intros r0. destruct (processEnv !! "KIMI_MODEL_NAME") as [v|]; [|discriminate].
    simpl. destruct (JS.truthy (trim v)) eqn:E; [|discriminate].
    intros [= <-]. split; [exact E|apply trim_idem]. }
  unfold resolveModel. destruct m as [m|]; [|apply Henv].
  destruct (JS.truthy m && _) eqn:E; [|apply Henv].
  intros [= <-]. apply andb_true_iff in E as [_ E]. rewrite truthy_length in E.
  split; [exact E|apply trim_idem].
Qed.

Lemma appendModel_resolved (args : list string) (m : option string) :
  appendModel args (resolveModel processEnv m)
  = args ++ match resolveModel processEnv m with Some r => ["-m"; r] | None => [] end.
Proof.
  destruct (resolveModel processEnv m) as [r|] eqn:E; [|now rewrite app_nil_r].
  destruct (resolveModel_trimmed m r E) as [Ht Hr].
  unfold appendModel. rewrite Hr, truthy_length, Ht. now destruct r.
Qed.

(** The pairs of arguments for a list of files. *)
Definition mcpFlags (files : list string) : list string :=
  flat_map (fun file => ["--mcp-config-file"; file]) files.

Lemma appendMcpConfigs_trimmed (files : list string) (args : list string) :
  Forall (fun f => JS.truthy f = true ∧ trim f = f) files ->
  fold_left
    (fun acc file =>
       if (String.length (trim file) =? 0)%nat then acc
       else acc ++ ["--mcp-config-file"; trim file])
    files args
  = args ++ mcpFlags files.
Proof.
  revert args. induction files as [|f files IH]; intros args H.
  - simpl. now rewrite app_nil_r.
  - inversion H as [|? ? [Ht Hf] Hrest]; subst. simpl.
    rewrite Hf, length_zero, Ht. cbn [negb]. rewrite IH by assumption.
    now rewrite <- app_assoc.
Qed.

Lemma resolveMcpConfigFiles_trimmed (env : option Env) (files : list string) :
  resolveMcpConfigFiles processEnv env = Some files ->
  files ≠ [] ∧ Forall (fun f => JS.truthy f = true ∧ trim f = f) files.
Proof.
  unfold resolveMcpConfigFiles.
  destruct (envOr processEnv env "KIMI_MCP_CONFIG_FILES") as [[|c source]|];
    try discriminate.
  set (pieces := split "," (String c source)).
  assert (Hall : Forall (fun f => JS.truthy f = true ∧ trim f = f)
                   (List.filter JS.truthy (List.map trim pieces))).
  { clearbody pieces. induction pieces as [|p pieces IH]; [constructor|].
    simpl. destruct (JS.truthy (trim p)) eqn:E; [|exact IH].
    constructor; [split; [exact E|apply trim_idem]|exact IH]. }
  destruct (List.filter JS.truthy (List.map trim pieces)) as [|f fs]; [discriminate|].
  intros [= <-]. split; [discriminate|exact Hall].
Qed.

(** X9: from the options of [runKimi] to the arguments of the CLI in
    print mode.  When [runKimi] gets as far as calling the runner, the
    arguments are the six fixed ones with the working directory, [-m] with
    the model when one was resolved, one [--mcp-config-file] pair for every
    non-blank name of [KIMI_MCP_CONFIG_FILES] (each trimmed, in order), and
    last [--command] with the prompt as it was given.  Without a model
    option the model is the default [kimi-for-coding], whatever
    [KIMI_MODEL_NAME] says in [process.env]. *)
Theorem print_command_line (win32 : bool) (options : EngineRunOptions)
    (mode : KimiRunMode) (config : KimiConfig) (effectiveEnv : option Env)
    (plainLogs : bool) :
  runKimiStart processEnv win32 options = Run mode config effectiveEnv plainLogs ->
  args (buildKimiPrintCommand (optPrompt options) (workingDir config) (model config)
          (mcpConfigFiles config))
  = ["--print"; "--output-format"; "stream-json"; "--work-dir"; optWorkingDir options;
     "--yolo"]
      ++ match model config with Some m => ["-m"; m] | None => [] end
      ++ mcpFlags (default [] (mcpConfigFiles config))
      ++ ["--command"; optPrompt options]
  ∧ mcpConfigFiles config
    = match envOr processEnv effectiveEnv "KIMI_MCP_CONFIG_FILES" with
      | Some source =>
          match List.filter JS.truthy (List.map trim (split "," source)) with
          | [] => None
          | files => Some files
          end
      | None => None
      end
  ∧ (optModel options = None → model config = Some defaultModel).
Proof.
  unfold runKimiStart.
  remember (resolveModel processEnv (Some (default defaultModel (optModel options))))
    as rm eqn:Hrm.
  destruct (negb (JS.truthy (optPrompt options))); [discriminate|].
  destruct (negb (JS.truthy (optWorkingDir options))); [discriminate|].
  destruct (shouldSkipKimi processEnv (optEnv options)); [discriminate|].
  destruct win32; [discriminate|].
  intros [= <- <- <- <-]. cbn [workingDir model mcpConfigFiles].
  split; [|split].
  - unfold buildKimiPrintCommand. cbn [args]. rewrite Hrm, appendModel_resolved.
    set (env' := applyEnvDefaults (optEnv options)).
    destruct (resolveMcpConfigFiles processEnv env') as [files|] eqn:E.
    + destruct (resolveMcpConfigFiles_trimmed env' files E) as [Hne Hall].
      unfold appendMcpConfigs. destruct files as [|f files]; [congruence|].
      rewrite appendMcpConfigs_trimmed by exact Hall.
      cbn [default]. now rewrite <- !app_assoc.
    + cbn [appendMcpConfigs default mcpFlags flat_map]. now rewrite <- !app_assoc.
  - unfold resolveMcpConfigFiles.
    destruct (envOr processEnv _ "KIMI_MCP_CONFIG_FILES") as [[|c source]|];
      try reflexivity.
    now destruct (List.filter _ _).
  - intros Hm. rewrite Hrm, Hm. reflexivity.
Qed.

End KimiCommandLine.

Lemma print_command_line_witness :
  Kimi.args (Kimi.buildKimiPrintCommand "fix the bug" "/repo" (Some "kimi-for-coding")
               (Some ["a.json"; "b.json"]))
  = ["--print"; "--output-format"; "stream-json"; "--work-dir"; "/repo"; "--yolo";
     "-m"; "kimi-for-coding"; "--mcp-config-file"; "a.json"; "--mcp-config-file"; "b.json";
     "--command"; "fix the bug"].
Proof.
  refine (proj1 (print_command_line {[ "KIMI_MODEL_NAME" := "moonshot-v1-128k" ]} false
                  {| Kimi.optPrompt := "fix the bug"; Kimi.optWorkingDir := "/repo";
                     Kimi.optModel := None;
                     Kimi.optEnv := Some {[ "KIMI_MCP_CONFIG_FILES" := " a.json, ,b.json " ]} |}
                  Kimi.Print
                  {| Kimi.workingDir := "/repo"; Kimi.model := Some "kimi-for-coding";
                     Kimi.mcpConfigFiles := Some ["a.json"; "b.json"] |}
                  (Kimi.applyEnvDefaults
                     (Some {[ "KIMI_MCP_CONFIG_FILES" := " a.json, ,b.json " ]}))
                  false _)).
  vm_compute. reflexivity.
Defined.

(** ** How a run of the Kimi CLI ends *)

Section KimiFinish.
Import JS Kimi.

Lemma includes_app_r (a b p : string) :
  includes b p = true -> includes (a +:+ b) p = true.
Proof.
  intros H. induction a as [|c a IH]; [exact H|].
  rewrite append_cons. cbn [includes]. rewrite IH. apply orb_true_r.
Qed.

Lemma toLowerCase_app (a b : string) :
  OpenCode.toLowerCase (a +:+ b) = OpenCode.toLowerCase a +:+ OpenCode.toLowerCase b.
Proof. induction a as [|c a IH]; [reflexivity|]. simpl. now rewrite IH. Qed.

(** X10: how [runKimiPrint] and [runKimiWire] end once the child has
    closed.  With exit code 0 the result is returned whatever the output
    says.  With another exit code, output that mentions [KIMI_API_KEY],
    "LLM not set" or "API key" (in any case of the letters) gives the error
    about the missing key.  Otherwise the error made from the exit code goes
    through the [catch] of the same [try]: when the first ten lines of the
    error output hold "command not found", the caller is told that the Kimi
    binary is not installed, and the exit code is not reported. *)
Theorem kimi_exit_classification (label binary : string) (args : list string)
    (result : Spawn.SpawnResult) :
  (Spawn.exitCode result = 0%Z →
   finish label binary args (Spawn.Resolve result) = inl result)
  ∧ (Spawn.exitCode result ≠ 0%Z →
     maybeThrowAuthError (Spawn.stdout result) (Spawn.stderr result) ≠ None →
     finish label binary args (Spawn.Resolve result) = inr (newError authMessage))
  ∧ (Spawn.exitCode result ≠ 0%Z →
     maybeThrowAuthError (Spawn.stdout result) (Spawn.stderr result) = None →
     includes (OpenCode.toLowerCase (errorSample result)) "command not found" = true →
     finish label binary args (Spawn.Resolve result) = inr (notAvailable binary args)).
Proof.
  unfold finish. split; [|split].
  - intros ->. reflexivity.
  - intros Hc Ha. apply Z.eqb_neq in Hc. rewrite Hc. cbn [negb].
    unfold maybeThrowAuthError in *.
    destruct (_ || _); [|congruence]. reflexivity.
  - intros Hc Ha Hs. apply Z.eqb_neq in Hc. rewrite Hc, Ha. cbn [negb].
    unfold handleNotFoundError, newError. cbn [Spawn.errMessage Spawn.code].
    rewrite <- !append_assoc, toLowerCase_app, includes_app_r by exact Hs.
    reflexivity.
Qed.

End KimiFinish.

(** A shell that cannot find a command of the prompt: exit code 127. *)
Lemma kimi_exit_classification_witness :
  Kimi.finish "Kimi CLI" "kimi" ["--print"]
    (Spawn.Resolve {| Spawn.exitCode := 127; Spawn.stdout := "";
                      Spawn.stderr := "sh: 1: rg: Command not found" |})
  = inr (Kimi.notAvailable "kimi" ["--print"])
  ∧ Kimi.finish "Kimi CLI" "kimi" ["--print"]
      (Spawn.Resolve {| Spawn.exitCode := 1; Spawn.stdout := "Error: LLM not set";
                        Spawn.stderr := "" |})
    = inr (Kimi.newError Kimi.authMessage).
Proof.
  split.
  - apply (proj2 (proj2 (kimi_exit_classification "Kimi CLI" "kimi" ["--print"]
                           {| Spawn.exitCode := 127; Spawn.stdout := "";
                              Spawn.stderr := "sh: 1: rg: Command not found" |})));
      [discriminate|reflexivity|reflexivity].
  - apply (proj1 (proj2 (kimi_exit_classification "Kimi CLI" "kimi" ["--print"]
                           {| Spawn.exitCode := 1; Spawn.stdout := "Error: LLM not set";
                              Spawn.stderr := "" |})));
      [discriminate|discriminate].
Defined.

(** ** The environment and the dry run of [runKimi] *)

Section KimiEnvironment.
Import JS Kimi.

Lemma fillIn_lookup (key value : string) (next : Env) (k : string) :
  JS.truthy value = true ->
  fillIn key value next !! k
  = if bool_decide (k = key)
    then match next !! key with
         | Some (String _ _ as v) => Some v
         | _ => Some value
         end
    else next !! k.
Proof.
  intros Hv. unfold fillIn.
  destruct (decide (k = key)) as [->|Hk].
  - rewrite bool_decide_eq_true_2 by reflexivity.
    destruct (next !! key) as [[|c v]|] eqn:E; rewrite ?E, ?lookup_insert_eq; reflexivity.
  - rewrite bool_decide_eq_false_2 by exact Hk.
    destruct (next !! key) as [[|c v]|] eqn:E; rewrite ?lookup_insert_ne by congruence;
      reflexivity.
Qed.

Lemma fillIn_fixed (key value : string) (next : Env) (v : string) :
  next !! key = Some v -> JS.truthy v = true -> fillIn key value next = next.
Proof. intros H Hv. unfold fillIn. rewrite H. now destruct v. Qed.

(** The value of a variable after [applyEnvDefaults]. *)
Definition filled (fallback : string) (value : option string) : option string :=
  match value with
  | Some (String _ _ as v) => Some v
  | _ => Some fallback
  end.

Lemma applyEnvDefaults_lookup (next : Env) (k : string) :
  ∃ result,
    applyEnvDefaults (Some next) = Some result
    ∧ result !! k
      = if bool_decide (k = "KIMI_MODEL_NAME") then filled defaultModel (next !! k)
        else if bool_decide (k = "KIMI_BASE_URL") then filled DEFAULT_BASE_URL (next !! k)
        else if bool_decide (k = "KIMI_MODEL_MAX_CONTEXT_SIZE")
        then filled DEFAULT_MAX_CONTEXT (next !! k)
        else next !! k.
Proof.
  eexists. split; [reflexivity|]. cbv zeta.
  rewrite !fillIn_lookup by reflexivity.
  repeat case_bool_decide; subst; try congruence; try reflexivity;
    rewrite ?fillIn_lookup by reflexivity;
    repeat (rewrite bool_decide_eq_false_2 by congruence); reflexivity.
Qed.

(** X11: [applyEnvDefaults] fills in the model, the base URL and the
    context size where the environment passed to [runKimi] has no value or
    an empty one; every variable with a value is kept, no other variable is
    added, and applying the defaults again changes nothing.  Without an
    environment nothing is filled in. *)
Theorem env_defaults_fill_only_gaps (next : Env) :
  ∃ result,
    applyEnvDefaults (Some next) = Some result
    ∧ (∀ k v, next !! k = Some v → JS.truthy v = true → result !! k = Some v)
    ∧ (∀ k, k ∈ ["KIMI_MODEL_NAME"; "KIMI_BASE_URL"; "KIMI_MODEL_MAX_CONTEXT_SIZE"] →
            ∃ v, result !! k = Some v ∧ JS.truthy v = true)
    ∧ (∀ k, k ∉ ["KIMI_MODEL_NAME"; "KIMI_BASE_URL"; "KIMI_MODEL_MAX_CONTEXT_SIZE"] →
            result !! k = next !! k)
    ∧ applyEnvDefaults (Some result) = Some result
    ∧ applyEnvDefaults None = None.
Proof.
  destruct (applyEnvDefaults (Some next)) as [result|] eqn:E; [|discriminate].
  exists result. split; [reflexivity|].
  assert (L : ∀ k, result !! k
              = if bool_decide (k = "KIMI_MODEL_NAME") then filled defaultModel (next !! k)
                else if bool_decide (k = "KIMI_BASE_URL")
                then filled DEFAULT_BASE_URL (next !! k)
                else if bool_decide (k = "KIMI_MODEL_MAX_CONTEXT_SIZE")
                then filled DEFAULT_MAX_CONTEXT (next !! k)
                else next !! k).
  { intros k. destruct (applyEnvDefaults_lookup next k) as (r & Hr & Hk). congruence. }
  assert (Hfilled : ∀ fallback value,
            JS.truthy fallback = true →
            ∃ v, filled fallback value = Some v ∧ JS.truthy v = true).
  { intros fallback [[|c v]|] Hf; simpl; eauto. }
  split; [|split; [|split; [|split]]].
  - intros k v Hk Hv. rewrite L, Hk. destruct v; [discriminate|].
    repeat case_bool_decide; reflexivity.
  - intros k Hk. rewrite L.
    repeat (apply elem_of_cons in Hk as [->|Hk]);
      [| | |apply elem_of_nil in Hk; contradiction];
      repeat (first [rewrite bool_decide_eq_true_2 by reflexivity
                    |rewrite bool_decide_eq_false_2 by discriminate]);
      now apply Hfilled.
  - intros k Hk. rewrite L.
    repeat (rewrite bool_decide_eq_false_2; [|intros ->; apply Hk; set_solver]).
    reflexivity.
  - clear E. unfold applyEnvDefaults. cbv zeta.
    destruct (Hfilled defaultModel (next !! "KIMI_MODEL_NAME") eq_refl) as (v1 & H1 & T1).
    destruct (Hfilled DEFAULT_BASE_URL (next !! "KIMI_BASE_URL") eq_refl) as (v2 & H2 & T2).
    destruct (Hfilled DEFAULT_MAX_CONTEXT (next !! "KIMI_MODEL_MAX_CONTEXT_SIZE") eq_refl)
      as (v3 & H3 & T3).
    rewrite (fillIn_fixed "KIMI_MODEL_NAME" _ result v1)
      by (rewrite ?L; assumption).
    rewrite (fillIn_fixed "KIMI_BASE_URL" _ result v2)
      by (rewrite ?L; assumption).
    rewrite (fillIn_fixed "KIMI_MODEL_MAX_CONTEXT_SIZE" _ result v3)
      by (rewrite ?L; assumption).
    reflexivity.
  - reflexivity.
Qed.

Variable processEnv : Env.

(** X12: a dry run comes before everything but the two checks of the
    options.  With [CODEMACHINE_SKIP_KIMI] set to [1] or [true] (in the
    environment passed, or else in [process.env]), a prompt and a working
    directory, [runKimi] reports one line with at most the first 160
    characters of the prompt and returns without starting the CLI, on
    Windows too; without a prompt it throws even then. *)
Theorem dry_run_skips_the_cli (win32 : bool) (options : EngineRunOptions) :
  shouldSkipKimi processEnv (optEnv options) = true ->
  (optPrompt options = "" →
   runKimiStart processEnv win32 options = StartError "runKimi requires a prompt.")
  ∧ (optPrompt options ≠ "" → optWorkingDir options ≠ "" →
     ∃ preview,
       runKimiStart processEnv win32 options
       = DryRun ("[dry-run] Kimi skipped: " +:+ preview +:+ nl)
       ∧ (String.length preview <= 163)%nat
       ∧ String.prefix (sliceTo 160 (optPrompt options)) preview = true).
Proof.
  intros Hskip. unfold runKimiStart. split.
  - intros ->. reflexivity.
  - intros Hp Hw. rewrite Hskip.
    destruct (optPrompt options) as [|c p] eqn:Ep; [congruence|].
    destruct (optWorkingDir options) as [|d w]; [congruence|]. cbn [JS.truthy negb].
    eexists. split; [reflexivity|].
    destruct (160 <? String.length (String c p))%nat eqn:E.
    + split.
      * rewrite length_append. pose proof (sliceTo_length 160 (String c p)). simpl in *. lia.
      * apply prefix_app.
    + apply Nat.ltb_ge in E. split; [lia|].
      assert (Hs : ∀ n s, (String.length s <= n)%nat → sliceTo n s = s).
      { clear. induction n as [|n IH]; intros [|c s] H; simpl in *;
          try reflexivity; try lia. now rewrite IH by lia. }
      rewrite Hs by exact E. rewrite <- (append_nil_r (String c p)) at 2.
      apply prefix_app.
Qed.

End KimiEnvironment.

(** A prompt of 200 characters, on Windows, with the flag in
    [process.env]. *)
Lemma dry_run_skips_the_cli_witness :
  ∃ preview,
    Kimi.runKimiStart {[ "CODEMACHINE_SKIP_KIMI" := "true" ]} true
      {| Kimi.optPrompt := Json.zeros 200; Kimi.optWorkingDir := "/repo";
         Kimi.optModel := None; Kimi.optEnv := None |}
    = Kimi.DryRun ("[dry-run] Kimi skipped: " +:+ preview +:+ JS.nl)
    ∧ (String.length preview <= 163)%nat
    ∧ String.prefix (JS.sliceTo 160 (Json.zeros 200)) preview = true.
Proof.
  refine (proj2 (dry_run_skips_the_cli {[ "CODEMACHINE_SKIP_KIMI" := "true" ]} true
                   {| Kimi.optPrompt := Json.zeros 200; Kimi.optWorkingDir := "/repo";
                      Kimi.optModel := None; Kimi.optEnv := None |} _) _ _).
  - vm_compute. reflexivity.
  - discriminate.
  - discriminate.
Defined.

(** ** Sub-agents and tool names (Kimi wire mode) *)

Section WireEvents.
Import JS Val.

Variable formatCommand : string -> commandStatus -> string.
Variable formatResult : string -> bool -> string.
Variable formatStatus : string -> string.

Local Abbreviation handleFuel := (handleWireEvent formatCommand formatResult formatStatus).
Local Abbreviation handleEv := (handleEvent formatCommand formatResult formatStatus).

(** A call of a hook with the label of a sub-agent put in. *)
Definition labelled (label : string) (e : effect) : effect :=
  match e with
  | OnData chunk => OnData (applyPrefix chunk (Some label))
  | _ => e
  end.

Lemma emitUsageSnapshot_labelled (label : string) (payload : jsval) :
  List.map (labelled label) (emitUsageSnapshot payload) = emitUsageSnapshot payload.
Proof.
  unfold emitUsageSnapshot.
  repeat match goal with
         | |- context [match ?x with _ => _ end] => destruct x eqn:?
         end; reflexivity.
Qed.

(** An event that is not a [subagent_event] is handled with a prefix as
    without, the prefix being put into every chunk for [onData]. *)
Lemma prefix_uniform (fuel : nat) (event : json) (names : gmap string string)
    (label : string) :
  asString (field "type" event) ≠ Some "subagent_event" ->
  handleFuel fuel (Some event) names (Some label)
  = (fst (handleFuel fuel (Some event) names None),
     List.map (labelled label) (snd (handleFuel fuel (Some event) names None))).
Proof.
  intros Htype. destruct fuel as [|fuel]; [reflexivity|].
  cbn [handleWireEvent].
  destruct (negb (truthy (Some event))); [reflexivity|].
  destruct (asString (field "type" event)) as [type|]; [|reflexivity].
  destruct (negb (JS.truthy type)); [reflexivity|].
  repeat match goal with
         | |- context [if String.eqb type ?s then _ else _] =>
             destruct (String.eqb type s) eqn:?
         end;
    try (repeat match goal with
                | |- context [match ?x with _ => _ end] => destruct x eqn:?
                end; reflexivity).
  - cbn [fst snd]. rewrite List.map_app, emitUsageSnapshot_labelled.
    now destruct (asString (field "message" event)) as [[|c m]|].
  - exfalso. apply Htype. f_equal. now apply String.eqb_eq.
Qed.

(** X13: the events of a sub-agent.  A [subagent_event] with a task id
    and an inner event that is not itself a [subagent_event] is handled as
    the inner event would be on its own (same tool-name registry, same
    hooks, same usage snapshots), with "Subagent <id>" put into every chunk
    for [onData]; the prefix the event itself arrived under is dropped. *)
Theorem subagent_events_are_labelled (outer nested : json) (taskId : string)
    (names : gmap string string) (prefix : option string) :
  asString (field "type" outer) = Some "subagent_event" ->
  asString (field "task_tool_call_id" outer) = Some taskId ->
  taskId ≠ "" ->
  asObject (field "event" outer) = Some nested ->
  asString (field "type" nested) ≠ Some "subagent_event" ->
  handleEv (Some outer) names prefix
  = (fst (handleEv (Some nested) names None),
     List.map (labelled ("Subagent " +:+ taskId)) (snd (handleEv (Some nested) names None))).
Proof.
  intros Htype Hid Hne Hnested Hinner.
  pose proof (depth_nested outer nested Hnested) as Hdepth.
  unfold handleEvent at 1.
  destruct (depth outer) as [|fuel] eqn:Ed; [lia|].
  cbn [handleWireEvent].
  destruct outer as [| | | | |fields]; try discriminate.
  cbn [truthy negb]. rewrite Htype. cbn [JS.truthy negb String.eqb Ascii.eqb Bool.eqb].
  rewrite Hid, Hnested. cbn [orElse].
  destruct taskId as [|c t]; [congruence|].
  destruct (truthy (Some nested)) eqn:Et.
  - rewrite prefix_uniform by exact Hinner.
    now rewrite !(handleEvent_fuel formatCommand formatResult formatStatus fuel) by lia.
  - unfold handleEvent. destruct (depth nested) as [|n]; [reflexivity|].
    cbn [handleWireEvent]. rewrite Et. reflexivity.
Qed.

(** X14: a tool result is reported under the name of its call.  After a
    [tool_call] with an id and a name, the [tool_result] with that id is
    reported with the name of the call (whatever name the result carries),
    as a success or as an error, and the id is forgotten again. *)
Theorem tool_result_named_after_its_call (call result : json) (id name : string)
    (names : gmap string string) (prefix : option string) :
  asString (field "type" call) = Some "tool_call" ->
  asString (field "id" call) = Some id ->
  id ≠ "" ->
  asString (field "name" call) = Some name ->
  asString (field "type" result) = Some "tool_result" ->
  asString (field "id" result) = Some id ->
  let called := handleEv (Some call) names prefix in
  let reported := handleEv (Some result) (fst called) prefix in
  snd called = [OnData (applyPrefix (formatCommand name Started +:+ nl) prefix)]
  ∧ (∃ rest,
       snd reported
       = [OnData (applyPrefix
                    (formatCommand name (if isErrorEvent result then Error else Success)
                       +:+ rest) prefix)])
  ∧ fst reported = delete id names.
Proof.
  intros Hct Hcid Hne Hname Hrt Hrid. cbv zeta.
  destruct id as [|c i]; [congruence|].
  assert (Hcall : handleEv (Some call) names prefix
                  = (<[String c i := name]> names,
                     [OnData (applyPrefix (formatCommand name Started +:+ nl) prefix)])).
  { unfold handleEvent. destruct call as [| | | | |fields]; try discriminate.
    cbn [depth handleWireEvent truthy negb].
    rewrite Htype || rewrite Hct.
    cbn [JS.truthy negb String.eqb Ascii.eqb Bool.eqb].
    now rewrite Hname, Hcid. }
  rewrite Hcall. cbn [fst snd]. split; [reflexivity|].
  unfold handleEvent. destruct result as [| | | | |fields]; try discriminate.
  cbn [depth handleWireEvent truthy negb]. rewrite Hrt.
  cbn [JS.truthy negb String.eqb Ascii.eqb Bool.eqb]. rewrite Hrid.
  rewrite lookup_insert_eq. cbn [orElse default fst snd].
  split.
  - destruct (JS.truthy _); eexists; rewrite ?append_assoc; reflexivity.
  - apply delete_insert_eq.
Qed.

End WireEvents.

(** A sub-agent that begins a step, and a shell call that fails. *)
Lemma subagent_events_are_labelled_witness :
  handleEvent Plain.formatCommand Plain.formatResult Plain.formatStatus
    (Some (JObj [("type", JStr "subagent_event"); ("task_tool_call_id", JStr "t1");
                 ("event", JObj [("type", JStr "step_begin")])]))
    ∅ (Some "outer")
  = (∅, [OnData "Subagent t1: [status] Kimi started a new step
"]).
Proof.
  rewrite (subagent_events_are_labelled Plain.formatCommand Plain.formatResult
             Plain.formatStatus
             (JObj [("type", JStr "subagent_event"); ("task_tool_call_id", JStr "t1");
                    ("event", JObj [("type", JStr "step_begin")])])
             (JObj [("type", JStr "step_begin")]) "t1" ∅ (Some "outer"));
    try reflexivity; discriminate.
Defined.

Lemma tool_result_named_after_its_call_witness :
  snd (handleEvent Plain.formatCommand Plain.formatResult Plain.formatStatus
         (Some (JObj [("type", JStr "tool_result"); ("id", JStr "c1");
                      ("name", JStr "other"); ("is_error", JBool true)]))
         (fst (handleEvent Plain.formatCommand Plain.formatResult Plain.formatStatus
                 (Some (JObj [("type", JStr "tool_call"); ("id", JStr "c1");
                              ("name", JStr "Shell")])) ∅ None))
         None)
  = [OnData ("Command: Shell" +:+ JS.nl)]
  ∧ fst (handleEvent Plain.formatCommand Plain.formatResult Plain.formatStatus
           (Some (JObj [("type", JStr "tool_result"); ("id", JStr "c1");
                        ("name", JStr "other"); ("is_error", JBool true)]))
           (fst (handleEvent Plain.formatCommand Plain.formatResult Plain.formatStatus
                   (Some (JObj [("type", JStr "tool_call"); ("id", JStr "c1");
                                ("name", JStr "Shell")])) ∅ None))
           None)
    = delete "c1" ∅.
Proof.
  destruct (tool_result_named_after_its_call Plain.formatCommand Plain.formatResult
              Plain.formatStatus
              (JObj [("type", JStr "tool_call"); ("id", JStr "c1"); ("name", JStr "Shell")])
              (JObj [("type", JStr "tool_result"); ("id", JStr "c1");
                     ("name", JStr "other"); ("is_error", JBool true)])
              "c1" "Shell" ∅ None eq_refl eq_refl ltac:(discriminate) eq_refl eq_refl eq_refl)
    as (_ & _ & Hnames).
  split; [reflexivity|exact Hnames].
Defined.

(** ** Attempts of the retry loop *)

Section RetryBounds.
Import Retry.

Context {T M : Type}.
Variable formatStatus : string -> string.
Variable runOperation : nat -> option Env -> T + exn.
Variable context : PermissionRetryContext M.

Local Abbreviation rPass := (pass formatStatus runOperation context).
Local Abbreviation rLoop := (loop formatStatus runOperation context).
Local Abbreviation ceiling := (maxAttempts context).

Lemma pass_appends (attempts : Z) (b a : option Env) (w : world) :
  calls (snd (rPass attempts b a w)) = calls w ++ [a].
Proof.
  destruct (pass_calls formatStatus runOperation context attempts b a w)
    as (w' & <- & H). exact H.
Qed.

(** The loop ends, after at least one call and at most one call more than
    there are retries left. *)
Lemma loop_calls (fuel : nat) (attempts : Z) (b a : option Env) (w : world) :
  (ceiling - attempts < Z.of_nat fuel)%Z ->
  (0 < fuel)%nat ->
  ∃ r w',
    rLoop fuel attempts b a w = (Some r, w')
    ∧ (∃ more, calls w' = calls w ++ a :: more
               ∧ (Z.of_nat (length more) <= Z.max 0 (ceiling - attempts))%Z).
Proof.
  revert attempts b a w. induction fuel as [|fuel IH]; intros attempts b a w Hfuel Hpos;
    [lia|].
  simpl. pose proof (pass_appends attempts b a w) as Hcalls.
  destruct (rPass attempts b a w) as [[r|[[attempts' b'] a']] w1] eqn:E.
  - exists r, w1. split; [reflexivity|]. exists []. split; [exact Hcalls|simpl; lia].
  - apply pass_continues in E as [Hlt ->].
    destruct (IH (attempts + 1)%Z b' a' w1) as (r & w' & Hloop & more & Hmore & Hlen);
      [lia|lia|].
    exists r, w'. split; [exact Hloop|]. exists (a' :: more).
    cbn [snd] in Hcalls. rewrite Hmore, Hcalls, <- app_assoc. split; [reflexivity|].
    simpl length. lia.
Qed.

(** The calls of a run: the first one gets the merged environment, and
    at most [maxRetries] more follow. *)
Lemma run_calls (m0 : M) :
  ∃ r w more,
    runWithPermissionMediator formatStatus runOperation context m0 = (Some r, w)
    ∧ calls w
      = mergeEnv (baseEnv context)
          (getSessionEnv (mediator context) (ctxEngine context) m0) :: more
    ∧ (Z.of_nat (length more) <= Z.max 0 (default 3%Z (maxRetries context)))%Z.
Proof.
  unfold runWithPermissionMediator.
  destruct (loop_calls (S (Z.to_nat ceiling)) 0
              (mergeEnv (baseEnv context)
                 (getSessionEnv (mediator context) (ctxEngine context) m0))
              (mergeEnv (baseEnv context)
                 (getSessionEnv (mediator context) (ctxEngine context) m0))
              {| calls := []; mstate := m0; stdout := [] |})
    as (r & w & Hloop & more & Hcalls & Hlen); [lia|lia|].
  exists r, w, more. split; [exact Hloop|]. split; [exact Hcalls|].
  unfold Retry.maxAttempts in Hlen. now rewrite Z.sub_0_r in Hlen.
Qed.

(** X15: [runWithPermissionMediator] always comes to an end, whatever
    the operation and the mediator do: it returns or throws after calling
    the operation at least once and at most [maxRetries + 1] times (4 times
    with the default), and the first call gets the base environment with
    the environment of the session laid over it. *)
Theorem retry_calls_bounded (m0 : M) :
  ∃ r w more,
    runWithPermissionMediator formatStatus runOperation context m0 = (Some r, w)
    ∧ calls w
      = mergeEnv (baseEnv context)
          (getSessionEnv (mediator context) (ctxEngine context) m0) :: more
    ∧ (Z.of_nat (length more) <= Z.max 0 (default 3%Z (maxRetries context)))%Z.
Proof. exact (run_calls m0). Qed.

End RetryBounds.

(** ** Grants kept for the session *)

Section SessionGrants.
Import Retry.

Variable processEnv : Env.
Variable formatStatus : string -> string.

Local Abbreviation theMediator := (PermissionMediator.instance processEnv).

(** A run for the engine [opencode] served by the mediator of the
    process. *)
Definition servedRun (base : option Env) (workingDir : string)
  : PermissionRetryContext PermissionMediator.state :=
  {| ctxEngine := "opencode"; ctxWorkingDir := workingDir; baseEnv := base;
     mediator := theMediator; maxRetries := None |}.

(** The user is at a terminal and answers the next question with
    [answer]. *)
Definition answers (answer : PermissionMediator.choice) (st : PermissionMediator.state)
  : Prop :=
  PermissionMediator.isTTY st = true
  ∧ ∃ rest, PermissionMediator.menu st = answer :: rest.

Lemma lookup_granted (policy : string) (env : Env) :
  (({[ "OPENCODE_PERMISSION" := policy ]} : Env) ∪ env) !! "OPENCODE_PERMISSION" = Some policy.
Proof.
  rewrite lookup_union_l' by (rewrite lookup_singleton_eq; eauto).
  apply lookup_singleton_eq.
Qed.

Lemma first_call {T : Type} (op : nat -> option Env -> T + exn)
    (base : option Env) (workingDir : string) (st : PermissionMediator.state) :
  calls (snd (runWithPermissionMediator formatStatus op (servedRun base workingDir) st))
    !! 0%nat
  = Some (mergeEnv base (PermissionMediator.getSessionEnv "opencode" st)).
Proof.
  destruct (run_calls formatStatus op (servedRun base workingDir) st)
    as (r & w & more & Hrun & Hcalls & _).
  rewrite Hrun. cbn [snd]. rewrite Hcalls. reflexivity.
Qed.

(** X16: "Always allow" is remembered, "Allow once" is not.  An
    operation asks for a permission at its first attempt and succeeds at
    the second; the user allows the request.  Either way the second attempt
    runs with the policy of the grant in [OPENCODE_PERMISSION].  After
    "Always allow" every later run served by the mediator starts with that
    policy, which also replaces a policy given in the base environment of
    that run; after "Allow once" a later run starts as if nothing had been
    asked. *)
Theorem always_allow_is_remembered {T : Type} (op later : nat -> option Env -> T + exn)
    (error : PermissionRequiredError) (value : T) (update : Policy.PermissionPolicyUpdate)
    (base base' : option Env) (dir dir' : string) (st : PermissionMediator.state)
    (answer : PermissionMediator.choice) :
  let env0 := mergeEnv base (PermissionMediator.getSessionEnv "opencode" st) in
  op 0%nat env0 = inr (PermissionRequired error) ->
  (∀ env, op 1%nat env = inl value) ->
  Policy.buildOpenCodePermissionUpdate processEnv (request error) env0 = Some update ->
  answers answer st ->
  answer = PermissionMediator.ChooseAlways ∨ answer = PermissionMediator.ChooseOnce ->
  let run := runWithPermissionMediator formatStatus op (servedRun base dir) st in
  let next := runWithPermissionMediator formatStatus later (servedRun base' dir')
                (mstate (snd run)) in
  fst run = Some (Returned value)
  ∧ (∃ env1, calls (snd run) = [env0; Some env1]
             ∧ env1 !! "OPENCODE_PERMISSION" = Policy.envDelta update !! "OPENCODE_PERMISSION")
  ∧ (∃ policy, Policy.envDelta update = {[ "OPENCODE_PERMISSION" := policy ]})
  ∧ (answer = PermissionMediator.ChooseAlways →
     ∃ first, calls (snd next) !! 0%nat = Some (Some first)
              ∧ first !! "OPENCODE_PERMISSION"
                = Policy.envDelta update !! "OPENCODE_PERMISSION")
  ∧ (answer = PermissionMediator.ChooseOnce →
     calls (snd next) !! 0%nat
     = Some (mergeEnv base' (PermissionMediator.getSessionEnv "opencode" st))).
Proof.
  intros env0 Hop Hvalue Hupdate (Htty & rest & Hmenu) Hanswer run next.
  assert (Hdelta : ∃ policy, Policy.envDelta update = {[ "OPENCODE_PERMISSION" := policy ]}).
  { unfold Policy.buildOpenCodePermissionUpdate in Hupdate.
    destruct (Policy.updatedPolicy processEnv (request error) env0) as [[p s]|];
      [|discriminate].
    injection Hupdate as <-. eexists. reflexivity. }
  destruct Hdelta as [policy Hdelta].
  assert (Hne : Policy.envDelta update ≠ ∅).
  { rewrite Hdelta. intros H. apply (f_equal (.!! "OPENCODE_PERMISSION")) in H.
    rewrite lookup_singleton_eq, lookup_empty in H. discriminate. }
  assert (Hrun : run
                 = (Some (Returned value),
                    {| calls := [env0; mergeEnv env0 (Some (Policy.envDelta update))];
                       mstate :=
                         match answer with
                         | PermissionMediator.ChooseAlways =>
                             PermissionMediator.updateSessionEnv "opencode"
                               (Some (Policy.envDelta update))
                               {| PermissionMediator.sessionEnv :=
                                    PermissionMediator.sessionEnv st;
                                  PermissionMediator.isTTY := true;
                                  PermissionMediator.menu := rest |}
                         | _ =>
                             {| PermissionMediator.sessionEnv :=
                                  PermissionMediator.sessionEnv st;
                                PermissionMediator.isTTY := true;
                                PermissionMediator.menu := rest |}
                         end;
                       stdout := match Policy.summary update with
                                 | "" => []
                                 | n => [formatStatus (n +:+ " â€“ retrying run")
                                          +:+ JS.nl]
                                 end |})).
  { unfold run, runWithPermissionMediator, Retry.maxAttempts.
    cbn [servedRun maxRetries default ctxEngine baseEnv mediator getSessionEnv
         PermissionMediator.instance].
    change (S (Z.to_nat 3)) with 4%nat. cbn [loop].
    unfold pass at 1. cbn [calls length mstate stdout app].
    fold env0. rewrite Hop.
    unfold Retry.maxAttempts.
    cbn [servedRun maxRetries default ctxEngine ctxWorkingDir baseEnv mediator handle
         PermissionMediator.instance Z.leb Z.compare].
    unfold PermissionMediator.handle, PermissionMediator.buildPolicy.
    cbn [optEngine currentEnv String.eqb Ascii.eqb Bool.eqb].
    rewrite Hupdate, Htty, Hmenu. cbn [negb tail].
    destruct Hanswer as [-> | ->]; cbn [outcome scope decisionEnvDelta note];
      destruct (Policy.summary update);
      unfold pass; cbn [calls length mstate stdout app];
      rewrite Hvalue; reflexivity. }
  assert (Hgranted : ∀ env : Env, Policy.envDelta update ∪ env ≠ ∅).
  { intros env H. apply (f_equal (.!! "OPENCODE_PERMISSION")) in H.
    rewrite Hdelta, lookup_granted, lookup_empty in H. discriminate. }
  assert (Henv1 : ∃ env1, mergeEnv env0 (Some (Policy.envDelta update)) = Some env1
                          ∧ env1 !! "OPENCODE_PERMISSION"
                            = Policy.envDelta update !! "OPENCODE_PERMISSION").
  { unfold mergeEnv. rewrite bool_decide_eq_false_2 by exact Hne.
    eexists. split; [reflexivity|].
    now rewrite Hdelta, lookup_granted, lookup_singleton_eq. }
  rewrite Hrun. cbn [fst snd calls mstate].
  split; [reflexivity|]. split.
  { destruct Henv1 as (env1 & -> & H1). exists env1. now split. }
  split; [eauto|]. split.
  - intros ->. unfold next. rewrite Hrun. cbn [snd mstate]. rewrite first_call.
    unfold PermissionMediator.updateSessionEnv.
    rewrite bool_decide_eq_false_2 by exact Hne.
    unfold PermissionMediator.getSessionEnv. cbn [PermissionMediator.sessionEnv].
    rewrite lookup_insert_eq. unfold mergeEnv.
    rewrite bool_decide_eq_false_2 by apply Hgranted.
    eexists. split; [reflexivity|].
    now rewrite Hdelta, <- (assoc_L (∪)), lookup_granted, lookup_singleton_eq.
  - intros ->. unfold next. rewrite Hrun. cbn [snd mstate]. rewrite first_call.
    reflexivity.
Qed.

End SessionGrants.

(** The request for [bash] / ["ls -la"], allowed for good; a later run
    comes with a policy of its own in its base environment. *)
Definition asksOnce (n : nat) (env : option Env) : unit + exn :=
  match n with
  | O => inr (PermissionRequired bashError)
  | _ => inl tt
  end.

Lemma always_allow_is_remembered_witness :
  ∃ first,
    Retry.calls
      (snd (Retry.runWithPermissionMediator Plain.formatStatus alwaysBlocked
              (servedRun ∅ (Some {[ "OPENCODE_PERMISSION" := "{}" ]}) "/later")
              (Retry.mstate
                 (snd (Retry.runWithPermissionMediator Plain.formatStatus asksOnce
                         (servedRun ∅ None "/repo")
                         {| PermissionMediator.sessionEnv := ∅;
                            PermissionMediator.isTTY := true;
                            PermissionMediator.menu := [PermissionMediator.ChooseAlways] |})))))
      !! 0%nat = Some (Some first)
    ∧ first !! "OPENCODE_PERMISSION" = Some (Json.lit "{'bash':{'ls -la':'allow'}}").
Proof.
  destruct (always_allow_is_remembered ∅ Plain.formatStatus asksOnce alwaysBlocked
              bashError tt
              {| Policy.envDelta :=
                   {[ "OPENCODE_PERMISSION" := Json.lit "{'bash':{'ls -la':'allow'}}" ]};
                 Policy.summary := "Allowed bash ls -la" |}
              None (Some {[ "OPENCODE_PERMISSION" := "{}" ]}) "/repo" "/later"
              {| PermissionMediator.sessionEnv := ∅; PermissionMediator.isTTY := true;
                 PermissionMediator.menu := [PermissionMediator.ChooseAlways] |}
              PermissionMediator.ChooseAlways)
    as (_ & _ & _ & Halways & _).
  - reflexivity.
  - intros env. reflexivity.
  - reflexivity.
  - split; [reflexivity|]. eexists. reflexivity.
  - left. reflexivity.
  - destruct (Halways eq_refl) as (first & Hfirst & Hpolicy).
    exists first. split; [exact Hfirst|]. rewrite Hpolicy. reflexivity.
Defined.

(** ** Requests without a terminal *)

Section WithoutTerminal.
Import Retry.

Variable processEnv : Env.
Variable formatStatus : string -> string.

(** The message of the error that the mediator throws when it cannot
    ask. *)
Definition refusal (engine : string) (error : PermissionRequiredError)
    (env : option Env) : string :=
  match PermissionMediator.buildPolicy processEnv engine (request error) env with
  | None =>
      "Permission request for " +:+ engine
        +:+ " cannot be auto-resolved. Please configure the engine manually or update your policy."
  | Some _ =>
      "Permission required: " +:+ PermissionMediator.describeRequest (request error)
        +:+ ". Re-run in an interactive terminal or preconfigure OPENCODE_PERMISSION."
  end.

(** X17: a permission request in a run without a terminal (or for an
    engine without policy builder) ends the run at once.  When the
    operation asks for a permission and stdout is not a TTY, the mediator
    throws; [runWithPermissionMediator] passes that error on in the place of
    the [PermissionRequiredError], after a single call of the operation,
    with nothing asked, nothing written and nothing kept for the session. *)
Theorem request_without_terminal_fails_at_once {T : Type}
    (op : nat -> option Env -> T + exn) (error : PermissionRequiredError)
    (engine dir : string) (base : option Env) (retries : option Z)
    (st : PermissionMediator.state) :
  let context :=
    {| ctxEngine := engine; ctxWorkingDir := dir; baseEnv := base;
       mediator := PermissionMediator.instance processEnv; maxRetries := retries |} in
  let env0 := mergeEnv base (PermissionMediator.getSessionEnv engine st) in
  (0 < default 3 retries)%Z ->
  PermissionMediator.isTTY st = false ->
  op 0%nat env0 = inr (PermissionRequired error) ->
  runWithPermissionMediator formatStatus op context st
  = (Some (Thrown (OtherError (refusal engine error env0))),
     {| calls := [env0]; mstate := st; stdout := [] |}).
Proof.
  intros context env0 Hretries Htty Hop.
  unfold runWithPermissionMediator, Retry.maxAttempts.
  cbn [context maxRetries ctxEngine baseEnv mediator getSessionEnv
       PermissionMediator.instance].
  fold env0. cbn [loop]. unfold pass. cbn [calls length mstate stdout app].
  rewrite Hop. unfold Retry.maxAttempts. cbn [context maxRetries].
  replace (default 3 retries <=? 0)%Z with false by (symmetry; apply Z.leb_gt; lia).
  cbn [context ctxEngine ctxWorkingDir mediator handle PermissionMediator.instance].
  unfold PermissionMediator.handle, refusal. cbn [optEngine currentEnv].
  destruct (PermissionMediator.buildPolicy processEnv engine (request error) env0).
  - rewrite Htty. reflexivity.
  - reflexivity.
Qed.

End WithoutTerminal.

(** The request for [bash] in a pipeline. *)
Lemma request_without_terminal_fails_at_once_witness :
  Retry.runWithPermissionMediator Plain.formatStatus alwaysBlocked
    {| Retry.ctxEngine := "opencode"; Retry.ctxWorkingDir := "/repo";
       Retry.baseEnv := None; Retry.mediator := PermissionMediator.instance ∅;
       Retry.maxRetries := None |}
    {| PermissionMediator.sessionEnv := ∅; PermissionMediator.isTTY := false;
       PermissionMediator.menu := [PermissionMediator.ChooseAlways] |}
  = (Some (Retry.Thrown
             (OtherError "Permission required: bash (ls -la). Re-run in an interactive terminal or preconfigure OPENCODE_PERMISSION.")),
     {| Retry.calls := [None];
        Retry.mstate :=
          {| PermissionMediator.sessionEnv := ∅; PermissionMediator.isTTY := false;
             PermissionMediator.menu := [PermissionMediator.ChooseAlways] |};
        Retry.stdout := [] |}).
Proof.
  rewrite (request_without_terminal_fails_at_once ∅ Plain.formatStatus alwaysBlocked
             bashError "opencode" "/repo" None None
             {| PermissionMediator.sessionEnv := ∅; PermissionMediator.isTTY := false;
                PermissionMediator.menu := [PermissionMediator.ChooseAlways] |});
    [reflexivity|reflexivity|reflexivity|reflexivity].
Defined.

(** ** Output, tracking and timers of [spawnProcess] *)

Section SpawnRuns.
Import Spawn.

Variable options : SpawnOptions.
Variable h : handle.

Local Abbreviation sStep := (step options h).
Local Abbreviation sRun := (run options h).
Local Abbreviation spawnP := (spawnProcess options h).

Ltac open_run :=
  rewrite ?(proc_step options h), ?(active_step options h) in *;
  unfold stepState, stepActive in *.

Ltac split_run :=
  repeat match goal with
         | |- context [match ?x with _ => _ end] => destruct x eqn:?
         end.

Ltac open_handlers :=
  rewrite ?onTimeout_eq, ?onKillTimer_eq, ?abortHandler_eq, ?onError_eq, ?onClose_eq in *;
  unfold onData, withChild, terminate, kill in *;
  cbn [proc activeProcesses settled promise child timerPending timedOut timeoutError
       killTimers abortListener errorListener closeListener stdoutChunks stderrChunks
       sinkStdout sinkStderr alive killed signals stdin] in *.

Ltac open_spawn :=
  repeat match goal with
         | w : world |- _ => destruct w as [? ?]
         | s : state |- _ => destruct s
         | c : Child |- _ => destruct c
         end;
  cbn [proc activeProcesses settled promise child timerPending timedOut timeoutError
       killTimers abortListener errorListener closeListener stdoutChunks stderrChunks
       sinkStdout sinkStderr alive killed signals stdin] in *.

Ltac split_spawn :=
  repeat match goal with
         | |- context [match ?x with _ => _ end] => destruct x eqn:?
         | H : context [match ?x with _ => _ end] |- _ => destruct x eqn:?
         end;
  cbn [proc activeProcesses settled promise child timerPending timedOut timeoutError
       killTimers abortListener errorListener closeListener stdoutChunks stderrChunks
       sinkStdout sinkStderr alive killed signals stdin] in *.

(** The chunks that the child wrote to stdout and to stderr. *)
Definition stdoutOf (evs : list event) : list string :=
  omap (fun ev => match ev with StdoutData text => Some text | _ => None end) evs.
Definition stderrOf (evs : list event) : list string :=
  omap (fun ev => match ev with StderrData text => Some text | _ => None end) evs.

(** With pipes the chunks are collected; with [inherit] there is nothing
    to collect. *)
Definition collected (chunks : list string) : list string :=
  if piped options then chunks else [].

Definition collecting (out err : list string) (s : state) : Prop :=
  settled s = false ∧ promise s = [] ∧ closeListener s = true ∧ timedOut s = false
  ∧ stdoutChunks s = collected out ∧ sinkStdout s = collected out
  ∧ stderrChunks s = collected err ∧ sinkStderr s = collected err.

Lemma step_collecting (out err : list string) (w : world) (ev : event) :
  collecting out err (proc w) -> isBenign ev = true ->
  collecting (out ++ stdoutOf [ev]) (err ++ stderrOf [ev]) (proc (sStep w ev)).
Proof.
  unfold collecting, collected. intros H Hev.
  open_run.
  destruct ev; try discriminate; cbn [stdoutOf stderrOf omap]; rewrite ?app_nil_r;
    split_run; try exact H; open_handlers;
    repeat match goal with H : _ ∧ _ |- _ => destruct H end;
    split_spawn; open_spawn; subst; simpl in *; repeat split; auto; congruence.
Qed.

Lemma run_collecting (evs : list event) (out err : list string) (w : world) :
  collecting out err (proc w) -> forallb isBenign evs = true ->
  collecting (out ++ stdoutOf evs) (err ++ stderrOf evs) (proc (sRun w evs)).
Proof.
  revert out err w. induction evs as [|ev evs IH]; intros out err w H Hall.
  - simpl. unfold stdoutOf, stderrOf. simpl. now rewrite !app_nil_r.
  - simpl in Hall. apply andb_true_iff in Hall as [Hev Hall].
    pose proof (IH _ _ _ (step_collecting out err w ev H Hev) Hall) as H'.
    assert (Ho : stdoutOf (ev :: evs) = stdoutOf [ev] ++ stdoutOf evs)
      by (unfold stdoutOf; simpl; now destruct ev).
    assert (He : stderrOf (ev :: evs) = stderrOf [ev] ++ stderrOf evs)
      by (unfold stderrOf; simpl; now destruct ev).
    rewrite Ho, He, !app_assoc. exact H'.
Qed.

Lemma close_collecting (out err : list string) (w : world) (code : option Z) :
  collecting out err (proc w) ->
  promise (proc (sStep w (ChildClose code)))
  = [Resolve {| exitCode := default 0%Z code;
                stdout := String.concat "" (collected out);
                stderr := String.concat "" (collected err) |}]
  ∧ sinkStdout (proc (sStep w (ChildClose code))) = collected out
  ∧ sinkStderr (proc (sStep w (ChildClose code))) = collected err.
Proof.
  unfold collecting. intros (Hs & Hp & Hc & Ht & Ho & Hso & He & Hse).
  open_run. rewrite Hc, onClose_eq. cbn [promise sinkStdout sinkStderr].
  rewrite Hs, Hp, Ht, Ho, He. auto.
Qed.

(** X18: what a child wrote is what the caller gets.  When neither the
    timeout nor an [error] event came before the [close] event, the promise
    resolves with the exit code ([0] for [null]) and with all the chunks of
    stdout, and of stderr, in the order they arrived and without gaps;
    [onStdout] and [onStderr] were called with the same chunks in the same
    order.  With [stdioMode] [inherit] both texts are empty. *)
Theorem output_is_complete_and_ordered (registry : gset handle) (evs : list event)
    (code : option Z) :
  forallb isBenign evs = true ->
  let w := spawnP registry (evs ++ [ChildClose code]) in
  promise (proc w)
  = [Resolve {| exitCode := default 0%Z code;
                stdout := String.concat "" (collected (stdoutOf evs));
                stderr := String.concat "" (collected (stderrOf evs)) |}]
  ∧ sinkStdout (proc w) = collected (stdoutOf evs)
  ∧ sinkStderr (proc w) = collected (stderrOf evs).
Proof.
  intros Hall w. subst w. unfold Spawn.spawnProcess, Spawn.run.
  rewrite fold_left_app. cbn [fold_left].
  apply close_collecting.
  apply (run_collecting evs [] []); [|exact Hall].
  unfold collecting, collected. cbn. destruct (piped options); auto 10.
Qed.

(** *** Tracking *)

Definition leavesTracking (ev : event) : bool :=
  match ev with
  | ChildError _ | ChildClose _ | KillAllActive => true
  | _ => false
  end.

(** The handle is tracked while both handlers are attached, and the
    other handles are as they were. *)
Definition tracked (registry : gset handle) (w : world) : Prop :=
  activeProcesses w = {[h]} ∪ registry
  ∧ errorListener (proc w) = true ∧ closeListener (proc w) = true.

Lemma step_tracked (registry : gset handle) (w : world) (ev : event) :
  tracked registry w -> leavesTracking ev = false -> tracked registry (sStep w ev).
Proof.
  unfold tracked. intros (Ha & He & Hc) Hev. open_run.
  destruct ev; try discriminate; split_run; open_handlers; auto.
Qed.

(** Once the handle is gone no event brings it back. *)
Lemma step_untracked (w : world) (ev : event) :
  h ∉ activeProcesses w -> h ∉ activeProcesses (sStep w ev).
Proof.
  intros H. open_run.
  destruct ev; split_run; try exact H;
    first [apply not_elem_of_empty
          |rewrite elem_of_difference; tauto].
Qed.

Lemma run_untracked (evs : list event) (w : world) :
  h ∉ activeProcesses w -> h ∉ activeProcesses (sRun w evs).
Proof.
  revert w. induction evs as [|ev evs IH]; intros w H; [exact H|].
  simpl. apply IH, step_untracked, H.
Qed.

(** X19: a child is in [activeProcesses] from the spawn until its
    [error] or [close] event, or until [killAllActiveProcesses] empties the
    set, and never again afterwards; the other children in the set are not
    touched by what happens to this one. *)
Theorem tracked_until_closed (registry : gset handle) (before after : list event)
    (ev : event) :
  forallb (fun e => negb (leavesTracking e)) before = true ->
  activeProcesses (spawnP registry before) = {[h]} ∪ registry
  ∧ (leavesTracking ev = true →
     h ∉ activeProcesses (spawnP registry (before ++ ev :: after))).
Proof.
  intros Hbefore.
  assert (H : tracked registry (spawnP registry before)).
  { unfold Spawn.spawnProcess, Spawn.run.
    assert (H0 : tracked registry (spawned options h registry))
      by (unfold tracked; cbn; auto).
    revert H0. generalize (spawned options h registry).
    induction before as [|e before IH]; intros w H0; [exact H0|].
    simpl in Hbefore. apply andb_true_iff in Hbefore as [He Hb].
    apply negb_true_iff in He. simpl. apply IH; [exact Hb|].
    now apply step_tracked. }
  split; [apply H|]. intros Hev.
  unfold Spawn.spawnProcess, Spawn.run in *. rewrite fold_left_app. cbn [fold_left].
  apply run_untracked. destruct H as (Ha & He & Hc). revert Ha He Hc.
  generalize (fold_left (Spawn.step options h) before (spawned options h registry)).
  intros w Ha He Hc. open_run.
  destruct ev; try discriminate; rewrite ?He, ?Hc;
    first [apply not_elem_of_empty
          |rewrite elem_of_difference, elem_of_singleton; tauto].
Qed.

(** *** Timers after the end *)

(** Once the promise is settled the timeout timer is cleared. *)
Definition timerCleared (s : state) : Prop := settled s = true → timerPending s = false.

Lemma step_timerCleared (w : world) (ev : event) :
  timerCleared (proc w) -> timerCleared (proc (sStep w ev)).
Proof.
  unfold timerCleared. intros H. open_run.
  destruct ev; split_run; try exact H; open_handlers; auto.
Qed.

(** X20: signals of [spawnProcess].  Whatever happens, the child gets at
    most one signal, and it is SIGTERM: none of the timers that are to
    "force kill after 1 second" ever sends SIGKILL, because [child.killed]
    is set as soon as SIGTERM was delivered, and a child that SIGTERM could
    not be delivered to has exited.  Once the promise is settled the
    timeout is cleared: a timer that fires then changes nothing. *)
Theorem only_sigterm_is_ever_sent (registry : gset handle) (evs : list event) :
  let w := spawnP registry evs in
  (signals (child (proc w)) = [] ∨ signals (child (proc w)) = [SIGTERM])
  ∧ (settled (proc w) = true → sStep w TimeoutFires = w).
Proof.
  intros w. split; [apply escalation_never_kills|].
  assert (H : timerCleared (proc w)).
  { subst w. unfold Spawn.spawnProcess, Spawn.run.
    assert (H0 : timerCleared (proc (spawned options h registry)))
      by (unfold timerCleared; cbn; discriminate).
    revert H0. generalize (spawned options h registry).
    induction evs as [|ev evs IH]; intros w H0; [exact H0|].
    simpl. apply IH, step_timerCleared, H0. }
  intros Hs. specialize (H Hs). clearbody w. 
  unfold Spawn.step. destruct (timeout options); [|reflexivity]. now rewrite H.
Qed.

(** *** A promise that stays pending *)

Lemma step_pending (w : world) (ev : event) :
  settled (proc w) = false -> promise (proc w) = [] -> isSettling ev = false ->
  settled (proc (sStep w ev)) = false ∧ promise (proc (sStep w ev)) = [].
Proof.
  intros Hs Hp Hev. open_run.
  destruct ev; try discriminate; split_run; open_handlers; auto.
Qed.

(** X21: only the [error] and the [close] event of the child settle the
    promise.  Whatever else happens (output, the timeout, an abort,
    [killAllActiveProcesses], the escalation timers), the promise stays
    pending until one of the two arrives: for a child that does not end on
    SIGTERM, the only signal it is ever sent, [spawnProcess] never returns,
    timeout or not. *)
Theorem pending_until_error_or_close (registry : gset handle) (evs : list event) :
  existsb isSettling evs = false ->
  let w := spawnP registry evs in
  settled (proc w) = false
  ∧ promise (proc w) = []
  ∧ (signals (child (proc w)) = [] ∨ signals (child (proc w)) = [SIGTERM]).
Proof.
  intros Hevs w.
  assert (H : settled (proc w) = false ∧ promise (proc w) = []).
  { subst w. unfold Spawn.spawnProcess, Spawn.run.
    assert (H0 : settled (proc (spawned options h registry)) = false
                 ∧ promise (proc (spawned options h registry)) = []) by (split; reflexivity).
    revert H0. generalize (spawned options h registry).
    induction evs as [|ev evs IH]; intros w0 H0; [exact H0|].
    cbn [existsb] in Hevs. apply orb_false_iff in Hevs as [Hev Hevs].
    cbn [fold_left]. apply (IH Hevs). destruct H0 as [Hs Hp].
    now apply step_pending. }
  destruct H as [Hs Hp]. split; [exact Hs|]. split; [exact Hp|].
  apply escalation_never_kills.
Qed.

End SpawnRuns.

(** Output in three chunks, and a child that is closed after a
    timeout. *)
Lemma output_is_complete_and_ordered_witness :
  Spawn.promise (Spawn.proc
     (Spawn.spawnProcess abortable 1%positive ∅
        ([Spawn.StdoutData "a"; Spawn.StderrData "warn"; Spawn.StdoutData "b";
          Spawn.StdinDestroyed; Spawn.StdoutData "c"] ++ [Spawn.ChildClose (Some 2%Z)])))
  = [Spawn.Resolve {| Spawn.exitCode := 2; Spawn.stdout := "abc"; Spawn.stderr := "warn" |}].
Proof.
  apply (proj1 (output_is_complete_and_ordered abortable 1%positive ∅
                  [Spawn.StdoutData "a"; Spawn.StderrData "warn"; Spawn.StdoutData "b";
                   Spawn.StdinDestroyed; Spawn.StdoutData "c"] (Some 2%Z) eq_refl)).
Defined.

Lemma tracked_until_closed_witness :
  Spawn.activeProcesses
    (Spawn.spawnProcess timed 1%positive {[2%positive]}
       [Spawn.StdoutData "a"; Spawn.TimeoutFires])
  = {[1%positive]} ∪ {[2%positive]}
  ∧ 1%positive ∉ Spawn.activeProcesses
      (Spawn.spawnProcess timed 1%positive {[2%positive]}
         ([Spawn.StdoutData "a"; Spawn.TimeoutFires]
            ++ Spawn.ChildClose None :: [Spawn.KillTimerFires])).
Proof.
  destruct (tracked_until_closed timed 1%positive {[2%positive]}
              [Spawn.StdoutData "a"; Spawn.TimeoutFires] [Spawn.KillTimerFires]
              (Spawn.ChildClose None) eq_refl) as [H1 H2].
  split; [exact H1|exact (H2 eq_refl)].
Defined.

(** A child that ignores SIGTERM, with a timeout of 50 ms: the timer
    fires, the escalation timer fires, and nothing is settled. *)
Lemma pending_until_error_or_close_witness :
  Spawn.promise (Spawn.proc
     (Spawn.spawnProcess timed 1%positive ∅
        [Spawn.StdoutData "working"; Spawn.TimeoutFires; Spawn.KillTimerFires;
         Spawn.StdoutData "still working"]))
  = [].
Proof.
  apply (pending_until_error_or_close timed 1%positive ∅
           [Spawn.StdoutData "working"; Spawn.TimeoutFires; Spawn.KillTimerFires;
            Spawn.StdoutData "still working"] eq_refl).
Defined.

(** ** [JSON.parse] reads what [JSON.stringify] writes *)

Section JsonStrings.
Import Json.

Lemma body_plain (c : ascii) (t : string) :
  Ascii.eqb c "034" = false -> Ascii.eqb c "\" = false ->
  (N_of_ascii c <? 32)%N = false ->
  parse_string_body (String c t)
  = '(str, rest) ← parse_string_body t; Some (String c str, rest).
Proof. intros H1 H2 H3. cbn [parse_string_body]. now rewrite H1, H2, H3. Qed.

Lemma body_simple (t : string) :
  let after (x : ascii) :=
    '(str, rest) ← parse_string_body t; Some (String x str, rest) in
  parse_string_body (String "\" (String "034" t)) = after "034"%char
  /\ parse_string_body (String "\" (String "\" t)) = after "\"%char
  /\ parse_string_body (String "\" (String "b" t)) = after "008"%char
  /\ parse_string_body (String "\" (String "f" t)) = after "012"%char
  /\ parse_string_body (String "\" (String "n" t)) = after "010"%char
  /\ parse_string_body (String "\" (String "r" t)) = after "013"%char
  /\ parse_string_body (String "\" (String "t" t)) = after "009"%char.
Proof. repeat split. Qed.

Lemma body_unicode (h1 h2 : ascii) (a b : Z) (t : string) :
  hexdigit h1 = Some a -> hexdigit h2 = Some b ->
  parse_string_body (String "\" (String "u" (String "0" (String "0"
                       (String h1 (String h2 t))))))
  = '(str, rest) ← parse_string_body t;
    Some (utf8 (a * 16 + b) +:+ str, rest).
Proof.
  intros H1 H2. cbn [parse_string_body]. cbn [Ascii.eqb Bool.eqb].
  rewrite H1, H2. reflexivity.
Qed.

(** One character of a string literal, escaped, in front of the rest of
    the literal. *)
Lemma parse_escaped_char (c : ascii) (t s r : string) :
  parse_string_body t = Some (s, r) ->
  parse_string_body (escape_char c +:+ t) = Some (String c s, r).
Proof.
  intros H.
  destruct (body_simple t) as (S1 & S2 & S3 & S4 & S5 & S6 & S7).
  destruct c as [[] [] [] [] [] [] [] []];
    match goal with
    | |- parse_string_body (escape_char ?c +:+ _) = _ =>
        let e := eval vm_compute in (escape_char c) in
        change (escape_char c) with e
    end;
    rewrite ?append_cons, ?append_nil_l;
    first [ rewrite body_plain by reflexivity
          | rewrite S1 | rewrite S2 | rewrite S3 | rewrite S4
          | rewrite S5 | rewrite S6 | rewrite S7
          | erewrite body_unicode by reflexivity ];
    rewrite H; reflexivity.
Qed.

Lemma parse_string_body_escape (s r : string) :
  parse_string_body (escape s +:+ (dq +:+ r)) = Some (s, r).
Proof.
  induction s as [|c s IH]; [reflexivity|].
  cbn [escape]. rewrite append_assoc. now apply parse_escaped_char.
Qed.

End JsonStrings.

Section JsonNumbers.
Import Json.

(** What follows a value inside a JSON text: nothing, or a comma or a
    closing bracket. *)
Definition closed (rest : string) : bool :=
  match rest with
  | "" => true
  | String c _ => Ascii.eqb c "," || Ascii.eqb c "]" || Ascii.eqb c "}"
  end.

Lemma closed_head (rest : string) :
  closed rest = true ->
  rest = "" \/ exists r, rest = String "," r \/ rest = String "]" r \/ rest = String "}" r.
Proof.
  destruct rest as [|c r]; [now left|]. cbn [closed].
  rewrite !orb_true_iff, !Ascii.eqb_eq. intros [[->| ->]| ->]; right; exists r; auto.
Qed.

Lemma take_digits_closed (rest : string) (acc : Z) (count : nat) :
  closed rest = true -> take_digits rest acc count = (acc, count, rest).
Proof.
  intros H. destruct (closed_head rest H) as [->|(r & [->|[->| ->]])]; reflexivity.
Qed.

Lemma take_digits_uint (d : Decimal.uint) (rest : string) (acc : positive) (count : nat) :
  closed rest = true ->
  take_digits (NilEmpty.string_of_uint d +:+ rest) (Z.pos acc) count
  = (Z.pos (Pos.of_uint_acc d acc), (count + Decimal.nb_digits d)%nat, rest).
Proof.
  intros H. revert acc count.
  induction d as [|d IH|d IH|d IH|d IH|d IH|d IH|d IH|d IH|d IH|d IH]; intros acc count;
    cbn [NilEmpty.string_of_uint Pos.of_uint_acc Decimal.nb_digits];
    rewrite ?append_nil_l, ?append_cons.
  1: { rewrite take_digits_closed by exact H. now rewrite Nat.add_0_r. }
  all: cbn [take_digits];
    match goal with
    | |- context [digit ?c] =>
        let v := eval vm_compute in (digit c) in change (digit c) with v
    end;
    cbv iota beta;
    match goal with
    | |- take_digits _ ?a _ = (Z.pos (Pos.of_uint_acc _ ?b), _, _) =>
        replace a with (Z.pos b) by lia
    end;
    rewrite IH; f_equal; f_equal; lia.
Qed.

(** The decimal digits of a positive number start with a digit that is
    not zero, and [take_digits] reads the number back from them. *)
Lemma to_uint_digits (p : positive) :
  match Pos.to_uint p with
  | Decimal.Nil | Decimal.D0 _ => False
  | _ => True
  end.
Proof.
  pose proof (DecimalPos.Unsigned.of_to p) as Hof.
  pose proof (DecimalPos.Unsigned.to_of (Pos.to_uint p)) as Hto.
  rewrite Hof in Hto. cbn [N.to_uint] in Hto.
  destruct (Pos.to_uint p) as [|l|l|l|l|l|l|l|l|l|l]; try exact I.
  - discriminate Hto.
  - unfold Decimal.unorm in Hto. cbn [Decimal.nzhead] in Hto.
    destruct (Decimal.nzhead l) eqn:E; try (symmetry in Hto; revert Hto; rewrite <- E;
                                            apply DecimalFacts.nzhead_nonzero).
    injection Hto as ->. discriminate Hof.
Qed.

Lemma number_to_string_int (m : Z) :
  number_to_string (int m)
  = (if (m <? 0)%Z then "-" else "")
      +:+ NilZero.string_of_uint (N.to_uint (Z.abs_N m)).
Proof. reflexivity. Qed.

Ltac read_digit :=
  match goal with
  | |- context [digit ?c] =>
      let v := eval vm_compute in (digit c) in change (digit c) with v
  end.

Ltac finish_int :=
  try unfold normalise; unfold int; cbn [Z.opp Z.eqb];
  try change (0 - Z.of_nat 0)%Z with 0%Z; change (0 <=? 0)%Z with true;
  cbv iota; change (10 ^ 0)%Z with 1%Z; now rewrite Z.mul_1_r.

Lemma parse_number_int (m : Z) (rest : string) :
  closed rest = true ->
  parse_number (number_to_string (int m) +:+ rest) = Some (int m, rest).
Proof.
  intros Hc. rewrite number_to_string_int.
  destruct m as [|p|p].
  - destruct (closed_head rest Hc) as [->|(r & [->|[->| ->]])]; reflexivity.
  - cbn [Z.ltb Z.compare Z.abs_N N.to_uint]. rewrite append_nil_l.
    pose proof (to_uint_digits p) as Hd.
    pose proof (DecimalPos.Unsigned.of_to p) as Hof.
    destruct (Pos.to_uint p) as [|l|l|l|l|l|l|l|l|l|l]; try contradiction;
      cbn [NilZero.string_of_uint NilEmpty.string_of_uint Pos.of_uint] in *;
      injection Hof as Hof;
      rewrite append_cons; unfold parse_number; cbv iota beta; read_digit;
      cbn [mbind option_bind Z.eqb];
      rewrite (take_digits_uint l rest _ 1 Hc), Hof;
      destruct (closed_head rest Hc) as [->|(r & [->|[->| ->]])];
      cbn; finish_int.
  - cbn [Z.ltb Z.compare Z.abs_N N.to_uint].
    pose proof (to_uint_digits p) as Hd.
    pose proof (DecimalPos.Unsigned.of_to p) as Hof.
    destruct (Pos.to_uint p) as [|l|l|l|l|l|l|l|l|l|l]; try contradiction;
      cbn [NilZero.string_of_uint NilEmpty.string_of_uint Pos.of_uint] in *;
      injection Hof as Hof;
      rewrite !append_cons, append_nil_l, append_cons; unfold parse_number;
      cbv iota beta; read_digit;
      cbn [mbind option_bind Z.eqb];
      rewrite (take_digits_uint l rest _ 1 Hc), Hof;
      destruct (closed_head rest Hc) as [->|(r & [->|[->| ->]])];
      cbn; finish_int.
Qed.

End JsonNumbers.

Section JsonValues.
Import Json.

(** The values that [JSON.stringify] writes with the digits of an integer
    for every number, and with every key once. *)
Fixpoint printable (v : json) : bool :=
  match v with
  | JNull | JBool _ | JStr _ => true
  | JNum n => (expo n =? 0)%Z
  | JArr items => forallb printable items
  | JObj fields =>
      bool_decide (NoDup (List.map fst fields))
      && forallb (fun kv => let '(_, x) := kv in printable x) fields
  end.

Fixpoint weight (v : json) : nat :=
  match v with
  | JArr items => S (list_sum (List.map (fun x => S (weight x)) items))
  | JObj fields =>
      S (list_sum (List.map (fun kv => let '(_, x) := kv in S (weight x)) fields))
  | _ => 1
  end.

Definition member (kv : string * json) : string :=
  let '(k, x) := kv in quote k +:+ ":" +:+ stringify x.

(** The characters a value starts with. *)
Definition opening (c : ascii) : bool :=
  match c with
  | "{" | "[" | "034" | "t" | "f" | "n" | "-"
  | "0" | "1" | "2" | "3" | "4" | "5" | "6" | "7" | "8" | "9" => true
  | _ => false
  end%char.

Definition numeric (c : ascii) : bool :=
  match c with
  | "-" | "0" | "1" | "2" | "3" | "4" | "5" | "6" | "7" | "8" | "9" => true
  | _ => false
  end%char.

Lemma json_induction (P : json -> Prop) :
  P JNull -> (forall b, P (JBool b)) -> (forall n, P (JNum n)) -> (forall s, P (JStr s)) ->
  (forall items, Forall P items -> P (JArr items)) ->
  (forall fields, Forall (fun kv => P (snd kv)) fields -> P (JObj fields)) ->
  forall v, P v.
Proof.
  intros Hnull Hbool Hnum Hstr Harr Hobj. fix IH 1. intros v.
  destruct v as [|b|n|s|items|fields];
    [exact Hnull|apply Hbool|apply Hnum|apply Hstr| |].
  - apply Harr. induction items as [|x xs IHxs]; constructor; [apply IH|exact IHxs].
  - apply Hobj. induction fields as [|[k x] xs IHxs]; constructor; [apply IH|exact IHxs].
Qed.

(** *** One step of the parser on a known first character *)

Lemma parse_value_string (f : nat) (r : string) :
  parse_value (S f) (String "034" r)
  = '(str, r') ← parse_string_body r; Some (JStr str, r').
Proof. reflexivity. Qed.

Lemma parse_value_number (f : nat) (c : ascii) (s : string) :
  numeric c = true ->
  parse_value (S f) (String c s) = '(n, r) ← parse_number (String c s); Some (JNum n, r).
Proof.
  intros H. destruct c as [[] [] [] [] [] [] [] []]; try discriminate H; reflexivity.
Qed.

Lemma parse_value_elements (f : nat) (c : ascii) (s : string) :
  opening c = true ->
  parse_value (S f) (String "[" (String c s)) = parse_elements f (String c s) [].
Proof.
  intros H. destruct c as [[] [] [] [] [] [] [] []]; try discriminate H; reflexivity.
Qed.

Lemma parse_value_members (f : nat) (s : string) :
  parse_value (S f) (String "{" (String "034" s)) = parse_members f (String "034" s) [].
Proof. reflexivity. Qed.

Lemma parse_elements_step (f : nat) (s : string) (acc : list json) :
  parse_elements (S f) s acc
  = '(v, r) ← parse_value f s;
    match skip_ws r with
    | String "," r' => parse_elements f r' (acc ++ [v])
    | String "]" r' => Some (JArr (acc ++ [v]), r')
    | _ => None
    end.
Proof. reflexivity. Qed.

Lemma parse_members_step (f : nat) (r : string) (acc : Obj.t) :
  parse_members (S f) (String "034" r) acc
  = '(k, r1) ← parse_string_body r;
    match skip_ws r1 with
    | String ":" r2 =>
        '(v, r3) ← parse_value f r2;
        match skip_ws r3 with
        | String "," r4 => parse_members f r4 (Obj.set k v acc)
        | String "}" r4 => Some (JObj (Obj.set k v acc), r4)
        | _ => None
        end
    | _ => None
    end.
Proof. reflexivity. Qed.

(** *** The text of a value *)

Lemma stringify_opening (v : json) :
  printable v = true ->
  exists c s, stringify v = String c s /\ opening c = true.
Proof.
  destruct v as [|[]|[m e]|s|items|fields]; cbn [printable expo]; intros H;
    try (eexists _, _; split; reflexivity).
  apply Z.eqb_eq in H. subst e. change (Num m 0) with (int m).
  cbn [stringify]. rewrite number_to_string_int.
  destruct m as [|p|p]; try (eexists _, _; split; reflexivity).
  cbn [Z.ltb Z.compare Z.abs_N N.to_uint]. rewrite append_nil_l.
  pose proof (to_uint_digits p) as Hd.
  destruct (Pos.to_uint p); try contradiction; eexists _, _; split; reflexivity.
Qed.

Lemma number_numeric (m : Z) :
  exists c s, number_to_string (int m) = String c s /\ numeric c = true.
Proof.
  rewrite number_to_string_int.
  destruct m as [|p|p]; try (eexists _, _; split; reflexivity).
  cbn [Z.ltb Z.compare Z.abs_N N.to_uint]. rewrite append_nil_l.
  pose proof (to_uint_digits p) as Hd.
  destruct (Pos.to_uint p); try contradiction; eexists _, _; split; reflexivity.
Qed.

Lemma join_cons (sep x : string) (l : list string) :
  JS.join sep (x :: l)
  = x +:+ match l with [] => "" | _ => sep +:+ JS.join sep l end.
Proof. destruct l; cbn; [now rewrite append_nil_r|reflexivity]. Qed.


Lemma join_map_cons {A : Type} (f : A -> string) (sep : string) (x : A) (l : list A) :
  JS.join sep (List.map f (x :: l))
  = f x +:+ match l with [] => "" | _ => sep +:+ JS.join sep (List.map f l) end.
Proof. destruct l; cbn; [now rewrite append_nil_r|reflexivity]. Qed.

Definition elementsSize (items : list json) : nat :=
  list_sum (List.map (fun x => S (weight x)) items).

Definition membersSize (fields : list (string * json)) : nat :=
  list_sum (List.map (fun kv => let '(_, x) := kv in S (weight x)) fields).

Definition printableFields (fields : list (string * json)) : bool :=
  forallb (fun kv => let '(_, x) := kv in printable x) fields.

Lemma weight_pos (v : json) : (1 <= weight v)%nat.
Proof. destruct v; cbn; lia. Qed.

Lemma closed_comma (s : string) : closed ("," +:+ s) = true.
Proof. reflexivity. Qed.

Lemma set_fresh (k : string) (v : json) (acc : Obj.t) :
  k ∉ List.map fst acc -> Obj.set k v acc = acc ++ [(k, v)].
Proof.
  induction acc as [|[k' v'] acc IH]; intros H; [reflexivity|].
  cbn [List.map fst] in H. apply not_elem_of_cons in H as [Hk H].
  cbn [Obj.set]. apply String.eqb_neq in Hk. rewrite Hk. cbn [app].
  now rewrite IH.
Qed.

Lemma spread_fresh (fields acc : Obj.t) :
  NoDup (List.map fst (acc ++ fields)) -> Obj.spread acc fields = acc ++ fields.
Proof.
  revert acc. induction fields as [|[k v] fields IH]; intros acc H.
  - now rewrite app_nil_r.
  - change (Obj.spread acc ((k, v) :: fields)) with (Obj.spread (Obj.set k v acc) fields).
    assert (Hk : k ∉ List.map fst acc).
    { rewrite map_app in H. apply NoDup_app in H as (_ & H & _).
      intros Hin. apply (H k Hin). cbn. left. }
    rewrite (set_fresh k v acc Hk), IH, <- app_assoc; [reflexivity|].
    now rewrite <- app_assoc.
Qed.

(** With enough fuel the parser reads a printed value, a printed list of
    elements and a printed list of members, and stops behind them. *)
Lemma round_trip_fuel (n : nat) :
  (forall v rest,
     (weight v <= n)%nat -> printable v = true -> closed rest = true ->
     parse_value n (stringify v +:+ rest) = Some (v, rest))
  /\ (forall items acc rest,
        items <> [] -> (elementsSize items <= n)%nat ->
        forallb printable items = true ->
        parse_elements n (JS.join "," (List.map stringify items) +:+ "]" +:+ rest) acc
        = Some (JArr (acc ++ items), rest))
  /\ (forall fields acc rest,
        fields <> [] -> (membersSize fields <= n)%nat ->
        printableFields fields = true ->
        parse_members n (JS.join "," (List.map member fields) +:+ "}" +:+ rest) acc
        = Some (JObj (Obj.spread acc fields), rest)).
Proof.
  induction n as [|n (IHv & IHe & IHm)].
  { split; [|split].
    - intros v rest H. pose proof (weight_pos v). lia.
    - intros [|x xs] acc rest H; [contradiction|]. unfold elementsSize. cbn. lia.
    - intros [|[k x] xs] acc rest H; [contradiction|]. unfold membersSize. cbn. lia. }
  split; [|split].
  - intros v rest Hsize Hp Hc.
    destruct v as [|b|[m e]|s|items|fields].
    + reflexivity.
    + destruct b; reflexivity.
    + cbn [printable expo] in Hp. apply Z.eqb_eq in Hp. subst e.
      change (Num m 0) with (int m). cbn [stringify].
      destruct (number_numeric m) as (c & s & E & Hnum).
      rewrite E, append_cons, (parse_value_number n c _ Hnum), <- append_cons, <- E.
      now rewrite (parse_number_int m rest Hc).
    + cbn [stringify]. unfold quote. rewrite !append_assoc. unfold dq at 1.
      rewrite append_cons, append_nil_l, parse_value_string, parse_string_body_escape.
      reflexivity.
    + destruct items as [|x xs]; [reflexivity|].
      cbn [stringify]. rewrite !append_cons, append_nil_l, append_assoc.
      cbn [printable forallb] in Hp. apply andb_true_iff in Hp as [Hx Hxs].
      assert (Hhead : exists c s,
                 JS.join "," (List.map stringify (x :: xs)) +:+ "]" +:+ rest = String c s
                 /\ opening c = true).
      { destruct (stringify_opening x Hx) as (c & s & E & Hopen).
        cbn [List.map]. rewrite join_cons, E, !append_cons. eauto. }
      destruct Hhead as (c & s & E & Hopen).
      rewrite E, (parse_value_elements n c _ Hopen), <- E.
      cbn [weight] in Hsize.
      rewrite (IHe (x :: xs) [] rest); [reflexivity|discriminate| |].
      * unfold elementsSize. lia.
      * cbn [forallb]. now rewrite Hx, Hxs.
    + destruct fields as [|[k x] xs]; [reflexivity|].
      cbn [stringify]. rewrite !append_cons, append_nil_l, append_assoc.
      change (List.map _ ((k, x) :: xs)) with (List.map member ((k, x) :: xs)).
      cbn [printable] in Hp. apply andb_true_iff in Hp as [Hkeys Hp].
      apply bool_decide_eq_true in Hkeys.
      cbn [weight] in Hsize.
      assert (Hhead : exists s, JS.join "," (List.map member ((k, x) :: xs)) +:+ "}" +:+ rest
                                = String "034" s).
      { cbn [List.map]. rewrite join_cons. unfold member at 1, quote, dq.
        rewrite !append_cons. eexists. reflexivity. }
      destruct Hhead as (s & E). rewrite E, parse_value_members, <- E.
      rewrite (IHm ((k, x) :: xs) [] rest); [|discriminate| |exact Hp].
      * now rewrite (spread_fresh ((k, x) :: xs) []).
      * unfold membersSize. lia.
  - intros [|x xs] acc rest Hne Hsize Hp; [contradiction|].
    rewrite parse_elements_step, join_map_cons.
    unfold elementsSize in Hsize.
    cbn [forallb] in Hp. apply andb_true_iff in Hp as [Hx Hxs].
    destruct xs as [|y ys]; cbn [List.map list_sum fold_right] in Hsize; cbv iota.
    + rewrite append_nil_r, (IHv x _); [reflexivity|lia|exact Hx|reflexivity].
    + rewrite !append_assoc, (IHv x _); [|lia|exact Hx|reflexivity].
      cbn [mbind option_bind]. rewrite append_cons, append_nil_l.
      cbn [skip_ws is_ws].
      rewrite (IHe (y :: ys) (acc ++ [x]) rest); [|discriminate| |exact Hxs].
      * now rewrite <- app_assoc.
      * unfold elementsSize. cbn [List.map list_sum fold_right]. lia.
  - intros [|[k x] xs] acc rest Hne Hsize Hp; [contradiction|].
    rewrite join_map_cons. unfold member at 1, quote. unfold dq at 1.
    rewrite !append_assoc, append_cons, append_nil_l, parse_members_step.
    rewrite parse_string_body_escape. cbn [mbind option_bind].
    rewrite append_cons, append_nil_l. cbn [skip_ws is_ws].
    unfold membersSize in Hsize.
    unfold printableFields in Hp. cbn [forallb] in Hp.
    apply andb_true_iff in Hp as [Hx Hxs].
    destruct xs as [|y ys]; cbn [List.map list_sum fold_right] in Hsize; cbv iota.
    + rewrite append_nil_l, (IHv x _); [reflexivity|lia|exact Hx|reflexivity].
    + rewrite !append_assoc, (IHv x _); [|lia|exact Hx|reflexivity].
      cbn [mbind option_bind]. rewrite append_cons, append_nil_l.
      cbn [skip_ws is_ws].
      rewrite (IHm (y :: ys) (Obj.set k x acc) rest); [reflexivity|discriminate| |exact Hxs].
      unfold membersSize. cbn [List.map list_sum fold_right]. lia.
Qed.

End JsonValues.

Section JsonRoundTrip.
Import Json.

Lemma number_length (m : Z) : (1 <= String.length (number_to_string (int m)))%nat.
Proof.
  destruct (number_numeric m) as (c & s & -> & _). cbn [String.length]. lia.
Qed.

Lemma elements_length (items : list json) :
  Forall (fun x => (weight x <= String.length (stringify x))%nat) items ->
  (elementsSize items <= S (String.length (JS.join "," (List.map stringify items))))%nat.
Proof.
  unfold elementsSize. induction 1 as [|x xs Hx Hxs IH]; [cbn [List.map list_sum fold_right]; lia|].
  rewrite join_map_cons, length_append. cbn [List.map list_sum fold_right].
  destruct xs as [|y ys];
    [clear IH Hxs; cbn [List.map list_sum fold_right String.length]; lia|].
  rewrite length_append. cbn [List.map list_sum fold_right String.length] in *. lia.
Qed.

Lemma members_length (fields : list (string * json)) :
  Forall (fun kv => (weight (snd kv) <= String.length (stringify (snd kv)))%nat) fields ->
  (membersSize fields <= S (String.length (JS.join "," (List.map member fields))))%nat.
Proof.
  unfold membersSize. induction 1 as [|[k x] xs Hx Hxs IH]; [cbn [List.map list_sum fold_right]; lia|].
  rewrite join_map_cons, length_append. cbn [List.map list_sum fold_right].
  cbn [snd] in Hx.
  assert (Hm : (S (weight x) <= String.length (member (k, x)))%nat).
  { unfold member, quote, dq. rewrite !length_append. cbn [String.length]. lia. }
  destruct xs as [|y ys];
    [clear IH Hxs; cbn [List.map list_sum fold_right String.length]; lia|].
  rewrite length_append. cbn [List.map list_sum fold_right String.length] in *. lia.
Qed.

Lemma weight_length (v : json) :
  printable v = true -> (weight v <= String.length (stringify v))%nat.
Proof.
  induction v as [|b|[m e]|s|items IH|fields IH] using json_induction; intros Hp.
  - cbn. lia.
  - destruct b; cbn; lia.
  - cbn [printable expo] in Hp. apply Z.eqb_eq in Hp. subst e.
    apply (number_length m).
  - cbn [weight stringify]. unfold quote, dq. rewrite !length_append.
    cbn [String.length]. lia.
  - cbn [weight stringify]. rewrite !length_append. cbn [String.length].
    cbn [printable] in Hp.
    assert (H : Forall (fun x => (weight x <= String.length (stringify x))%nat) items).
    { rewrite forallb_forall in Hp. rewrite Forall_forall in *.
      intros x Hx. apply (IH x Hx), Hp. now apply list_elem_of_In. }
    pose proof (elements_length items H). unfold elementsSize in *. lia.
  - cbn [stringify]. change (List.map _ fields) with (List.map member fields).
    cbn [weight]. rewrite !length_append. cbn [String.length].
    cbn [printable] in Hp. apply andb_true_iff in Hp as [_ Hp].
    assert (H : Forall (fun kv => (weight (snd kv) <= String.length (stringify (snd kv)))%nat)
                  fields).
    { rewrite forallb_forall in Hp. rewrite Forall_forall in *.
      intros [k x] Hx. apply (IH _ Hx). apply (Hp (k, x)). now apply list_elem_of_In. }
    pose proof (members_length fields H). unfold membersSize in *. lia.
Qed.

(** What [JSON.stringify] writes, [JSON.parse] reads back: for every
    value whose numbers are integers and whose objects hold every key
    once. *)
Lemma parse_stringify (v : json) :
  printable v = true -> parse (stringify v) = Some v.
Proof.
  intros Hp. unfold parse.
  destruct (round_trip_fuel (S (String.length (stringify v)))) as (Hv & _).
  specialize (Hv v "" (Nat.le_trans _ _ _ (weight_length v Hp) (Nat.le_succ_diag_r _)) Hp
                eq_refl).
  rewrite append_nil_r in Hv. now rewrite Hv.
Qed.

End JsonRoundTrip.

(** ** Grants that follow one another *)

Section PolicyRoundTrip.
Import Json Policy.

Variable processEnv : Env.

Lemma keys_set (k : string) (v : json) (o : Obj.t) :
  NoDup (List.map fst o) -> NoDup (List.map fst (Obj.set k v o)).
Proof.
  intros H.
  destruct (decide (k ∈ List.map fst o)) as [Hin|Hnin].
  - assert (E : List.map fst (Obj.set k v o) = List.map fst o); [|now rewrite E].
    clear H. induction o as [|[k' v'] o IH]; [inversion Hin|].
    cbn [Obj.set]. destruct (String.eqb k k') eqn:Ek.
    + apply String.eqb_eq in Ek. now subst.
    + cbn [List.map fst] in *. f_equal. apply IH.
      apply elem_of_cons in Hin as [->|Hin]; [|exact Hin].
      now rewrite String.eqb_refl in Ek.
  - rewrite (set_fresh k v o Hnin), map_app. cbn [List.map fst].
    apply NoDup_app. split; [exact H|]. split; [|apply NoDup_singleton].
    intros x Hx Hx'. apply list_elem_of_singleton in Hx'. now subst.
Qed.

Lemma fields_set (k : string) (v : json) (o : Obj.t) :
  printable v = true -> printableFields o = true -> printableFields (Obj.set k v o) = true.
Proof.
  intros Hv. unfold printableFields.
  induction o as [|[k' v'] o IH]; intros H; cbn [Obj.set forallb].
  - now rewrite Hv.
  - cbn [forallb] in H. apply andb_true_iff in H as [H1 H2].
    destruct (String.eqb k k'); cbn [forallb].
    + now rewrite Hv, H2.
    + now rewrite H1, IH.
Qed.

Lemma printable_set (k : string) (v : json) (o : Obj.t) :
  printable v = true -> printable (JObj o) = true -> printable (JObj (Obj.set k v o)) = true.
Proof.
  cbn [printable]. intros Hv H. apply andb_true_iff in H as [Hk Hf].
  apply bool_decide_eq_true in Hk. apply andb_true_iff. split.
  - apply bool_decide_eq_true. now apply keys_set.
  - now apply fields_set.
Qed.

Lemma printable_assign (k : string) (v : json) (o : Obj.t) :
  printable v = true -> printable (JObj o) = true ->
  printable (JObj (Obj.assign k v o)) = true.
Proof.
  intros Hv H. unfold Obj.assign.
  destruct (String.eqb k "__proto__" && negb (Obj.has k o)); [exact H|].
  now apply printable_set.
Qed.

Lemma printable_get (k : string) (o : Obj.t) (v : json) :
  printable (JObj o) = true -> Obj.get k o = Some v -> printable v = true.
Proof.
  cbn [printable]. intros H. apply andb_true_iff in H as [_ H].
  induction o as [|[k' v'] o IH]; cbn [Obj.get]; [discriminate|].
  cbn [forallb] in H. apply andb_true_iff in H as [H1 H2].
  destruct (String.eqb k k'); [intros [= <-]; exact H1|now apply IH].
Qed.

Lemma printable_allowPatterns (patterns : list string) (bashPolicy : Obj.t) :
  printable (JObj bashPolicy) = true ->
  printable (JObj (allowPatterns patterns bashPolicy)) = true.
Proof.
  unfold allowPatterns. revert bashPolicy.
  induction patterns as [|p ps IH]; intros bashPolicy H; [exact H|].
  cbn [fold_left]. apply IH. now apply printable_assign.
Qed.

Lemma printable_ensureObject (value : jsval) :
  (forall v, value = Some v -> printable v = true) ->
  printable (JObj (ensureObject value)) = true.
Proof.
  intros H. destruct value as [[| | | | |fields]|]; try reflexivity.
  now apply H.
Qed.

(** The policy that a grant writes is printable when the policy in force
    is. *)
Lemma printable_updatedPolicy (request : PermissionRequestContext)
    (currentEnv : option Env) (policy : Obj.t) (summary : string) :
  printable (JObj (parsePolicy (existingPolicy processEnv currentEnv))) = true ->
  updatedPolicy processEnv request currentEnv = Some (policy, summary) ->
  printable (JObj policy) = true.
Proof.
  intros Hprior. unfold updatedPolicy.
  destruct (normalizeCapability request) as [[|c capability]|]; try discriminate.
  destruct (String.eqb _ "bash"); intros [= <- _].
  - apply printable_set; [|exact Hprior].
    apply printable_allowPatterns, printable_ensureObject.
    intros v Hv. now apply (printable_get "bash" _ v Hprior).
  - now apply printable_assign.
Qed.

Lemma stringify_object_truthy (fields : Obj.t) :
  exists c s, stringify (JObj fields) = String c s.
Proof. cbn [stringify]. rewrite append_cons. eauto. Qed.


End PolicyRoundTrip.


(** ** The lock file *)

Section LockFile.
Import FileLock.

Variable signalled : Z -> bool.

(** The wait of [delay]. *)
Definition waited (ms : Z) : Z :=
  if (ms <? 1)%Z || (2147483647 <? ms)%Z then 1%Z else ms.

Lemma waited_positive (ms : Z) : (0 < waited ms)%Z.
Proof.
  unfold waited. destruct (ms <? 1)%Z eqn:E; [cbn; lia|].
  apply Z.ltb_ge in E. destruct (2147483647 <? ms)%Z; cbn; lia.
Qed.

(** What a process writes into its lock file is what the others read. *)
Lemma metadata_read_back (owner now : Z) (description : option string) :
  parseMetadata (metadataText owner description now)
  = {| pid := int owner; createdAt := int now |}.
Proof.
  unfold parseMetadata, metadataText.
  rewrite parse_stringify; [reflexivity|].
  destruct description as [[|c d]|]; reflexivity.
Qed.

Lemma isStale_later (now now' staleMs : Z) (created : number) :
  (now <= now')%Z -> isStale now' staleMs created = false ->
  isStale now staleMs created = false.
Proof.
  unfold isStale. intros Hle H. apply Z.ltb_ge in H. apply Z.ltb_ge.
  assert (Hp : (0 < 10 ^ Z.max 0 (- expo created))%Z) by (apply Z.pow_pos_nonneg; lia).
  nia.
Qed.

Lemma isStale_int (now staleMs created : Z) :
  isStale now staleMs (int created) = (staleMs <? now - created)%Z.
Proof.
  unfold isStale, int. cbn [mant expo]. change (10 ^ Z.max 0 0)%Z with 1%Z.
  change (10 ^ Z.max 0 (- 0))%Z with 1%Z. rewrite !Z.mul_1_r.
  destruct (staleMs <? now - created)%Z eqn:E.
  - apply Z.ltb_lt in E. apply Z.ltb_lt. lia.
  - apply Z.ltb_ge in E. apply Z.ltb_ge. lia.
Qed.

Lemma isProcessAlive_int (owner : Z) :
  (0 < owner <= 2147483647)%Z ->
  isProcessAlive signalled (int owner) = signalled owner.
Proof.
  intros [H1 H2]. unfold isProcessAlive, int. cbn [mant expo].
  destruct (owner <=? 0)%Z eqn:E; [apply Z.leb_le in E; lia|].
  apply Z.leb_le in H2. now rewrite H2.
Qed.

(** The rounds of the loop on a lock that is held: every round finds the
    file, leaves it, and waits. *)
Lemma attempts_held (me : Z) (lockPath raw : string) (stale retry wait : Z)
    (description : option string) (left : nat) (attempt : Z) (w : World) :
  files w !! lockPath = Some raw ->
  isProcessAlive signalled (pid (parseMetadata raw)) = true ->
  isStale (clock w + (retry - attempt) * waited wait) stale
    (createdAt (parseMetadata raw)) = false ->
  (0 <= attempt <= retry)%Z ->
  left = Z.to_nat (retry - attempt + 1) ->
  attempts me signalled left attempt lockPath stale retry wait description w
  = (inr (LockBusyError ("Lock is currently held: " +:+ lockPath)),
     {| files := files w; clock := clock w + (retry - attempt) * waited wait |}).
Proof.
  intros Hfile Halive.
  revert attempt w Hfile. induction left as [|left IH]; intros attempt w Hfile Hfresh Hat Hleft.
  - lia.
  - cbn [attempts]. rewrite Hfile. unfold tryClearStaleLock. rewrite Hfile.
    cbv zeta. rewrite Halive.
    pose proof (waited_positive wait) as Hw.
    assert (Hle : (clock w <= clock w + (retry - attempt) * waited wait)%Z).
    { pose proof (Z.mul_nonneg_nonneg (retry - attempt) (waited wait)). lia. }
    rewrite (isStale_later (clock w) _ stale _ Hle Hfresh).
    cbn [orb negb].
    destruct (attempt =? retry)%Z eqn:E.
    + apply Z.eqb_eq in E. subst attempt. rewrite Z.sub_diag, Z.mul_0_l, Z.add_0_r.
      now destruct w.
    + apply Z.eqb_neq in E.
      rewrite (IH (attempt + 1)%Z (delay wait w)).
      * unfold delay. cbn [files clock]. fold (waited wait). do 2 f_equal. lia.
      * exact Hfile.
      * unfold delay. cbn [clock]. fold (waited wait).
        replace (clock w + waited wait + (retry - (attempt + 1)) * waited wait)%Z
          with (clock w + (retry - attempt) * waited wait)%Z by lia.
        exact Hfresh.
      * lia.
      * lia.
Qed.

(** X23: the lock excludes.  A process takes the lock on a free path.
    As long as it is alive and the lock is not older than [staleMs], also
    at the last retry, [acquireFileLock] of another process fails with
    [LockBusyError] after waiting [retries] times, and leaves the lock file
    as the holder wrote it. *)
Theorem held_lock_is_refused (owner me : Z) (probe : Z -> bool) (lockPath : string)
    (first second : AcquireLockOptions) (w : World) (later : Z) :
  files w !! lockPath = None ->
  (0 <= default DEFAULT_RETRIES (retries first))%Z ->
  (0 < owner <= 2147483647)%Z ->
  signalled owner = true ->
  let held := acquireFileLock owner probe lockPath first w in
  let retry := default DEFAULT_RETRIES (retries second) in
  let span := (retry * waited (default DEFAULT_RETRY_DELAY_MS (retryDelayMs second)))%Z in
  (0 <= retry)%Z ->
  (later + span - clock w <= default DEFAULT_STALE_MS (staleMs second))%Z ->
  held = (inl {| path := lockPath; released := false |},
          writeFile lockPath (metadataText owner (description first) (clock w)) w)
  /\ acquireFileLock me signalled lockPath second
       {| files := files (snd held); clock := later |}
     = (inr (LockBusyError ("Lock is currently held: " +:+ lockPath)),
        {| files := files (snd held); clock := later + span |}).
Proof.
  intros Hfree Hfirst Howner Halive held retry span Hretry Hfresh.
  assert (Hheld : held = (inl {| path := lockPath; released := false |},
                          writeFile lockPath
                            (metadataText owner (description first) (clock w)) w)).
  { subst held. unfold acquireFileLock.
    destruct (Z.to_nat (default DEFAULT_RETRIES (retries first) + 1)) eqn:E; [lia|].
    cbn [attempts]. now rewrite Hfree. }
  split; [exact Hheld|]. rewrite Hheld. cbn [snd writeFile files].
  unfold acquireFileLock. fold retry.
  rewrite (attempts_held me lockPath
             (metadataText owner (description first) (clock w))
             _ retry _ _ _ 0%Z).
  - cbn [files clock]. subst span. do 2 f_equal. lia.
  - cbn [files]. apply lookup_insert_eq.
  - rewrite metadata_read_back. cbn [pid].
    now rewrite isProcessAlive_int.
  - rewrite metadata_read_back. cbn [createdAt clock]. rewrite isStale_int.
    apply Z.ltb_ge. subst span. lia.
  - lia.
  - f_equal. lia.
Qed.


(** A lock file that holds no JSON counts as stale. *)
Lemma malformed_lock_is_stale (raw : string) (now staleMs : Z) :
  Json.parse raw = None ->
  isStale now staleMs (createdAt (parseMetadata raw))
  || negb (isProcessAlive signalled (pid (parseMetadata raw))) = true.
Proof.
  intros H. unfold parseMetadata. rewrite H. cbn [pid createdAt].
  apply orb_true_iff. right. reflexivity.
Qed.

(** X25: taking and giving back.  On a free path [acquireFileLock]
    succeeds at the first attempt and without waiting; the lock file names
    the caller and the time.  The release removes the file and leaves every
    other file as it was, and a second call of the release changes nothing,
    also when another process has taken the lock in between. *)
Theorem lock_is_taken_and_given_back (me : Z) (lockPath : string)
    (options : AcquireLockOptions) (w : World) :
  files w !! lockPath = None ->
  (0 <= default DEFAULT_RETRIES (retries options))%Z ->
  exists r w1,
    acquireFileLock me signalled lockPath options w = (inl r, w1)
    /\ clock w1 = clock w
    /\ (exists raw, files w1 !! lockPath = Some raw
                    /\ parseMetadata raw = {| pid := int me; createdAt := int (clock w) |})
    /\ (forall other, other <> lockPath -> files w1 !! other = files w !! other)
    /\ snd (release r w1) = w
    /\ (forall w2, snd (release (fst (release r w1)) w2) = w2).
Proof.
  intros Hfree Hretry. unfold acquireFileLock.
  destruct (Z.to_nat (default DEFAULT_RETRIES (retries options) + 1)) eqn:E; [lia|].
  cbn [attempts]. rewrite Hfree. eexists _, _. split; [reflexivity|].
  unfold writeFile. cbn [files clock]. split; [reflexivity|]. split; [|split; [|split]].
  - eexists. split; [apply lookup_insert_eq|apply metadata_read_back].
  - intros other Hne. now apply lookup_insert_ne.
  - unfold release, unlink. cbn [released path snd files clock].
    rewrite delete_insert_eq, delete_id by exact Hfree. now destruct w.
  - intros w2. reflexivity.
Qed.

(** *** The lock of the registry *)

Lemma lock_path_differs (registryPath : string) : registryPath +:+ ".lock" <> registryPath.
Proof.
  intros H. apply (f_equal String.length) in H. rewrite length_append in H.
  cbn [String.length] in H. lia.
Qed.

(** The registry file after [acquireLock] has made sure that it is
    there. *)
Definition ensured (registryPath : string) (w : World) : World :=
  match files w !! registryPath with
  | Some _ => w
  | None => writeFile registryPath initialData w
  end.

Lemma ensured_lock (registryPath : string) (w : World) :
  files (ensured registryPath w) !! (registryPath +:+ ".lock")
  = files w !! (registryPath +:+ ".lock").
Proof.
  unfold ensured. destruct (files w !! registryPath); [reflexivity|].
  cbn [writeFile files]. apply lookup_insert_ne. intros H. symmetry in H.
  now apply lock_path_differs in H.
Qed.

Lemma ensured_clock (registryPath : string) (w : World) :
  clock (ensured registryPath w) = clock w.
Proof. unfold ensured. now destruct (files w !! registryPath). Qed.


(** X27: with the lock free, [withLock] runs [fn] while the lock file
    names the caller, and removes the lock file when [fn] is done, whether
    [fn] returned or threw; the registry file is there when [fn] starts. *)
Theorem registry_lock_is_held_while_fn_runs {R : Type} (me : Z) (registryPath : string)
    (fn : World -> R * World) (w : World) :
  files w !! (registryPath +:+ ".lock") = None ->
  let entered :=
    writeFile (registryPath +:+ ".lock") (metadataText me (Some "registry") (clock w))
      (ensured registryPath w) in
  withLock me signalled registryPath fn w
  = (fst (fn entered), unlink (registryPath +:+ ".lock") (snd (fn entered)))
  /\ is_Some (files entered !! registryPath)
  /\ (exists raw, files entered !! (registryPath +:+ ".lock") = Some raw
                  /\ parseMetadata raw = {| pid := int me; createdAt := int (clock w) |}).
Proof.
  intros Hfree entered.
  assert (Hheld : acquireFileLock me signalled (registryPath +:+ ".lock") registryOptions
                    (ensured registryPath w)
                  = (inl {| path := registryPath +:+ ".lock"; released := false |}, entered)).
  { change (attempts me signalled 11 0 (registryPath +:+ ".lock") 45000 10 150
              (Some "registry") (ensured registryPath w)
            = (inl {| path := registryPath +:+ ".lock"; released := false |}, entered)).
    cbn [attempts].
    rewrite ensured_lock, Hfree, ensured_clock. reflexivity. }
  split; [|split].
  - unfold withLock, acquireLock. fold (ensured registryPath w). rewrite Hheld.
    destruct (fn entered) as [result w2]. reflexivity.
  - subst entered. cbn [writeFile files].
    rewrite lookup_insert_ne by apply lock_path_differs.
    unfold ensured. destruct (files w !! registryPath) eqn:E; [now rewrite E|].
    cbn [writeFile files]. rewrite lookup_insert_eq. eauto.
  - subst entered. cbn [writeFile files]. eexists.
    split; [apply lookup_insert_eq|apply metadata_read_back].
Qed.

End LockFile.

(** Two processes and the lock of a registry: process 4711 holds it since
    the time 1000. *)
Definition everyoneAlive (p : Z) : bool := true.

Definition registryLock : string := "/work/registry.json.lock".

Definition heldBy4711 : FileLock.World :=
  {| FileLock.files := {[ registryLock := FileLock.metadataText 4711 (Some "registry") 1000 ]};
     FileLock.clock := 2000 |}.

Lemma held_lock_is_refused_witness :
  FileLock.acquireFileLock 4712 everyoneAlive registryLock FileLock.registryOptions heldBy4711
  = (inr (FileLock.LockBusyError "Lock is currently held: /work/registry.json.lock"),
     {| FileLock.files := FileLock.files heldBy4711; FileLock.clock := 3500 |}).
Proof.
  refine (proj2 (held_lock_is_refused everyoneAlive 4711 4712 everyoneAlive registryLock
                   FileLock.registryOptions FileLock.registryOptions
                   {| FileLock.files := ∅; FileLock.clock := 1000 |} 2000
                   eq_refl _ _ eq_refl _ _)); cbn; lia.
Defined.


Lemma lock_is_taken_and_given_back_witness :
  exists r w1,
    FileLock.acquireFileLock 4711 everyoneAlive registryLock FileLock.registryOptions
      {| FileLock.files := {[ "/work/registry.json" := "{}" ]}; FileLock.clock := 1000 |}
    = (inl r, w1)
    /\ snd (FileLock.release r w1)
       = {| FileLock.files := {[ "/work/registry.json" := "{}" ]}; FileLock.clock := 1000 |}.
Proof.
  assert (Hfree : FileLock.files
                    {| FileLock.files := {[ "/work/registry.json" := "{}" ]};
                       FileLock.clock := 1000 |} !! registryLock = None)
    by (vm_compute; reflexivity).
  destruct (lock_is_taken_and_given_back everyoneAlive 4711 registryLock
              FileLock.registryOptions
              {| FileLock.files := {[ "/work/registry.json" := "{}" ]};
                 FileLock.clock := 1000 |} Hfree)
    as (r & w1 & H1 & _ & _ & _ & H2 & _); [cbn; lia|].
  exists r, w1. split; [exact H1|exact H2].
Defined.

(** [fn] reports the lock file that it finds. *)
Definition seenLock (w : FileLock.World) : option string * FileLock.World :=
  (FileLock.files w !! registryLock, w).


Lemma registry_lock_is_held_while_fn_runs_witness :
  FileLock.withLock 4711 everyoneAlive "/work/registry.json" seenLock
    {| FileLock.files := ∅; FileLock.clock := 1000 |}
  = (Some (FileLock.metadataText 4711 (Some "registry") 1000),
     {| FileLock.files := {[ "/work/registry.json" := FileLock.initialData ]};
        FileLock.clock := 1000 |}).
Proof.
  rewrite (proj1 (registry_lock_is_held_while_fn_runs everyoneAlive 4711
                    "/work/registry.json" seenLock
                    {| FileLock.files := ∅; FileLock.clock := 1000 |}
                    (lookup_empty _))).
  vm_compute. reflexivity.
Defined.
